(** * Secure-Hash-Algorithm: a shallow embedding of the digest programs

    The repository holds one C++ program per algorithm.  Each program is
    embedded below in a module of its own, named after the source file:

    - [ShaH]       : [sha.h], the bit-vector helpers shared by SHA-256/384;
    - [Md5]        : [Md5.cpp], whole-message MD5;
    - [Md5Stream]  : [src/Md5.cpp], MD5 reading stdin in 64-byte chunks;
    - [Sha1]       : [Sha1.cpp], whole-message SHA-1;
    - [Sha1Stream] : [src/Sha1.cpp], SHA-1 reading stdin in 64-byte chunks;
    - [Sha256]     : [Sha256.cpp];
    - [Sha384]     : [src/Sha384.cpp].

    Machine integers are [Z] with the wrap-around written out ([u32],
    [u64]).  A shift whose count is outside [0, width) is undefined in C++;
    the rotation helpers therefore return in the [res] monad and fail with
    [UndefinedShift] there.  [while] loops run on fuel and fail with
    [OutOfFuel] when it is exhausted.  The byte order of the host matters
    in one place only (MD5 prints the state words through a [uint8_t*]);
    a little-endian host is modelled. *)

From Stdlib Require Import String Ascii.
From Stdlib.Strings Require Import Byte.
From Stdlib Require Import ZArith List Bool Lia.
Import ListNotations.

Local Open Scope Z_scope.

(** ** Results of partial computations *)

Inductive failure : Type :=
| UndefinedShift   (* a shift by a count outside [0, width) *)
| OutOfFuel.       (* a [while] loop that did not stop within its bound *)

Inductive res (A : Type) : Type :=
| Ok (a : A)
| Fail (e : failure).

Arguments Ok {A} a.
Arguments Fail {A} e.

Definition bind {A B : Type} (m : res A) (k : A -> res B) : res B :=
  match m with
  | Ok a => k a
  | Fail e => Fail e
  end.

Definition res_map {A B : Type} (f : A -> B) (m : res A) : res B :=
  bind m (fun a => Ok (f a)).

Declare Scope res_scope.
Delimit Scope res_scope with res.
Notation "x <- m ;; k" := (bind m (fun x => k))
  (at level 61, m at next level, right associativity) : res_scope.
Notation "' p <- m ;; k" := (bind m (fun x => match x with p => k end))
  (at level 61, p pattern, m at next level, right associativity) : res_scope.
Local Open Scope res_scope.

(** [for (j = lo; j < lo + n; ++j) st = body j st] *)
Fixpoint for_loop {St : Type} (body : Z -> St -> res St)
         (lo : Z) (n : nat) (st : St) : res St :=
  match n with
  | O => Ok st
  | S n' => st' <- body lo st ;; for_loop body (lo + 1) n' st'
  end.

(** ** Machine words *)

Definition u32 (x : Z) : Z := x mod 2 ^ 32.
Definition u64 (x : Z) : Z := x mod 2 ^ 64.

(** The value of a w-bit unsigned word after [x mod 2^w]. *)
Definition wrap (w : Z) (x : Z) : Z := x mod 2 ^ w.

Definition add32 (x y : Z) : Z := u32 (x + y).
Definition not32 (x : Z) : Z := Z.lxor x (Z.ones 32).

(** A byte of the input stream as the [uint8_t] the programs see. *)
Definition byte_val (b : byte) : Z := Z.of_N (Byte.to_N b).

(** [v[i]] on a vector or array of words. *)
Definition at_ (v : list Z) (i : Z) : Z := nth (Z.to_nat i) v 0.

(** ** Byte arrays

    The arrays of the programs are lists of their declared length; every
    index the programs use is inside the array. *)

(** [memset(buf, 0, n)] *)
Definition memset0 (buf : list Z) (n : nat) : list Z :=
  repeat 0 n ++ skipn n buf.

(** [memcpy(dst, src, n)] *)
Definition memcpy (dst src : list Z) (n : nat) : list Z :=
  firstn n src ++ skipn n dst.

(** [buf[i] = v] *)
Definition store (buf : list Z) (i : nat) (v : Z) : list Z :=
  firstn i buf ++ v :: skipn (S i) buf.

(** ** Stream formatting ([<iomanip>]) *)

Definition hex_digit (n : Z) : ascii :=
  nth (Z.to_nat n) (list_ascii_of_string "0123456789abcdef") "?"%char.

(** [os << hex << n]: the digits of [n], most significant first, without
    leading zeros.  Sixteen digits cover a 64-bit value. *)
Fixpoint hex_digits (fuel : nat) (n : Z) : list ascii :=
  match fuel with
  | O => []
  | S f =>
      if n <? 16 then [hex_digit n]
      else hex_digits f (n / 16) ++ [hex_digit (n mod 16)]
  end.

Definition put_hex (n : Z) : list ascii := hex_digits 16 n.

(** [setfill(c) << setw(w)]: right-adjust in a field of [w] characters. *)
Definition setw (w : nat) (fill : ascii) (s : list ascii) : list ascii :=
  repeat fill (w - length s) ++ s.

(** ** sha.h *)

Module ShaH.

(** [bitset<8> b(c)]: bit [i] of the character. *)
Definition char_bit (c : byte) (i : Z) : bool := Z.testbit (byte_val c) i.

Definition TextToBinaryString (words : list byte) : list bool * Z :=
  let bits :=
    flat_map (fun c => map (fun i => char_bit c i) [7; 6; 5; 4; 3; 2; 1; 0])
             words in
  (bits, u64 (Z.of_nat (length bits))).

Definition bit_at (bits : list bool) (i : Z) : bool :=
  nth (Z.to_nat i) bits false.

(** [template <typename T> T bitsToUsignedInt(bits, start)] at a [T] of
    [w] bits.  The loop bound is 32 for either instance. *)
Definition bitsToUsignedInt (w : Z) (bits : list bool) (start : Z) : Z :=
  fold_left
    (fun value i =>
       let value := wrap w (Z.shiftl value 1) in
       if bit_at bits (start + i) then Z.lor value 1 else Z.lor value 0)
    (map Z.of_nat (seq 0 32)) 0.

(** [template <typename T> T rotateRightByN(x, n, digestsBit)] at a [T]
    of [w] bits; both shift counts must lie in [0, w). *)
Definition rotateRightByN (w : Z) (x n digestsBit : Z) : res Z :=
  if (0 <=? n) && (n <? w) && (0 <=? digestsBit - n) && (digestsBit - n <? w)
  then Ok (Z.lor (Z.shiftr x n) (wrap w (Z.shiftl x (digestsBit - n))))
  else Fail UndefinedShift.

(** [bitsetToHex]: one digit per group of four bits, written from the
    last group to the first, then the string is reversed. *)
Definition nibble (bits : list bool) (i : Z) : Z :=
  fold_left
    (fun value j =>
       if bit_at bits (i + j) then Z.lor value (Z.shiftl 1 (3 - j)) else value)
    [0; 1; 2; 3] 0.

Definition bitsetToHex (bits : list bool) (digestsBit : Z) : list ascii :=
  let groups := map (fun g => digestsBit - 4 - 4 * Z.of_nat g)
                    (seq 0 (Z.to_nat (digestsBit / 4))) in
  rev (flat_map (fun i => put_hex (nibble bits i)) groups).

End ShaH.

(** ** Md5.cpp: whole-message MD5 *)

Module Md5.

Definition S : list Z :=
  [ 7; 12; 17; 22;  7; 12; 17; 22;  7; 12; 17; 22;  7; 12; 17; 22;
    5;  9; 14; 20;  5;  9; 14; 20;  5;  9; 14; 20;  5;  9; 14; 20;
    4; 11; 16; 23;  4; 11; 16; 23;  4; 11; 16; 23;  4; 11; 16; 23;
    6; 10; 15; 21;  6; 10; 15; 21;  6; 10; 15; 21;  6; 10; 15; 21 ].

Definition K : list Z :=
  [ 0xd76aa478; 0xe8c7b756; 0x242070db; 0xc1bdceee;
    0xf57c0faf; 0x4787c62a; 0xa8304613; 0xfd469501;
    0x698098d8; 0x8b44f7af; 0xffff5bb1; 0x895cd7be;
    0x6b901122; 0xfd987193; 0xa679438e; 0x49b40821;
    0xf61e2562; 0xc040b340; 0x265e5a51; 0xe9b6c7aa;
    0xd62f105d; 0x02441453; 0xd8a1e681; 0xe7d3fbc8;
    0x21e1cde6; 0xc33707d6; 0xf4d50d87; 0x455a14ed;
    0xa9e3e905; 0xfcefa3f8; 0x676f02d9; 0x8d2a4c8a;
    0xfffa3942; 0x8771f681; 0x6d9d6122; 0xfde5380c;
    0xa4beea44; 0x4bdecfa9; 0xf6bb4b60; 0xbebfbc70;
    0x289b7ec6; 0xeaa127fa; 0xd4ef3085; 0x04881d05;
    0xd9d4d039; 0xe6db99e5; 0x1fa27cf8; 0xc4ac5665;
    0xf4292244; 0x432aff97; 0xab9423a7; 0xfc93a039;
    0x655b59c3; 0x8f0ccc92; 0xffeff47d; 0x85845dd1;
    0x6fa87e4f; 0xfe2ce6e0; 0xa3014314; 0x4e0811a1;
    0xf7537e82; 0xbd3af235; 0x2ad7d2bb; 0xeb86d391 ].

(** [(x << c) | (x >> (32 - c))] on [uint32_t]: defined when both counts
    are below 32, that is for [0 < c < 32]. *)
Definition leftRotate (x c : Z) : res Z :=
  if (0 <=? c) && (c <? 32) && (0 <=? 32 - c) && (32 - c <? 32)
  then Ok (Z.lor (u32 (Z.shiftl x c)) (Z.shiftr x (32 - c)))
  else Fail UndefinedShift.

Definition F (x y z : Z) : Z := Z.lor (Z.land x y) (Z.land (not32 x) z).
Definition G (x y z : Z) : Z := Z.lor (Z.land x z) (Z.land y (not32 z)).
Definition H (x y z : Z) : Z := Z.lxor (Z.lxor x y) z.
Definition I (x y z : Z) : Z := Z.lxor y (Z.lor x (not32 z)).

Definition state : Type := (Z * Z * Z * Z)%type.

Definition init : state := (0x67452301, 0xefcdab89, 0x98badcfe, 0x10325476).

Definition originalLengthBits (message : list byte) : Z :=
  u64 (Z.of_nat (length message) * 8).

(** [while ((paddedMessage.size() * 8) % 512 != 448) push_back(0x00)] *)
Fixpoint pad_zeros (fuel : nat) (paddedMessage : list Z) : res (list Z) :=
  match fuel with
  | O => Fail OutOfFuel
  | Datatypes.S fuel' =>
      if u64 (Z.of_nat (length paddedMessage) * 8) mod 512 =? 448
      then Ok paddedMessage
      else pad_zeros fuel' (paddedMessage ++ [0x00])
  end.

(** The eight bytes pushed by the loop [for (i = 0; i < 8; ++i)]. *)
Definition length_field (bits : Z) : list Z :=
  map (fun i => Z.land (Z.shiftr bits (i * 8)) 0xFF) [0; 1; 2; 3; 4; 5; 6; 7].

Definition padding (message : list byte) : res (list Z) :=
  let paddedMessage := map byte_val message ++ [0x80] in
  paddedMessage <- pad_zeros 64 paddedMessage ;;
  Ok (paddedMessage ++ length_field (originalLengthBits message)).

(** [M[16]] of the chunk that starts at byte [i]. *)
Definition decode (paddedMessage : list Z) (i : Z) : list Z :=
  map (fun j =>
         u32 (Z.lor (Z.lor (Z.lor (at_ paddedMessage (i + j * 4))
                                  (Z.shiftl (at_ paddedMessage (i + j * 4 + 1)) 8))
                           (Z.shiftl (at_ paddedMessage (i + j * 4 + 2)) 16))
                    (Z.shiftl (at_ paddedMessage (i + j * 4 + 3)) 24)))
      (map Z.of_nat (seq 0 16)).

(** One turn of the loop [for (int j = 0; j < 64; ++j)]. *)
Definition round (M : list Z) (j : Z) (st : state) : res state :=
  let '(A, B, C, D) := st in
  let '(f, g) :=
    if j <? 16 then (F B C D, j)
    else if j <? 32 then (G B C D, (5 * j + 1) mod 16)
    else if j <? 48 then (H B C D, (3 * j + 5) mod 16)
    else (I B C D, (7 * j) mod 16) in
  r <- leftRotate (u32 (A + f + at_ K j + at_ M g)) (at_ S j) ;;
  Ok (D, add32 B r, B, C).

(** The body of the loop over chunks, at byte offset [i]. *)
Definition chunk (paddedMessage : list Z) (i : Z) (st : state) : res state :=
  let M := decode paddedMessage i in
  let '(a0, b0, c0, d0) := st in
  '(A, B, C, D) <- for_loop (round M) 0 64 (a0, b0, c0, d0) ;;
  Ok (add32 a0 A, add32 b0 B, add32 c0 C, add32 d0 D).

(** [for (size_t i = 0; i < paddedMessage.size(); i += 64)] *)
Fixpoint chunks (fuel : nat) (paddedMessage : list Z) (i : Z) (st : state)
  : res state :=
  if i <? Z.of_nat (length paddedMessage) then
    match fuel with
    | O => Fail OutOfFuel
    | Datatypes.S fuel' =>
        st' <- chunk paddedMessage i st ;;
        chunks fuel' paddedMessage (i + 64) st'
    end
  else Ok st.

(** The bytes of a state word in memory order. *)
Definition word_bytes (w : Z) : list Z :=
  map (fun j => Z.land (Z.shiftr w (8 * j)) 0xFF) [0; 1; 2; 3].

Definition print_byte (b : Z) : list ascii := setw 2 "0"%char (put_hex b).

Definition output (st : state) : list ascii :=
  let '(a0, b0, c0, d0) := st in
  flat_map (fun w => flat_map print_byte (word_bytes w)) [a0; b0; c0; d0].

Definition md5_state (message : list byte) : res state :=
  paddedMessage <- padding message ;;
  chunks (length paddedMessage) paddedMessage 0 init.

Definition md5 (message : list byte) : res string :=
  st <- md5_state message ;;
  Ok (string_of_list_ascii (output st)).

End Md5.


(** ** src/Md5.cpp: MD5 over stdin, read in 64-byte chunks *)

Module Md5Stream.

(** The file declares the same tables [S] and [K], the same [leftRotate]
    and the same functions [F], [G], [H], [I] as [Md5.cpp]. *)
Definition S : list Z := Md5.S.
Definition K : list Z := Md5.K.
Definition leftRotate : Z -> Z -> res Z := Md5.leftRotate.
Definition F : Z -> Z -> Z -> Z := Md5.F.
Definition G : Z -> Z -> Z -> Z := Md5.G.
Definition H : Z -> Z -> Z -> Z := Md5.H.
Definition I : Z -> Z -> Z -> Z := Md5.I.

Definition state : Type := (Z * Z * Z * Z)%type.

Definition init : state := (0x67452301, 0xefcdab89, 0x98badcfe, 0x10325476).

(** [M[16]]: the first 64 bytes of [block], little-endian words. *)
Definition decode (block : list Z) : list Z :=
  map (fun j =>
         u32 (Z.lor (Z.lor (Z.lor (at_ block (j * 4))
                                  (Z.shiftl (at_ block (j * 4 + 1)) 8))
                           (Z.shiftl (at_ block (j * 4 + 2)) 16))
                    (Z.shiftl (at_ block (j * 4 + 3)) 24)))
      (map Z.of_nat (seq 0 16)).

(** The macros [STEP1] .. [STEP4]; each yields the new value of its
    first register.  The macro parameter [f] is not used by the bodies. *)
Definition STEP1 (M : list Z) (a b c d k s : Z) : res Z :=
  let a := u32 (a + u32 (F b c d + at_ M k + at_ K k)) in
  r <- leftRotate a s ;; Ok (add32 b r).

Definition STEP2 (M : list Z) (a b c d k s i : Z) : res Z :=
  let a := u32 (a + u32 (G b c d + at_ M k + at_ K i)) in
  r <- leftRotate a s ;; Ok (add32 b r).

Definition STEP3 (M : list Z) (a b c d k s i : Z) : res Z :=
  let a := u32 (a + u32 (H b c d + at_ M k + at_ K i)) in
  r <- leftRotate a s ;; Ok (add32 b r).

Definition STEP4 (M : list Z) (a b c d k s i : Z) : res Z :=
  let a := u32 (a + u32 (I b c d + at_ M k + at_ K i)) in
  r <- leftRotate a s ;; Ok (add32 b r).

Definition transform (block : list Z) (st : state) : res state :=
  let '(a0, b0, c0, d0) := st in
  let M := decode block in
  let A := a0 in let B := b0 in let C := c0 in let D := d0 in
  A <- STEP1 M A B C D 0 7 ;; D <- STEP1 M D A B C 1 12 ;; C <- STEP1 M C D A B 2 17 ;; B <- STEP1 M B C D A 3 22 ;;
  A <- STEP1 M A B C D 4 7 ;; D <- STEP1 M D A B C 5 12 ;; C <- STEP1 M C D A B 6 17 ;; B <- STEP1 M B C D A 7 22 ;;
  A <- STEP1 M A B C D 8 7 ;; D <- STEP1 M D A B C 9 12 ;; C <- STEP1 M C D A B 10 17 ;; B <- STEP1 M B C D A 11 22 ;;
  A <- STEP1 M A B C D 12 7 ;; D <- STEP1 M D A B C 13 12 ;; C <- STEP1 M C D A B 14 17 ;; B <- STEP1 M B C D A 15 22 ;;
  A <- STEP2 M A B C D 1 5 16 ;; D <- STEP2 M D A B C 6 9 17 ;; C <- STEP2 M C D A B 11 14 18 ;; B <- STEP2 M B C D A 0 20 19 ;;
  A <- STEP2 M A B C D 5 5 20 ;; D <- STEP2 M D A B C 10 9 21 ;; C <- STEP2 M C D A B 15 14 22 ;; B <- STEP2 M B C D A 4 20 23 ;;
  A <- STEP2 M A B C D 9 5 24 ;; D <- STEP2 M D A B C 14 9 25 ;; C <- STEP2 M C D A B 3 14 26 ;; B <- STEP2 M B C D A 8 20 27 ;;
  A <- STEP2 M A B C D 13 5 28 ;; D <- STEP2 M D A B C 2 9 29 ;; C <- STEP2 M C D A B 7 14 30 ;; B <- STEP2 M B C D A 12 20 31 ;;
  A <- STEP3 M A B C D 5 4 32 ;; D <- STEP3 M D A B C 8 11 33 ;; C <- STEP3 M C D A B 11 16 34 ;; B <- STEP3 M B C D A 14 23 35 ;;
  A <- STEP3 M A B C D 1 4 36 ;; D <- STEP3 M D A B C 4 11 37 ;; C <- STEP3 M C D A B 7 16 38 ;; B <- STEP3 M B C D A 10 23 39 ;;
  A <- STEP3 M A B C D 13 4 40 ;; D <- STEP3 M D A B C 0 11 41 ;; C <- STEP3 M C D A B 3 16 42 ;; B <- STEP3 M B C D A 6 23 43 ;;
  A <- STEP3 M A B C D 9 4 44 ;; D <- STEP3 M D A B C 12 11 45 ;; C <- STEP3 M C D A B 15 16 46 ;; B <- STEP3 M B C D A 2 23 47 ;;
  A <- STEP4 M A B C D 0 6 48 ;; D <- STEP4 M D A B C 7 10 49 ;; C <- STEP4 M C D A B 14 15 50 ;; B <- STEP4 M B C D A 5 21 51 ;;
  A <- STEP4 M A B C D 12 6 52 ;; D <- STEP4 M D A B C 3 10 53 ;; C <- STEP4 M C D A B 10 15 54 ;; B <- STEP4 M B C D A 1 21 55 ;;
  A <- STEP4 M A B C D 8 6 56 ;; D <- STEP4 M D A B C 15 10 57 ;; C <- STEP4 M C D A B 6 15 58 ;; B <- STEP4 M B C D A 13 21 59 ;;
  A <- STEP4 M A B C D 4 6 60 ;; D <- STEP4 M D A B C 11 10 61 ;; C <- STEP4 M C D A B 2 15 62 ;; B <- STEP4 M B C D A 9 21 63 ;;
  Ok (add32 a0 A, add32 b0 B, add32 c0 C, add32 d0 D).

(** [while (cin.read(buffer, 64))]: a read succeeds while 64 bytes
    are left.  The read that fails has put the bytes it still got at the
    front of [buffer]; [cin.gcount()] is their number. *)
Fixpoint read_loop (fuel : nat) (input : list byte) (buffer : list Z)
         (st : state) (totalBytes : Z) : res (state * Z * list Z * nat) :=
  if (64 <=? length input)%nat then
    match fuel with
    | O => Fail OutOfFuel
    | Datatypes.S fuel' =>
        let buffer := map byte_val (firstn 64 input) in
        let totalBytes := u64 (totalBytes + 64) in
        st <- transform buffer st ;;
        read_loop fuel' (skipn 64 input) buffer st totalBytes
    end
  else
    let bytesRead := length input in
    Ok (st, totalBytes, memcpy buffer (map byte_val input) bytesRead, bytesRead).

(** [for (i = 0; i < 8; ++i) block[56 + i] = (totalBits >> (i * 8)) & 0xFF] *)
Definition store_length (block : list Z) (totalBits : Z) : list Z :=
  fold_left
    (fun blk i => store blk (56 + i) (Z.land (Z.shiftr totalBits (Z.of_nat i * 8)) 0xFF))
    (seq 0 8) block.

(** The calls of [transform] that follow the read loop, in program order,
    each with the 128-byte array it is given.  ([paddingLen] and
    [lengthOffset] are assigned in the source and never read.) *)
Definition final_calls (buffer : list Z) (bytesRead : nat) (totalBytes : Z)
  : list (list Z) :=
  let padding := memset0 (repeat 0 128) 128 in
  let padding := memcpy padding buffer bytesRead in
  let padding := store padding bytesRead 0x80 in
  let totalBits := u64 (totalBytes * 8) in
  (* if (bytesRead >= 56) transform(padding, ...) *)
  let crossed := if (56 <=? bytesRead)%nat then [padding] else [] in
  let finalBlock := memset0 (repeat 0 128) 128 in
  let finalBlock := memcpy finalBlock buffer bytesRead in
  let finalBlock := store finalBlock bytesRead 0x80 in
  crossed ++
  (if (bytesRead <? 56)%nat then
     [store_length finalBlock totalBits]
   else
     let first := finalBlock in
     let finalBlock := memset0 finalBlock 64 in
     [first; store_length finalBlock totalBits]).

Fixpoint run (calls : list (list Z)) (st : state) : res state :=
  match calls with
  | [] => Ok st
  | block :: calls' => st' <- transform block st ;; run calls' st'
  end.

(** The output loop is the one of [Md5.cpp]. *)
Definition output : state -> list ascii := Md5.output.

(** The state after the read loop and the calls that follow it.  The
    source leaves [buffer] uninitialised; only the bytes a read has put
    there are ever used. *)
Definition after_reads (input : list byte) : res (state * list (list Z)) :=
  '(st, totalBytes, buffer, bytesRead) <-
     read_loop (length input) input (repeat 0 64) init 0 ;;
  let totalBytes := u64 (totalBytes + Z.of_nat bytesRead) in
  Ok (st, final_calls buffer bytesRead totalBytes).

Definition main_state (input : list byte) : res state :=
  '(st, calls) <- after_reads input ;;
  run calls st.

Definition main (input : list byte) : res string :=
  st <- main_state input ;;
  Ok (string_of_list_ascii (output st)).

End Md5Stream.

(** ** Sha1.cpp: whole-message SHA-1 *)

Module Sha1.

Definition leftRotate (x c : Z) : res Z :=
  if (0 <=? c) && (c <? 32) && (0 <=? 32 - c) && (32 - c <? 32)
  then Ok (Z.lor (u32 (Z.shiftl x c)) (Z.shiftr x (32 - c)))
  else Fail UndefinedShift.

Definition state : Type := (Z * Z * Z * Z * Z)%type.

Definition init : state :=
  (0x67452301, 0xEFCDAB89, 0x98BADCFE, 0x10325476, 0xC3D2E1F0).

Definition originalLengthBits (message : list byte) : Z :=
  u64 (Z.of_nat (length message) * 8).

(** [while ((paddedMessage.size() * 8) % 512 != 448) push_back(0x00)] *)
Fixpoint pad_zeros (fuel : nat) (paddedMessage : list Z) : res (list Z) :=
  match fuel with
  | O => Fail OutOfFuel
  | S fuel' =>
      if u64 (Z.of_nat (length paddedMessage) * 8) mod 512 =? 448
      then Ok paddedMessage
      else pad_zeros fuel' (paddedMessage ++ [0x00])
  end.

(** The eight bytes pushed by the loop [for (i = 7; i >= 0; --i)]. *)
Definition length_field (bits : Z) : list Z :=
  map (fun i => Z.land (Z.shiftr bits (i * 8)) 0xFF) [7; 6; 5; 4; 3; 2; 1; 0].

Definition padding (message : list byte) : res (list Z) :=
  let paddedMessage := map byte_val message ++ [0x80] in
  paddedMessage <- pad_zeros 64 paddedMessage ;;
  Ok (paddedMessage ++ length_field (originalLengthBits message)).

(** [w[0..15]] of the chunk that starts at byte [i]. *)
Definition decode (paddedMessage : list Z) (i : Z) : list Z :=
  map (fun j =>
         u32 (Z.lor (Z.lor (Z.lor (Z.shiftl (at_ paddedMessage (i + j * 4)) 24)
                                  (Z.shiftl (at_ paddedMessage (i + j * 4 + 1)) 16))
                           (Z.shiftl (at_ paddedMessage (i + j * 4 + 2)) 8))
                    (at_ paddedMessage (i + j * 4 + 3))))
      (map Z.of_nat (seq 0 16)).

(** [w[j] = leftRotate(w[j-3] ^ w[j-8] ^ w[j-14] ^ w[j-16], 1)]; the array
    is the list of the words written so far. *)
Definition extend (j : Z) (w : list Z) : res (list Z) :=
  x <- leftRotate
         (Z.lxor (Z.lxor (Z.lxor (at_ w (j - 3)) (at_ w (j - 8))) (at_ w (j - 14)))
                 (at_ w (j - 16))) 1 ;;
  Ok (w ++ [x]).

Definition schedule (w16 : list Z) : res (list Z) := for_loop extend 16 64 w16.

(** One turn of the loop [for (int j = 0; j < 80; ++j)]. *)
Definition round (w : list Z) (j : Z) (st : state) : res state :=
  let '(a, b, c, d, e) := st in
  let '(f, k) :=
    if j <? 20 then (Z.lor (Z.land b c) (Z.land (not32 b) d), 0x5A827999)
    else if j <? 40 then (Z.lxor (Z.lxor b c) d, 0x6ED9EBA1)
    else if j <? 60 then
      (Z.lor (Z.lor (Z.land b c) (Z.land b d)) (Z.land c d), 0x8F1BBCDC)
    else (Z.lxor (Z.lxor b c) d, 0xCA62C1D6) in
  r5 <- leftRotate a 5 ;;
  let temp := u32 (r5 + f + e + k + at_ w j) in
  r30 <- leftRotate b 30 ;;
  Ok (temp, a, r30, c, d).

Definition chunk (paddedMessage : list Z) (i : Z) (st : state) : res state :=
  w <- schedule (decode paddedMessage i) ;;
  let '(h0, h1, h2, h3, h4) := st in
  '(a, b, c, d, e) <- for_loop (round w) 0 80 (h0, h1, h2, h3, h4) ;;
  Ok (add32 h0 a, add32 h1 b, add32 h2 c, add32 h3 d, add32 h4 e).

(** [for (size_t i = 0; i < paddedMessage.size(); i += 64)] *)
Fixpoint chunks (fuel : nat) (paddedMessage : list Z) (i : Z) (st : state)
  : res state :=
  if i <? Z.of_nat (length paddedMessage) then
    match fuel with
    | O => Fail OutOfFuel
    | S fuel' =>
        st' <- chunk paddedMessage i st ;;
        chunks fuel' paddedMessage (i + 64) st'
    end
  else Ok st.

(** [cout << hex << setfill('0') << setw(8) << result[i]] *)
Definition print_word (w : Z) : list ascii := setw 8 "0"%char (put_hex w).

Definition output (st : state) : list ascii :=
  let '(h0, h1, h2, h3, h4) := st in
  flat_map print_word [h0; h1; h2; h3; h4].

Definition sha1_state (message : list byte) : res state :=
  paddedMessage <- padding message ;;
  chunks (length paddedMessage) paddedMessage 0 init.

Definition sha1 (message : list byte) : res string :=
  st <- sha1_state message ;;
  Ok (string_of_list_ascii (output st)).

End Sha1.

(** ** src/Sha1.cpp: SHA-1 over stdin, read in 64-byte chunks *)

Module Sha1Stream.

Definition leftRotate (x c : Z) : res Z :=
  if (0 <=? c) && (c <? 32) && (0 <=? 32 - c) && (32 - c <? 32)
  then Ok (Z.lor (u32 (Z.shiftl x c)) (Z.shiftr x (32 - c)))
  else Fail UndefinedShift.

Definition state : Type := (Z * Z * Z * Z * Z)%type.

Definition init : state :=
  (0x67452301, 0xEFCDAB89, 0x98BADCFE, 0x10325476, 0xC3D2E1F0).

(** [w[0..15]]: the first 64 bytes of [block], big-endian words. *)
Definition decode (block : list Z) : list Z :=
  map (fun j =>
         u32 (Z.lor (Z.lor (Z.lor (Z.shiftl (at_ block (j * 4)) 24)
                                  (Z.shiftl (at_ block (j * 4 + 1)) 16))
                           (Z.shiftl (at_ block (j * 4 + 2)) 8))
                    (at_ block (j * 4 + 3))))
      (map Z.of_nat (seq 0 16)).

Definition extend (j : Z) (w : list Z) : res (list Z) :=
  x <- leftRotate
         (Z.lxor (Z.lxor (Z.lxor (at_ w (j - 3)) (at_ w (j - 8))) (at_ w (j - 14)))
                 (at_ w (j - 16))) 1 ;;
  Ok (w ++ [x]).

(** The common tail of the four round loops. *)
Definition step (f k : Z) (w : list Z) (j : Z) (st : state) : res state :=
  let '(a, b, c, d, e) := st in
  r5 <- leftRotate a 5 ;;
  let temp := u32 (r5 + f + e + k + at_ w j) in
  r30 <- leftRotate b 30 ;;
  Ok (temp, a, r30, c, d).

Definition round1 (w : list Z) (j : Z) (st : state) : res state :=
  let '(a, b, c, d, e) := st in
  step (Z.lor (Z.land b c) (Z.land (not32 b) d)) 0x5A827999 w j st.

Definition round2 (w : list Z) (j : Z) (st : state) : res state :=
  let '(a, b, c, d, e) := st in
  step (Z.lxor (Z.lxor b c) d) 0x6ED9EBA1 w j st.

Definition round3 (w : list Z) (j : Z) (st : state) : res state :=
  let '(a, b, c, d, e) := st in
  step (Z.lor (Z.lor (Z.land b c) (Z.land b d)) (Z.land c d)) 0x8F1BBCDC w j st.

Definition round4 (w : list Z) (j : Z) (st : state) : res state :=
  let '(a, b, c, d, e) := st in
  step (Z.lxor (Z.lxor b c) d) 0xCA62C1D6 w j st.

Definition transform (block : list Z) (st : state) : res state :=
  w <- for_loop extend 16 64 (decode block) ;;
  let '(h0, h1, h2, h3, h4) := st in
  st1 <- for_loop (round1 w) 0 20 (h0, h1, h2, h3, h4) ;;
  st2 <- for_loop (round2 w) 20 20 st1 ;;
  st3 <- for_loop (round3 w) 40 20 st2 ;;
  '(a, b, c, d, e) <- for_loop (round4 w) 60 20 st3 ;;
  Ok (add32 h0 a, add32 h1 b, add32 h2 c, add32 h3 d, add32 h4 e).

(** [while (cin.read(buffer, 64))], as in [src/Md5.cpp]. *)
Fixpoint read_loop (fuel : nat) (input : list byte) (buffer : list Z)
         (st : state) (totalBytes : Z) : res (state * Z * list Z * nat) :=
  if (64 <=? length input)%nat then
    match fuel with
    | O => Fail OutOfFuel
    | S fuel' =>
        let buffer := map byte_val (firstn 64 input) in
        let totalBytes := u64 (totalBytes + 64) in
        st <- transform buffer st ;;
        read_loop fuel' (skipn 64 input) buffer st totalBytes
    end
  else
    let bytesRead := length input in
    Ok (st, totalBytes, memcpy buffer (map byte_val input) bytesRead, bytesRead).

(** [for (i = 7; i >= 0; --i)
       block[56 + (7 - i)] = (totalBits >> (i * 8)) & 0xFF] *)
Definition store_length (block : list Z) (totalBits : Z) : list Z :=
  fold_left
    (fun blk i =>
       store blk (56 + (7 - i)) (Z.land (Z.shiftr totalBits (Z.of_nat i * 8)) 0xFF))
    (rev (seq 0 8)) block.

(** The calls of [transform] that follow the read loop, in program order. *)
Definition final_calls (buffer : list Z) (bytesRead : nat) (totalBytes : Z)
  : list (list Z) :=
  let finalBlock := memset0 (repeat 0 128) 128 in
  let finalBlock := memcpy finalBlock buffer bytesRead in
  let finalBlock := store finalBlock bytesRead 0x80 in
  let totalBits := u64 (totalBytes * 8) in
  if (bytesRead <? 56)%nat then
    [store_length finalBlock totalBits]
  else
    let first := finalBlock in
    let finalBlock := memset0 finalBlock 64 in
    [first; store_length finalBlock totalBits].

Fixpoint run (calls : list (list Z)) (st : state) : res state :=
  match calls with
  | [] => Ok st
  | block :: calls' => st' <- transform block st ;; run calls' st'
  end.

Definition print_word (w : Z) : list ascii := setw 8 "0"%char (put_hex w).

Definition output (st : state) : list ascii :=
  let '(h0, h1, h2, h3, h4) := st in
  flat_map print_word [h0; h1; h2; h3; h4].

(** The state after the read loop and the calls that follow it.  The
    source leaves [buffer] uninitialised; only the bytes a read has put
    there are ever used. *)
Definition after_reads (input : list byte) : res (state * list (list Z)) :=
  '(st, totalBytes, buffer, bytesRead) <-
     read_loop (length input) input (repeat 0 64) init 0 ;;
  let totalBytes := u64 (totalBytes + Z.of_nat bytesRead) in
  Ok (st, final_calls buffer bytesRead totalBytes).

Definition main_state (input : list byte) : res state :=
  '(st, calls) <- after_reads input ;;
  run calls st.

Definition main (input : list byte) : res string :=
  st <- main_state input ;;
  Ok (string_of_list_ascii (output st)).

End Sha1Stream.

(** ** Sha256.cpp *)

Module Sha256.

Definition not32 (x : Z) : Z := Z.lxor x (Z.ones 32).

(** [while ((length + 1 + K + 64) % 512 != 0) { K++; push_back(false); }] *)
Fixpoint pad_loop (fuel : nat) (length K : Z) (binMessage : list bool)
  : res (list bool) :=
  match fuel with
  | O => Fail OutOfFuel
  | S fuel' =>
      if u64 (length + 1 + K + 64) mod 512 =? 0
      then Ok binMessage
      else pad_loop fuel' length (K + 1) (binMessage ++ [false])
  end.

(** [(length >> i) & 1] as pushed into a [vector<bool>]. *)
Definition length_bit (length i : Z) : bool :=
  negb (Z.land (Z.shiftr length i) 1 =? 0).

(** [for (int i = 63; i >= 0; --i) push_back((length >> i) & 1)] *)
Definition length_bits (length : Z) : list bool :=
  map (fun i => length_bit length (Z.of_nat i)) (rev (seq 0 64)).

Definition preProcessing (length : Z) (binMessage : list bool)
  : res (list bool) :=
  let binMessage := binMessage ++ [true] in
  binMessage <- pad_loop 512 length 0 binMessage ;;
  Ok (binMessage ++ length_bits length).

Definition state : Type := (Z * Z * Z * Z * Z * Z * Z * Z)%type.

(** [w[0..15]] of the chunk that starts at bit [pointer]. *)
Definition load (binMessage : list bool) (pointer : Z) : list Z :=
  map (fun i => ShaH.bitsToUsignedInt 32 binMessage (pointer + i * 32))
      (map Z.of_nat (seq 0 16)).

(** One turn of [for (int i = 16; i < 64; ++i)]; the array is the list
    of the words written so far. *)
Definition extend (i : Z) (w : list Z) : res (list Z) :=
  ra <- ShaH.rotateRightByN 32 (at_ w (i - 15)) 7 32 ;;
  rb <- ShaH.rotateRightByN 32 (at_ w (i - 15)) 18 32 ;;
  let s0 := Z.lxor (Z.lxor ra rb) (Z.shiftr (at_ w (i - 15)) 3) in
  rc <- ShaH.rotateRightByN 32 (at_ w (i - 2)) 17 32 ;;
  rd <- ShaH.rotateRightByN 32 (at_ w (i - 2)) 19 32 ;;
  let s1 := Z.lxor (Z.lxor rc rd) (Z.shiftr (at_ w (i - 2)) 10) in
  Ok (w ++ [wrap 32 (at_ w (i - 16) + s0 + at_ w (i - 7) + s1)]).

(** One turn of [for (int i = 0; i < 64; ++i)]. *)
Definition round (K w : list Z) (i : Z) (st : state) : res state :=
  let '(a, b, c, d, e, f, g, h) := st in
  e1 <- ShaH.rotateRightByN 32 e 6 32 ;;
  e2 <- ShaH.rotateRightByN 32 e 11 32 ;;
  e3 <- ShaH.rotateRightByN 32 e 25 32 ;;
  let S1 := Z.lxor (Z.lxor e1 e2) e3 in
  let ch := Z.lxor (Z.land e f) (Z.land (not32 e) g) in
  let temp1 := wrap 32 (h + S1 + ch + at_ K i + at_ w i) in
  a1 <- ShaH.rotateRightByN 32 a 2 32 ;;
  a2 <- ShaH.rotateRightByN 32 a 13 32 ;;
  a3 <- ShaH.rotateRightByN 32 a 22 32 ;;
  let S0 := Z.lxor (Z.lxor a1 a2) a3 in
  let maj := Z.lxor (Z.lxor (Z.land a b) (Z.land a c)) (Z.land b c) in
  let temp2 := wrap 32 (S0 + maj) in
  Ok (wrap 32 (temp1 + temp2), a, b, c, wrap 32 (d + temp1), e, f, g).

(** The body of [for (chunkIter = 0; chunkIter < numberOfChunks; ++chunkIter)]. *)
Definition chunk (binMessage : list bool) (K : list Z) (chunkIter : Z)
           (sqrtTemp : state) : res state :=
  let pointer := chunkIter * 512 in
  w <- for_loop extend 16 48 (load binMessage pointer) ;;
  let '(t0, t1, t2, t3, t4, t5, t6, t7) := sqrtTemp in
  '(a, b, c, d, e, f, g, h) <-
     for_loop (round K w) 0 64 (t0, t1, t2, t3, t4, t5, t6, t7) ;;
  Ok (wrap 32 (t0 + a), wrap 32 (t1 + b), wrap 32 (t2 + c), wrap 32 (t3 + d),
      wrap 32 (t4 + e), wrap 32 (t5 + f), wrap 32 (t6 + g), wrap 32 (t7 + h)).

(** [(sqrtTemp[i] >> j) & 1] for [j = 31 .. 0]. *)
Definition word_bits (x : Z) : list bool :=
  map (fun j => negb (Z.land (Z.shiftr x (Z.of_nat j)) 1 =? 0)) (rev (seq 0 32)).

Definition digest_bits (sqrtTemp : state) : list bool :=
  let '(t0, t1, t2, t3, t4, t5, t6, t7) := sqrtTemp in
  flat_map word_bits [t0; t1; t2; t3; t4; t5; t6; t7].

(** The loop over chunks, from the initial [sqrtTemp]. *)
Definition chunks (binMessage : list bool) (K : list Z) (sqrtTemp : state)
  : res state :=
  let length := u64 (Z.of_nat (length binMessage)) in
  let numberOfChunks := length / 512 in
  for_loop (chunk binMessage K) 0 (Z.to_nat numberOfChunks) sqrtTemp.

(** What [processing] writes to [cerr]. *)
Definition length_check (binMessage : list bool) : list string :=
  if u64 (Z.of_nat (length binMessage)) mod 512 =? 0 then []
  else ["Error: Padded message length is not a multiple of 512 bits."%string].

(** [for (i = 0; i < 8; ++i) sqrtTemp[i] = H[i]] *)
Definition initial (H : list Z) : state :=
  (at_ H 0, at_ H 1, at_ H 2, at_ H 3, at_ H 4, at_ H 5, at_ H 6, at_ H 7).

(** [processing] returns the digest bits; the first component is its
    output on [cerr]. *)
Definition processing (binMessage : list bool) (H K : list Z)
  : res (list string * list bool) :=
  let sqrtTemp := initial H in
  sqrtTemp <- chunks binMessage K sqrtTemp ;;
  Ok (length_check binMessage, digest_bits sqrtTemp).

Definition H0 : list Z :=
  [ 0x6a09e667; 0xbb67ae85; 0x3c6ef372; 0xa54ff53a;
    0x510e527f; 0x9b05688c; 0x1f83d9ab; 0x5be0cd19 ].

(** The table [K] of [sha256], row by row. *)
Definition K0 : list Z :=
  [0x428a2f98; 0x71374491; 0xb5c0fbcf; 0xe9b5dba5; 0x3956c25b; 0x59f111f1; 0x923f82a4; 0xab1c5ed5] ++
  [0xd807aa98; 0x12835b01; 0x243185be; 0x550c7dc3; 0x72be5d74; 0x80deb1fe; 0x9bdc06a7; 0xc19bf174] ++
  [0xe49b69c1; 0xefbe4786; 0x0fc19dc6; 0x240ca1cc; 0x2de92c6f; 0x4a7484aa; 0x5cb0a9dc; 0x76f988da] ++
  [0x983e5152; 0xa831c66d; 0xb00327c8; 0xbf597fc7; 0xc6e00bf3; 0xd5a79147; 0x06ca6351; 0x14292967] ++
  [0x27b70a85; 0x2e1b2138; 0x4d2c6dfc; 0x53380d13; 0x650a7354; 0x766a0abb; 0x81c2c92e; 0x92722c85] ++
  [0xa2bfe8a1; 0xa81a664b; 0xc24b8b70; 0xc76c51a3; 0xd192e819; 0xd6990624; 0xf40e3585; 0x106aa070] ++
  [0x19a4c116; 0x1e376c08; 0x2748774c; 0x34b0bcb5; 0x391c0cb3; 0x4ed8aa4a; 0x5b9cca4f; 0x682e6ff3] ++
  [0x748f82ee; 0x78a5636f; 0x84c87814; 0x8cc70208; 0x90befffa; 0xa4506ceb; 0xbef9a3f7; 0xc67178f2].

(** [sha256]: what the function writes to [cerr] and to [cout]. *)
Definition sha256_io (strMessage : list byte) : res (list string * string) :=
  let '(binMessage, messageBitLength) := ShaH.TextToBinaryString strMessage in
  binMessage <- preProcessing messageBitLength binMessage ;;
  '(err, hash) <- processing binMessage H0 K0 ;;
  let digest := firstn 256 hash in
  Ok (err, string_of_list_ascii (ShaH.bitsetToHex digest 256)).

(** The [sqrtTemp] that [processing] ends with inside [sha256]. *)
Definition sha256_state (strMessage : list byte) : res state :=
  let '(binMessage, messageBitLength) := ShaH.TextToBinaryString strMessage in
  binMessage <- preProcessing messageBitLength binMessage ;;
  chunks binMessage K0 (initial H0).

Definition sha256 (strMessage : list byte) : res string :=
  res_map snd (sha256_io strMessage).

End Sha256.

(** ** src/Sha384.cpp *)

Module Sha384.

Definition not64 (x : Z) : Z := Z.lxor x (Z.ones 64).

(** [while ((length + 1 + K + 128) % 1024 != 0) { K++; push_back(false); }] *)
Fixpoint pad_loop (fuel : nat) (length K : Z) (binMessage : list bool)
  : res (list bool) :=
  match fuel with
  | O => Fail OutOfFuel
  | S fuel' =>
      if u64 (length + 1 + K + 128) mod 1024 =? 0
      then Ok binMessage
      else pad_loop fuel' length (K + 1) (binMessage ++ [false])
  end.

(** [(length >> i) & 1] as pushed into a [vector<bool>]. *)
Definition length_bit (length i : Z) : bool :=
  negb (Z.land (Z.shiftr length i) 1 =? 0).

(** [for (int i = 127; i >= 0; --i)
       push_back(i < 64 ? (length >> i) & 1 : 0)] *)
Definition length_bits (length : Z) : list bool :=
  map (fun i => if (i <? 64)%nat then length_bit length (Z.of_nat i) else false)
      (rev (seq 0 128)).

Definition preProcessing (length : Z) (binMessage : list bool)
  : res (list bool) :=
  let binMessage := binMessage ++ [true] in
  binMessage <- pad_loop 1024 length 0 binMessage ;;
  Ok (binMessage ++ length_bits length).

Definition state : Type := (Z * Z * Z * Z * Z * Z * Z * Z)%type.

(** [w[0..15]] of the chunk that starts at bit [pointer]. *)
Definition load (binMessage : list bool) (pointer : Z) : list Z :=
  map (fun i => ShaH.bitsToUsignedInt 64 binMessage (pointer + i * 64))
      (map Z.of_nat (seq 0 16)).

(** One turn of [for (int i = 16; i < 80; ++i)]; the array is the list
    of the words written so far. *)
Definition extend (i : Z) (w : list Z) : res (list Z) :=
  ra <- ShaH.rotateRightByN 64 (at_ w (i - 15)) 1 64 ;;
  rb <- ShaH.rotateRightByN 64 (at_ w (i - 15)) 8 64 ;;
  let s0 := Z.lxor (Z.lxor ra rb) (Z.shiftr (at_ w (i - 15)) 7) in
  rc <- ShaH.rotateRightByN 64 (at_ w (i - 2)) 19 64 ;;
  rd <- ShaH.rotateRightByN 64 (at_ w (i - 2)) 61 64 ;;
  let s1 := Z.lxor (Z.lxor rc rd) (Z.shiftr (at_ w (i - 2)) 6) in
  Ok (w ++ [wrap 64 (at_ w (i - 16) + s0 + at_ w (i - 7) + s1)]).

(** One turn of [for (int i = 0; i < 80; ++i)]. *)
Definition round (K w : list Z) (i : Z) (st : state) : res state :=
  let '(a, b, c, d, e, f, g, h) := st in
  e1 <- ShaH.rotateRightByN 64 e 14 64 ;;
  e2 <- ShaH.rotateRightByN 64 e 18 64 ;;
  e3 <- ShaH.rotateRightByN 64 e 41 64 ;;
  let S1 := Z.lxor (Z.lxor e1 e2) e3 in
  let ch := Z.lxor (Z.land e f) (Z.land (not64 e) g) in
  let temp1 := wrap 64 (h + S1 + ch + at_ K i + at_ w i) in
  a1 <- ShaH.rotateRightByN 64 a 28 64 ;;
  a2 <- ShaH.rotateRightByN 64 a 34 64 ;;
  a3 <- ShaH.rotateRightByN 64 a 39 64 ;;
  let S0 := Z.lxor (Z.lxor a1 a2) a3 in
  let maj := Z.lxor (Z.lxor (Z.land a b) (Z.land a c)) (Z.land b c) in
  let temp2 := wrap 64 (S0 + maj) in
  Ok (wrap 64 (temp1 + temp2), a, b, c, wrap 64 (d + temp1), e, f, g).

(** The body of [for (chunkIter = 0; chunkIter < numberOfChunks; ++chunkIter)]. *)
Definition chunk (binMessage : list bool) (K : list Z) (chunkIter : Z)
           (sqrtTemp : state) : res state :=
  let pointer := chunkIter * 1024 in
  w <- for_loop extend 16 64 (load binMessage pointer) ;;
  let '(t0, t1, t2, t3, t4, t5, t6, t7) := sqrtTemp in
  '(a, b, c, d, e, f, g, h) <-
     for_loop (round K w) 0 80 (t0, t1, t2, t3, t4, t5, t6, t7) ;;
  Ok (wrap 64 (t0 + a), wrap 64 (t1 + b), wrap 64 (t2 + c), wrap 64 (t3 + d),
      wrap 64 (t4 + e), wrap 64 (t5 + f), wrap 64 (t6 + g), wrap 64 (t7 + h)).

(** [(sqrtTemp[i] >> j) & 1] for [j = 63 .. 0]. *)
Definition word_bits (x : Z) : list bool :=
  map (fun j => negb (Z.land (Z.shiftr x (Z.of_nat j)) 1 =? 0)) (rev (seq 0 64)).

(** Only the first six words are written out. *)
Definition digest_bits (sqrtTemp : state) : list bool :=
  let '(t0, t1, t2, t3, t4, t5, t6, t7) := sqrtTemp in
  flat_map word_bits [t0; t1; t2; t3; t4; t5].

(** The loop over chunks, from the initial [sqrtTemp]. *)
Definition chunks (binMessage : list bool) (K : list Z) (sqrtTemp : state)
  : res state :=
  let length := u64 (Z.of_nat (length binMessage)) in
  let numberOfChunks := length / 1024 in
  for_loop (chunk binMessage K) 0 (Z.to_nat numberOfChunks) sqrtTemp.

(** What [processing] writes to [cerr]. *)
Definition length_check (binMessage : list bool) : list string :=
  if u64 (Z.of_nat (length binMessage)) mod 1024 =? 0 then []
  else ["Error: Padded message length is not a multiple of 1024 bits."%string].

(** [for (i = 0; i < 8; ++i) sqrtTemp[i] = H[i]] *)
Definition initial (H : list Z) : state :=
  (at_ H 0, at_ H 1, at_ H 2, at_ H 3, at_ H 4, at_ H 5, at_ H 6, at_ H 7).

(** [processing] returns the digest bits; the first component is its
    output on [cerr]. *)
Definition processing (binMessage : list bool) (H K : list Z)
  : res (list string * list bool) :=
  let sqrtTemp := initial H in
  sqrtTemp <- chunks binMessage K sqrtTemp ;;
  Ok (length_check binMessage, digest_bits sqrtTemp).

Definition H0 : list Z :=
  [ 0xcbbb9d5dc1059ed8; 0x629a292a367cd507; 0x9159015a3070dd17; 0x152fecd8f70e5939;
    0x67332667ffc00b31; 0x8eb44a8768581511; 0xdb0c2e0d64f98fa7; 0x47b5481dbefa4fa4 ].

Definition K0 : list Z :=
  [ 0x428a2f98d728ae22; 0x7137449123ef65cd;
    0xb5c0fbcfec4d3b2f; 0xe9b5dba58189dbbc;
    0x3956c25bf348b538; 0x59f111f1b605d019;
    0x923f82a4af194f9b; 0xab1c5ed5da6d8118;
    0xd807aa98a3030242; 0x12835b0145706fbe;
    0x243185be4ee4b28c; 0x550c7dc3d5ffb4e2;
    0x72be5d74f27b896f; 0x80deb1fe3b1696b1;
    0x9bdc06a725c71235; 0xc19bf174cf692694;
    0xe49b69c19ef14ad2; 0xefbe4786384f25e3;
    0x0fc19dc68b8cd5b5; 0x240ca1cc77ac9c65;
    0x2de92c6f592b0275; 0x4a7484aa6ea6e483;
    0x5cb0a9dcbd41fbd4; 0x76f988da831153b5;
    0x983e5152ee66dfab; 0xa831c66d2db43210;
    0xb00327c898fb213f; 0xbf597fc7beef0ee4;
    0xc6e00bf33da88fc2; 0xd5a79147930aa725;
    0x06ca6351e003826f; 0x142929670a0e6e70;
    0x27b70a8546d22ffc; 0x2e1b21385c26c926;
    0x4d2c6dfc5ac42aed; 0x53380d139d95b3df;
    0x650a73548baf63de; 0x766a0abb3c77b2a8;
    0x81c2c92e47edaee6; 0x92722c851482353b;
    0xa2bfe8a14cf10364; 0xa81a664bbc423001;
    0xc24b8b70d0f89791; 0xc76c51a30654be30;
    0xd192e819d6ef5218; 0xd69906245565a910;
    0xf40e35855771202a; 0x106aa07032bbd1b8;
    0x19a4c116b8d2d0c8; 0x1e376c085141ab53;
    0x2748774cdf8eeb99; 0x34b0bcb5e19b48a8;
    0x391c0cb3c5c95a63; 0x4ed8aa4ae3418acb;
    0x5b9cca4f7763e373; 0x682e6ff3d6b2b8a3;
    0x748f82ee5defb2fc; 0x78a5636f43172f60;
    0x84c87814a1f0ab72; 0x8cc702081a6439ec;
    0x90befffa23631e28; 0xa4506cebde82bde9;
    0xbef9a3f7b2c67915; 0xc67178f2e372532b;
    0xca273eceea26619c; 0xd186b8c721c0c207;
    0xeada7dd6cde0eb1e; 0xf57d4f7fee6ed178;
    0x06f067aa72176fba; 0x0a637dc5a2c898a6;
    0x113f9804bef90dae; 0x1b710b35131c471b;
    0x28db77f523047d84; 0x32caab7b40c72493;
    0x3c9ebe0a15c9bebc; 0x431d67c49c100d4c;
    0x4cc5d4becb3e42b6; 0x597f299cfc657e2a;
    0x5fcb6fab3ad6faec; 0x6c44198c4a475817 ].

(** [sha384]: what the function writes to [cerr] and to [cout]. *)
Definition sha384_io (strMessage : list byte) : res (list string * string) :=
  let '(binMessage, messageBitLength) := ShaH.TextToBinaryString strMessage in
  binMessage <- preProcessing messageBitLength binMessage ;;
  '(err, hash) <- processing binMessage H0 K0 ;;
  let digest := firstn 384 hash in
  Ok (err, string_of_list_ascii (ShaH.bitsetToHex digest 384)).

(** The [sqrtTemp] that [processing] ends with inside [sha384]. *)
Definition sha384_state (strMessage : list byte) : res state :=
  let '(binMessage, messageBitLength) := ShaH.TextToBinaryString strMessage in
  binMessage <- preProcessing messageBitLength binMessage ;;
  chunks binMessage K0 (initial H0).

Definition sha384 (strMessage : list byte) : res string :=
  res_map snd (sha384_io strMessage).

End Sha384.

(** ** Crc.cpp *)

Module Crc.

Definition CRC32_POLYNOMIAL : Z := 0xEDB88320.

(** One turn of [for (uint32_t j = 0; j < 8; j++)]. *)
Definition shift_step (crc : Z) : Z :=
  if negb (Z.land crc 1 =? 0)
  then Z.lxor (Z.shiftr crc 1) CRC32_POLYNOMIAL
  else Z.shiftr crc 1.

(** The value stored at [table[i]]. *)
Definition entry (i : Z) : Z :=
  fold_left (fun crc _ => shift_step crc) (seq 0 8) i.

(** [generateCRC32Table]: the array after the loop over [i]. *)
Definition generateCRC32Table (table : list Z) : list Z :=
  fold_left (fun table i => store table i (entry (Z.of_nat i))) (seq 0 256) table.

(** [calculateCRC32]; a [char] of [data] is taken as [uint8_t]. *)
Definition update (table : list Z) (crc : Z) (c : byte) : Z :=
  let byte := byte_val c in
  let index := Z.land (Z.lxor crc byte) 0xFF in
  Z.lxor (Z.shiftr crc 8) (at_ table index).

Definition calculateCRC32 (data : list byte) (table : list Z) : Z :=
  let crc := fold_left (update table) data 0xFFFFFFFF in
  Z.lxor crc 0xFFFFFFFF.

(** [ss << hex << setfill('0') << setw(8) << crc] *)
Definition crc32ToHex (crc : Z) : list ascii := setw 8 "0"%char (put_hex crc).

(** [crc32] on an array [crcTable] with the given content, which the
    source leaves uninitialised. *)
Definition crc32_from (crcTable : list Z) (strMessage : list byte) : string :=
  let crcTable := generateCRC32Table crcTable in
  let crc := calculateCRC32 strMessage crcTable in
  string_of_list_ascii (crc32ToHex crc).

Definition crc32 (strMessage : list byte) : string :=
  crc32_from (repeat 0 256) strMessage.

End Crc.

(** A message given as a string literal. *)
Definition bytes_of (s : string) : list byte := list_byte_of_string s.

(** ** Notions used by the statements

    These follow the words of the specification, not the code. *)

(** A byte rendered as two hexadecimal digits, zero-padded. *)
Definition hex_byte (b : Z) : list ascii :=
  [hex_digit (b / 16); hex_digit (b mod 16)].

(** A byte sequence rendered as hexadecimal without separators. *)
Definition render (bytes : list Z) : string :=
  string_of_list_ascii (flat_map hex_byte bytes).

(** The [n] bytes of a word, least significant first and most
    significant first. *)
Definition le_bytes (n : nat) (w : Z) : list Z :=
  map (fun i => (w / 256 ^ Z.of_nat i) mod 256) (seq 0 n).

Definition be_bytes (n : nat) (w : Z) : list Z := rev (le_bytes n w).

(** The number a byte field denotes, read little-endian and big-endian,
    and the number a bit field denotes, most significant bit first. *)
Definition le_value (field : list Z) : Z :=
  fold_right (fun b acc => b + 256 * acc) 0 field.

Definition be_value (field : list Z) : Z :=
  fold_left (fun acc b => 256 * acc + b) field 0.

Definition bits_value (field : list bool) : Z :=
  fold_left (fun acc b => 2 * acc + Z.b2z b) field 0.

Definition is_lower_hex (c : ascii) : bool :=
  let n := nat_of_ascii c in
  ((48 <=? n) && (n <=? 57) || (97 <=? n) && (n <=? 102))%nat.

Definition lower_hex (s : string) : bool :=
  forallb is_lower_hex (list_ascii_of_string s).

(** The [len] items of a sequence from position [start] on. *)
Definition window {A : Type} (l : list A) (start len : nat) : list A :=
  firstn len (skipn start l).

(** The value of a rotation to the left whose count is in range. *)
Definition rotl32 (x c : Z) : Z :=
  Z.lor (u32 (Z.shiftl x c)) (Z.shiftr x (32 - c)).

(** A value that fits 32 bits, and a SHA-1 state of such values. *)
Definition in32 (x : Z) : Prop := 0 <= x < 2 ^ 32.

Definition sha1_state_in32 (st : Sha1.state) : Prop :=
  let '(h0, h1, h2, h3, h4) := st in
  in32 h0 /\ in32 h1 /\ in32 h2 /\ in32 h3 /\ in32 h4.

(** [k] hexadecimal digits of a number, most significant first. *)
Fixpoint fixed_hex (k : nat) (n : Z) : list ascii :=
  match k with
  | O => []
  | S k' => fixed_hex k' (n / 16) ++ [hex_digit (n mod 16)]
  end.

(** The number four bits denote, most significant first. *)
Definition nib (b3 b2 b1 b0 : bool) : Z :=
  8 * Z.b2z b3 + 4 * Z.b2z b2 + 2 * Z.b2z b1 + Z.b2z b0.

(** The digits [bitsetToHex] prints, in the order it returns them. *)
Definition hex_of_bits (bits : list bool) (n : nat) : list ascii :=
  map (fun q => hex_digit (ShaH.nibble bits (4 * Z.of_nat q))) (seq 0 n).

(** The number of zero bytes that follow the marker when [n] bytes
    precede it. *)
Definition zero_fill (n : nat) : nat := Z.to_nat ((55 - Z.of_nat n) mod 64).

(** The padding of MD5 in closed form: the last [input] bytes of a message
    of [total] bytes, the marker, the zero fill and the length field. *)
Definition md5_padded (total : Z) (input : list byte) : list Z :=
  (map byte_val input ++ [0x80])
    ++ repeat 0 (zero_fill (length input)) ++ Md5.length_field (u64 (total * 8)).

(** What the streaming MD5 program does with the outcome of its read
    loop. *)
Definition md5_stream_finish (r : Md5Stream.state * Z * list Z * nat)
  : res Md5Stream.state :=
  let '(st, totalBytes, buffer, bytesRead) := r in
  Md5Stream.run
    (Md5Stream.final_calls buffer bytesRead (u64 (totalBytes + Z.of_nat bytesRead)))
    st.

(** The same for SHA-1. *)
Definition sha1_padded (total : Z) (input : list byte) : list Z :=
  (map byte_val input ++ [0x80])
    ++ repeat 0 (zero_fill (length input)) ++ Sha1.length_field (u64 (total * 8)).

Definition sha1_stream_finish (r : Sha1Stream.state * Z * list Z * nat)
  : res Sha1Stream.state :=
  let '(st, totalBytes, buffer, bytesRead) := r in
  Sha1Stream.run
    (Sha1Stream.final_calls buffer bytesRead (u64 (totalBytes + Z.of_nat bytesRead)))
    st.

(** A message of [n] letters [a]. *)
Definition letters_a (n : nat) : list byte := repeat "a"%byte n.

(** Buffers that hold the same block at different places. *)
Definition sample_buf1 : list Z := map Z.of_nat (seq 0 128).
Definition sample_buf2 : list Z := repeat 7 3 ++ map Z.of_nat (seq 0 64) ++ [9].
Definition sample_bits1 : list bool := repeat false 512 ++ repeat true 512.
Definition sample_bits2 : list bool := repeat true 512 ++ [false].
Definition sample_wide1 : list bool := repeat true 1024 ++ repeat false 1024.
Definition sample_wide2 : list bool := repeat false 1024 ++ [true].

(** Where the unread tail of a message of [n] bytes starts, and the padded
    message with the block that holds the tail fed twice. *)
Definition tail_start (n : nat) : nat := (n - n mod 64)%nat.

Definition tail_block_twice (paddedMessage : list Z) (n : nat) : list Z :=
  firstn (tail_start n + 64) paddedMessage ++ skipn (tail_start n) paddedMessage.

(** The checksum computed bit by bit, without the table: every byte is
    added to the low end of the register, which is then shifted eight
    times. *)
Definition crc_shift8 (crc : Z) : Z :=
  fold_left (fun crc _ => Crc.shift_step crc) (seq 0 8) crc.

Definition crc_bitwise (data : list byte) : Z :=
  Z.lxor
    (fold_left (fun crc c => crc_shift8 (Z.lxor crc (byte_val c))) data 0xFFFFFFFF)
    0xFFFFFFFF.

(** The value of a rotation to the right of a [w]-bit word whose count is
    in range. *)
Definition rotr (w x n : Z) : Z :=
  Z.lor (Z.shiftr x n) (wrap w (Z.shiftl x (w - n))).

(** The assignments to [w[j]] in the loops that extend the message
    schedule, as expressions over the array [w]. *)
Definition sha1_word (j : Z) (w : list Z) : Z :=
  rotl32 (Z.lxor (Z.lxor (Z.lxor (at_ w (j - 3)) (at_ w (j - 8))) (at_ w (j - 14)))
                 (at_ w (j - 16))) 1.

Definition sha256_word (i : Z) (w : list Z) : Z :=
  let s0 := Z.lxor (Z.lxor (rotr 32 (at_ w (i - 15)) 7) (rotr 32 (at_ w (i - 15)) 18))
                   (Z.shiftr (at_ w (i - 15)) 3) in
  let s1 := Z.lxor (Z.lxor (rotr 32 (at_ w (i - 2)) 17) (rotr 32 (at_ w (i - 2)) 19))
                   (Z.shiftr (at_ w (i - 2)) 10) in
  wrap 32 (at_ w (i - 16) + s0 + at_ w (i - 7) + s1).

Definition sha384_word (i : Z) (w : list Z) : Z :=
  let s0 := Z.lxor (Z.lxor (rotr 64 (at_ w (i - 15)) 1) (rotr 64 (at_ w (i - 15)) 8))
                   (Z.shiftr (at_ w (i - 15)) 7) in
  let s1 := Z.lxor (Z.lxor (rotr 64 (at_ w (i - 2)) 19) (rotr 64 (at_ w (i - 2)) 61))
                   (Z.shiftr (at_ w (i - 2)) 6) in
  wrap 64 (at_ w (i - 16) + s0 + at_ w (i - 7) + s1).

(** The byte with a given value, and the four bytes of a checksum as
    they are stored after the data, least significant first. *)
Definition byte_of (z : Z) : byte :=
  match Byte.of_N (Z.to_N z) with
  | Some b => b
  | None => "000"%byte
  end.

Definition crc_bytes (crc : Z) : list byte := map byte_of (le_bytes 4 crc).

(** * Test vectors *)

(** C7.  The whole-message [md5] maps the empty message to
    d41d8cd98f00b204e9800998ecf8427e.  Its padding is the single block made
    of the marker byte, 55 zero bytes and an all-zero length field. *)
Theorem md5_empty_vector :
  Md5.padding [] = Ok (0x80 :: repeat 0 55 ++ repeat 0 8) /\
  Md5.md5 [] = Ok "d41d8cd98f00b204e9800998ecf8427e"%string.
Proof. split; vm_compute; reflexivity. Qed.

(** C4, as the specification prints it: the 39 characters
    a9993e364706816aba3e25717850c26c9cd0d89 are not what [sha1] yields on
    the message abc. *)
Lemma sha1_abc_not_39_characters :
  Sha1.sha1 (bytes_of "abc") <> Ok "a9993e364706816aba3e25717850c26c9cd0d89"%string.
Proof. vm_compute. discriminate. Qed.

(** C4, amended.  On the three-byte message abc both the whole-message
    [sha1] and the streaming program yield the 40 characters
    a9993e364706816aba3e25717850c26c9cd0d89d. *)
Theorem sha1_abc_vector :
  Sha1.sha1 (bytes_of "abc") = Ok "a9993e364706816aba3e25717850c26c9cd0d89d"%string /\
  Sha1Stream.main (bytes_of "abc") = Ok "a9993e364706816aba3e25717850c26c9cd0d89d"%string.
Proof. split; vm_compute; reflexivity. Qed.

(** C3.  On the empty message [sha384] does not yield the published digest
    38b060a7...: [bitsToUsignedInt] reads 32 bits for a 64-bit word, so
    the first word of the padded block is loaded as 0x80000000 where the
    block holds 0x8000000000000000. *)
Theorem sha384_empty_is_not_the_published_vector :
  (exists binMessage,
      Sha384.preProcessing 0 [] = Ok binMessage /\
      Sha384.load binMessage 0 = 0x80000000 :: repeat 0 15 /\
      bits_value (window binMessage 0 64) = 0x8000000000000000) /\
  Sha384.sha384 [] =
    Ok "7907b6a753bd787089b1b1ee78aa4a584cd3c887464101f5672da27d47f25658583b2e9a0b5d5107872c650b541853cb"%string /\
  Sha384.sha384 [] <>
    Ok "38b060a751ac96384cd9327eb1b1e36a21fdb71114be07434c0cc7bf63f6e1da274edebfe76f65fbd51ad2f14898b95b"%string.
Proof.
  split; [| split].
  - eexists. split; [vm_compute; reflexivity |]. split; vm_compute; reflexivity.
  - vm_compute. reflexivity.
  - vm_compute. discriminate.
Qed.

(** C1.  On a message of 56 bytes the streaming program and the
    whole-message [md5] print different digests. *)
Theorem md5_stream_differs_from_md5_at_56_bytes :
  Md5Stream.main (letters_a 56) = Ok "eeec3082c2fda7f573f1a2cf9cc02d77"%string /\
  Md5.md5 (letters_a 56) = Ok "3b0c8ac703f828b04c6c197006d17218"%string /\
  Md5Stream.main (letters_a 56) <> Md5.md5 (letters_a 56).
Proof.
  split; [| split]; vm_compute; try reflexivity. discriminate.
Qed.

(** C2.  On a message of 63 bytes the streaming MD5 program calls
    [transform] three times after the read loop: twice on the block that
    carries the tail and the marker, then on the block with the length
    field.  The digest it prints is not the MD5 digest of the message.
    The streaming SHA-1 program makes the two calls and prints the digest
    of [sha1]. *)
Theorem md5_stream_63_bytes_three_final_blocks :
  let tail := map byte_val (letters_a 63) in
  let first := tail ++ [0x80] in
  let second := repeat 0 56 ++ [0xf8; 0x01; 0; 0; 0; 0; 0; 0] in
  res_map (fun r => map (firstn 64) (snd r)) (Md5Stream.after_reads (letters_a 63))
    = Ok [first; first; second] /\
  Md5Stream.main (letters_a 63) = Ok "5f8d347c9de763caa632d5a31843490e"%string /\
  Md5.md5 (letters_a 63) = Ok "b06521f39153d618550606be297466d5"%string /\
  res_map (fun r => length (snd r)) (Sha1Stream.after_reads (letters_a 63)) = Ok 2%nat /\
  Sha1Stream.main (letters_a 63) = Sha1.sha1 (letters_a 63).
Proof.
  repeat split; vm_compute; reflexivity.
Qed.

(** * Loops and guards *)

Section ForLoop.
Context {St : Type} (body : Z -> St -> res St).

(** A loop whose body succeeds under an invariant succeeds, and the
    invariant holds of its result. *)
Lemma for_loop_invariant (P : Z -> St -> Prop) :
  forall n lo st,
    P lo st ->
    (forall j s, lo <= j < lo + Z.of_nat n -> P j s ->
                 exists s', body j s = Ok s' /\ P (j + 1) s') ->
    exists st', for_loop body lo n st = Ok st' /\ P (lo + Z.of_nat n) st'.
Proof.
  induction n as [| n IH]; intros lo st HP Hbody.
  - exists st. split; [reflexivity |]. now replace (lo + Z.of_nat 0) with lo by lia.
  - destruct (Hbody lo st) as [s' [Hs' HP']]; [lia | assumption |].
    destruct (IH (lo + 1) s' HP') as [st' [Hrun HQ]].
    + intros j s Hj. apply Hbody. lia.
    + exists st'. cbn [for_loop]. rewrite Hs'. cbn [bind]. split; [assumption |].
      now replace (lo + Z.of_nat (S n)) with (lo + 1 + Z.of_nat n) by lia.
Qed.

Lemma for_loop_total :
  forall n lo st,
    (forall j s, lo <= j < lo + Z.of_nat n -> exists s', body j s = Ok s') ->
    exists st', for_loop body lo n st = Ok st'.
Proof.
  intros n lo st Hbody.
  destruct (for_loop_invariant (fun _ _ => True) n lo st I) as [st' [H _]].
  - intros j s Hj _. destruct (Hbody j s Hj) as [s' Hs']. now exists s'.
  - now exists st'.
Qed.
End ForLoop.

(** Two loop bodies that agree on the range give the same loop. *)
Lemma for_loop_ext {St : Type} (f g : Z -> St -> res St) :
  forall n lo st,
    (forall j s, lo <= j < lo + Z.of_nat n -> f j s = g j s) ->
    for_loop f lo n st = for_loop g lo n st.
Proof.
  induction n as [| n IH]; intros lo st H; [reflexivity |].
  cbn [for_loop]. rewrite H by lia.
  destruct (g lo st) as [s' | e]; cbn [bind]; [| reflexivity].
  apply IH. intros j s Hj. apply H. lia.
Qed.

Ltac guards_hold :=
  repeat match goal with
         | |- context [?a <=? ?b] => rewrite (proj2 (Z.leb_le a b)) by lia
         | |- context [?a <? ?b] => rewrite (proj2 (Z.ltb_lt a b)) by lia
         end;
  cbn [andb].

Lemma leftRotate_defined x c :
  0 < c < 32 -> Md5.leftRotate x c = Ok (rotl32 x c).
Proof. intros Hc. unfold Md5.leftRotate. guards_hold. reflexivity. Qed.

Lemma leftRotate_in_range x c r :
  Md5.leftRotate x c = Ok r -> 0 < c < 32.
Proof.
  unfold Md5.leftRotate. intros H.
  destruct (0 <=? c) eqn:E1; [| discriminate].
  destruct (c <? 32) eqn:E2; [| discriminate].
  destruct (0 <=? 32 - c) eqn:E3; [| discriminate].
  destruct (32 - c <? 32) eqn:E4; [| discriminate].
  apply Z.ltb_lt in E2, E4. lia.
Qed.

Lemma sha1_leftRotate_eq : Sha1.leftRotate = Md5.leftRotate.
Proof. reflexivity. Qed.

Lemma sha1_stream_leftRotate_eq : Sha1Stream.leftRotate = Md5.leftRotate.
Proof. reflexivity. Qed.

Lemma rotateRightByN_defined w x n :
  0 < n < w ->
  ShaH.rotateRightByN w x n w =
    Ok (Z.lor (Z.shiftr x n) (wrap w (Z.shiftl x (w - n)))).
Proof. intros Hn. unfold ShaH.rotateRightByN. guards_hold. reflexivity. Qed.

Lemma rotateRightByN_in_range w x n r :
  ShaH.rotateRightByN w x n w = Ok r -> 0 < n < w.
Proof.
  unfold ShaH.rotateRightByN. intros H.
  destruct (0 <=? n) eqn:E1; [| discriminate].
  destruct (n <? w) eqn:E2; [| discriminate].
  destruct (0 <=? w - n) eqn:E3; [| discriminate].
  destruct (w - n <? w) eqn:E4; [| discriminate].
  apply Z.ltb_lt in E2, E4. lia.
Qed.

(** An index below [n] is one of [0 .. n-1]. *)
Lemma below_in_seq (n : nat) (j : Z) :
  0 <= j < Z.of_nat n -> In j (map Z.of_nat (seq 0 n)).
Proof.
  intros Hj. apply in_map_iff. exists (Z.to_nat j). split; [lia |].
  apply in_seq. lia.
Qed.

Lemma md5_S_entries : Forall (fun s => 4 <= s <= 23) Md5.S.
Proof. unfold Md5.S. repeat constructor; lia. Qed.

Lemma md5_S_at j : 0 <= j < 64 -> 4 <= at_ Md5.S j <= 23.
Proof.
  intros Hj.
  assert (Hall : forallb (fun j => (4 <=? at_ Md5.S j) && (at_ Md5.S j <=? 23))
                         (map Z.of_nat (seq 0 64)) = true) by (vm_compute; reflexivity).
  rewrite forallb_forall in Hall.
  specialize (Hall j (below_in_seq 64 j Hj)).
  apply andb_true_iff in Hall. destruct Hall as [H1 H2].
  apply Z.leb_le in H1, H2. lia.
Qed.
(** * The block transforms are total *)

Lemma bind_total {A B : Type} (m : res A) (k : A -> res B) :
  (exists a, m = Ok a) -> (forall a, exists b, k a = Ok b) ->
  exists b, bind m k = Ok b.
Proof.
  intros [a Ha] Hk. rewrite Ha. cbn [bind]. apply Hk.
Qed.

Lemma md5_round_total M j st :
  0 <= j < 64 -> exists st', Md5.round M j st = Ok st'.
Proof.
  intros Hj. destruct st as [[[A B] C] D]. unfold Md5.round.
  pose proof (md5_S_at j Hj) as HS.
  destruct (j <? 16); [| destruct (j <? 32); [| destruct (j <? 48)]];
    rewrite leftRotate_defined by lia; cbn [bind]; eexists; reflexivity.
Qed.

Lemma md5_chunk_total pm i st : exists st', Md5.chunk pm i st = Ok st'.
Proof.
  destruct st as [[[a0 b0] c0] d0]. unfold Md5.chunk.
  destruct (for_loop_total (Md5.round (Md5.decode pm i)) 64 0 (a0, b0, c0, d0))
    as [[[[A B] C] D] Hrun].
  - intros j s Hj. apply md5_round_total. lia.
  - rewrite Hrun. cbn [bind]. eexists; reflexivity.
Qed.

Section Md5Steps.
Variables (M : list Z) (a b c d k s i : Z).
Hypothesis Hs : 0 < s < 32.

Lemma STEP1_total : exists v, Md5Stream.STEP1 M a b c d k s = Ok v.
Proof.
  unfold Md5Stream.STEP1, Md5Stream.leftRotate.
  rewrite leftRotate_defined by lia. eexists; reflexivity.
Qed.

Lemma STEP2_total : exists v, Md5Stream.STEP2 M a b c d k s i = Ok v.
Proof.
  unfold Md5Stream.STEP2, Md5Stream.leftRotate.
  rewrite leftRotate_defined by lia. eexists; reflexivity.
Qed.

Lemma STEP3_total : exists v, Md5Stream.STEP3 M a b c d k s i = Ok v.
Proof.
  unfold Md5Stream.STEP3, Md5Stream.leftRotate.
  rewrite leftRotate_defined by lia. eexists; reflexivity.
Qed.

Lemma STEP4_total : exists v, Md5Stream.STEP4 M a b c d k s i = Ok v.
Proof.
  unfold Md5Stream.STEP4, Md5Stream.leftRotate.
  rewrite leftRotate_defined by lia. eexists; reflexivity.
Qed.
End Md5Steps.

(** Run the step at the head of the goal and name its value. *)
Ltac md5_step :=
  apply bind_total;
  [ first [ apply STEP1_total | apply STEP2_total
          | apply STEP3_total | apply STEP4_total ]; lia
  | intro; cbv beta ].

Lemma md5_transform_total block st :
  exists st', Md5Stream.transform block st = Ok st'.
Proof.
  destruct st as [[[a0 b0] c0] d0]. unfold Md5Stream.transform.
  generalize (Md5Stream.decode block). intros M. cbv zeta.
  do 64 md5_step.
  eexists; reflexivity.
Qed.

Lemma sha1_extend_total j w : exists w', Sha1.extend j w = Ok w'.
Proof.
  unfold Sha1.extend. rewrite sha1_leftRotate_eq, leftRotate_defined by lia.
  eexists; reflexivity.
Qed.

Lemma sha1_round_total w j st : exists st', Sha1.round w j st = Ok st'.
Proof.
  destruct st as [[[[a b] c] d] e]. unfold Sha1.round.
  rewrite sha1_leftRotate_eq.
  destruct (j <? 20); [| destruct (j <? 40); [| destruct (j <? 60)]];
    rewrite !leftRotate_defined by lia; eexists; reflexivity.
Qed.

Lemma sha1_chunk_total pm i st : exists st', Sha1.chunk pm i st = Ok st'.
Proof.
  unfold Sha1.chunk, Sha1.schedule.
  apply bind_total.
  - apply for_loop_total. intros j w _. apply sha1_extend_total.
  - intros w. destruct st as [[[[h0 h1] h2] h3] h4].
    apply bind_total.
    + apply for_loop_total. intros j s _. apply sha1_round_total.
    + intros [[[[a b] c] d] e]. eexists; reflexivity.
Qed.

Lemma sha1_stream_extend_total j w : exists w', Sha1Stream.extend j w = Ok w'.
Proof.
  unfold Sha1Stream.extend.
  rewrite sha1_stream_leftRotate_eq, leftRotate_defined by lia.
  eexists; reflexivity.
Qed.

Lemma sha1_stream_step_total f k w j st :
  exists st', Sha1Stream.step f k w j st = Ok st'.
Proof.
  destruct st as [[[[a b] c] d] e]. unfold Sha1Stream.step.
  rewrite sha1_stream_leftRotate_eq, !leftRotate_defined by lia.
  eexists; reflexivity.
Qed.

Lemma sha1_transform_total block st :
  exists st', Sha1Stream.transform block st = Ok st'.
Proof.
  unfold Sha1Stream.transform.
  apply bind_total.
  { apply for_loop_total. intros j w _. apply sha1_stream_extend_total. }
  intros w. destruct st as [[[[h0 h1] h2] h3] h4].
  apply bind_total.
  { apply for_loop_total. intros j [[[[a b] c] d] e] _.
    apply sha1_stream_step_total. }
  intros st1. apply bind_total.
  { apply for_loop_total. intros j [[[[a b] c] d] e] _.
    apply sha1_stream_step_total. }
  intros st2. apply bind_total.
  { apply for_loop_total. intros j [[[[a b] c] d] e] _.
    apply sha1_stream_step_total. }
  intros st3. apply bind_total.
  { apply for_loop_total. intros j [[[[a b] c] d] e] _.
    apply sha1_stream_step_total. }
  intros [[[[a b] c] d] e]. eexists; reflexivity.
Qed.

(** Run the rotation at the head of the goal and name its value. *)
Ltac rotate_right :=
  apply bind_total;
  [ eexists; apply rotateRightByN_defined; lia | intro; cbv beta ].

Lemma sha256_extend_total i w : exists w', Sha256.extend i w = Ok w'.
Proof. unfold Sha256.extend. do 4 rotate_right. eexists; reflexivity. Qed.

Lemma sha256_round_total K w i st : exists st', Sha256.round K w i st = Ok st'.
Proof.
  destruct st as [[[[[[[a b] c] d] e] f] g] h]. unfold Sha256.round.
  do 6 rotate_right. eexists; reflexivity.
Qed.

Lemma sha256_chunk_total bits K c st :
  exists st', Sha256.chunk bits K c st = Ok st'.
Proof.
  unfold Sha256.chunk. apply bind_total.
  - apply for_loop_total. intros j w _. apply sha256_extend_total.
  - intros w. destruct st as [[[[[[[t0 t1] t2] t3] t4] t5] t6] t7].
    apply bind_total.
    + apply for_loop_total. intros j s _. apply sha256_round_total.
    + intros [[[[[[[a b] c'] d] e] f] g] h]. eexists; reflexivity.
Qed.

Lemma sha384_extend_total i w : exists w', Sha384.extend i w = Ok w'.
Proof. unfold Sha384.extend. do 4 rotate_right. eexists; reflexivity. Qed.

Lemma sha384_round_total K w i st : exists st', Sha384.round K w i st = Ok st'.
Proof.
  destruct st as [[[[[[[a b] c] d] e] f] g] h]. unfold Sha384.round.
  do 6 rotate_right. eexists; reflexivity.
Qed.

Lemma sha384_chunk_total bits K c st :
  exists st', Sha384.chunk bits K c st = Ok st'.
Proof.
  unfold Sha384.chunk. apply bind_total.
  - apply for_loop_total. intros j w _. apply sha384_extend_total.
  - intros w. destruct st as [[[[[[[t0 t1] t2] t3] t4] t5] t6] t7].
    apply bind_total.
    + apply for_loop_total. intros j s _. apply sha384_round_total.
    + intros [[[[[[[a b] c'] d] e] f] g] h]. eexists; reflexivity.
Qed.

(** C10.  Every rotation of the four block transforms has a count
    strictly between 0 and the word width.  [leftRotate] and
    [rotateRightByN] are defined exactly for such counts; the table [S] holds
    counts from 4 to 23; and, the rotations being the only partial
    operations of the transforms, each transform yields a state on every
    state and block: no rotation by 0 or by the width is ever reached. *)
Theorem rotation_counts_in_range :
  (forall x c, (exists r, Md5.leftRotate x c = Ok r) <-> 0 < c < 32) /\
  (forall x n, (exists r, ShaH.rotateRightByN 32 x n 32 = Ok r) <-> 0 < n < 32) /\
  (forall x n, (exists r, ShaH.rotateRightByN 64 x n 64 = Ok r) <-> 0 < n < 64) /\
  Forall (fun s => 4 <= s <= 23) Md5.S /\
  (forall paddedMessage i st, exists st', Md5.chunk paddedMessage i st = Ok st') /\
  (forall block st, exists st', Md5Stream.transform block st = Ok st') /\
  (forall paddedMessage i st, exists st', Sha1.chunk paddedMessage i st = Ok st') /\
  (forall block st, exists st', Sha1Stream.transform block st = Ok st') /\
  (forall binMessage K chunkIter st,
      exists st', Sha256.chunk binMessage K chunkIter st = Ok st') /\
  (forall binMessage K chunkIter st,
      exists st', Sha384.chunk binMessage K chunkIter st = Ok st').
Proof.
  repeat apply conj.
  - intros x c. split.
    + intros [r Hr]. eapply leftRotate_in_range; eassumption.
    + intros Hc. eexists. apply leftRotate_defined; assumption.
  - intros x n. split.
    + intros [r Hr]. eapply rotateRightByN_in_range; eassumption.
    + intros Hn. eexists. apply rotateRightByN_defined; assumption.
  - intros x n. split.
    + intros [r Hr]. eapply rotateRightByN_in_range; eassumption.
    + intros Hn. eexists. apply rotateRightByN_defined; assumption.
  - exact md5_S_entries.
  - exact md5_chunk_total.
  - exact md5_transform_total.
  - exact sha1_chunk_total.
  - exact sha1_transform_total.
  - exact sha256_chunk_total.
  - exact sha384_chunk_total.
Qed.

(** * The block transforms read the state and one block *)

Lemma nth_window {A : Type} (l : list A) (s n k : nat) (d : A) :
  (k < n)%nat -> nth k (window l s n) d = nth (s + k) l d.
Proof.
  intros Hk. unfold window. rewrite nth_firstn.
  destruct (Nat.ltb_spec k n); [apply nth_skipn | lia].
Qed.

Lemma at_window (l : list Z) (s n : nat) (k : Z) :
  0 <= k < Z.of_nat n -> at_ l (Z.of_nat s + k) = at_ (window l s n) k.
Proof.
  intros Hk. unfold at_. rewrite nth_window by lia. f_equal. lia.
Qed.

Lemma bit_at_window (l : list bool) (s n : nat) (k : Z) :
  0 <= k < Z.of_nat n ->
  ShaH.bit_at l (Z.of_nat s + k) = ShaH.bit_at (window l s n) k.
Proof.
  intros Hk. unfold ShaH.bit_at. rewrite nth_window by lia. f_equal. lia.
Qed.

Lemma in_seq_below (n : nat) (j : Z) :
  In j (map Z.of_nat (seq 0 n)) -> 0 <= j < Z.of_nat n.
Proof.
  intros Hj. apply in_map_iff in Hj. destruct Hj as [k [Hk Hin]].
  apply in_seq in Hin. lia.
Qed.

Lemma fold_left_ext_in {A B : Type} (f g : A -> B -> A) (l : list B) :
  (forall a x, In x l -> f a x = g a x) ->
  forall a, fold_left f l a = fold_left g l a.
Proof.
  induction l as [| x l IH]; intros H a; [reflexivity |].
  cbn [fold_left]. rewrite H by (left; reflexivity).
  apply IH. intros a' y Hy. apply H. right; assumption.
Qed.

Lemma md5_decode_window pm (i : nat) :
  Md5.decode pm (Z.of_nat i) = Md5.decode (window pm i 64) 0.
Proof.
  unfold Md5.decode. apply map_ext_in. intros j Hj.
  apply in_seq_below in Hj.
  rewrite <- !Z.add_assoc, !(at_window pm i 64) by lia.
  rewrite !Z.add_0_l.
  reflexivity.
Qed.

Lemma md5_stream_decode_window block :
  Md5Stream.decode block = Md5.decode (window block 0 64) 0.
Proof. exact (md5_decode_window block 0). Qed.

Lemma sha1_decode_window pm (i : nat) :
  Sha1.decode pm (Z.of_nat i) = Sha1.decode (window pm i 64) 0.
Proof.
  unfold Sha1.decode. apply map_ext_in. intros j Hj.
  apply in_seq_below in Hj.
  rewrite <- !Z.add_assoc, !(at_window pm i 64) by lia.
  rewrite !Z.add_0_l.
  reflexivity.
Qed.

Lemma sha1_stream_decode_window block :
  Sha1Stream.decode block = Sha1.decode (window block 0 64) 0.
Proof. exact (sha1_decode_window block 0). Qed.

Lemma bitsToUsignedInt_window w bits (s n : nat) (k : Z) :
  0 <= k -> k + 32 <= Z.of_nat n ->
  ShaH.bitsToUsignedInt w bits (Z.of_nat s + k) =
  ShaH.bitsToUsignedInt w (window bits s n) k.
Proof.
  intros Hk Hn. unfold ShaH.bitsToUsignedInt.
  apply fold_left_ext_in. intros value t Ht.
  apply in_seq_below in Ht.
  rewrite <- Z.add_assoc, (bit_at_window bits s n) by lia.
  reflexivity.
Qed.

Lemma sha256_load_window bits (c : nat) :
  Sha256.load bits (Z.of_nat c * 512) = Sha256.load (window bits (512 * c) 512) 0.
Proof.
  unfold Sha256.load. apply map_ext_in. intros i Hi.
  apply in_seq_below in Hi.
  replace (Z.of_nat c * 512) with (Z.of_nat (512 * c)) by lia.
  rewrite (bitsToUsignedInt_window 32 bits (512 * c) 512) by lia.
  rewrite Z.add_0_l. reflexivity.
Qed.

Lemma sha384_load_window bits (c : nat) :
  Sha384.load bits (Z.of_nat c * 1024) = Sha384.load (window bits (1024 * c) 1024) 0.
Proof.
  unfold Sha384.load. apply map_ext_in. intros i Hi.
  apply in_seq_below in Hi.
  replace (Z.of_nat c * 1024) with (Z.of_nat (1024 * c)) by lia.
  rewrite (bitsToUsignedInt_window 64 bits (1024 * c) 1024) by lia.
  rewrite Z.add_0_l. reflexivity.
Qed.

Lemma window_skipn {A : Type} (l : list A) (s n : nat) :
  window (skipn s l) 0 n = window l s n.
Proof. reflexivity. Qed.

(** C9.  Each block transform is a function of the state and of the block
    it is given: two calls on the same state whose blocks hold the same
    bytes (the same bits, for SHA-256 and SHA-384) yield the same result,
    wherever the block lies in its buffer and whatever surrounds it.  The
    tables of round constants are part of the functions (for SHA-256 and
    SHA-384 the argument [K], which the transform only reads). *)
Theorem compression_depends_on_state_and_block
        (buf1 buf2 : list Z) (i1 i2 : nat)
        (bits1 bits2 : list bool) (c1 c2 : nat)
        (wide1 wide2 : list bool) (d1 d2 : nat)
        (K256 K384 : list Z)
        (md5st : Md5.state) (sha1st : Sha1.state)
        (st256 : Sha256.state) (st384 : Sha384.state) :
  window buf1 i1 64 = window buf2 i2 64 ->
  window bits1 (512 * c1) 512 = window bits2 (512 * c2) 512 ->
  window wide1 (1024 * d1) 1024 = window wide2 (1024 * d2) 1024 ->
  Md5Stream.transform (skipn i1 buf1) md5st = Md5Stream.transform (skipn i2 buf2) md5st /\
  Md5.chunk buf1 (Z.of_nat i1) md5st = Md5.chunk buf2 (Z.of_nat i2) md5st /\
  Sha1Stream.transform (skipn i1 buf1) sha1st = Sha1Stream.transform (skipn i2 buf2) sha1st /\
  Sha1.chunk buf1 (Z.of_nat i1) sha1st = Sha1.chunk buf2 (Z.of_nat i2) sha1st /\
  Sha256.chunk bits1 K256 (Z.of_nat c1) st256 = Sha256.chunk bits2 K256 (Z.of_nat c2) st256 /\
  Sha384.chunk wide1 K384 (Z.of_nat d1) st384 = Sha384.chunk wide2 K384 (Z.of_nat d2) st384.
Proof.
  intros Hbuf Hbits Hwide. repeat apply conj.
  - unfold Md5Stream.transform.
    rewrite !md5_stream_decode_window.
    rewrite !window_skipn, Hbuf. reflexivity.
  - unfold Md5.chunk. rewrite !md5_decode_window, Hbuf. reflexivity.
  - unfold Sha1Stream.transform.
    rewrite !sha1_stream_decode_window.
    rewrite !window_skipn, Hbuf. reflexivity.
  - unfold Sha1.chunk. rewrite !sha1_decode_window, Hbuf. reflexivity.
  - unfold Sha256.chunk. rewrite !sha256_load_window, Hbits. reflexivity.
  - unfold Sha384.chunk. rewrite !sha384_load_window, Hwide. reflexivity.
Qed.

Lemma compression_depends_on_state_and_block_witness :
  (window sample_buf1 0 64 = window sample_buf2 3 64 /\
   window sample_bits1 (512 * 1) 512 = window sample_bits2 (512 * 0) 512 /\
   window sample_wide1 (1024 * 1) 1024 = window sample_wide2 (1024 * 0) 1024) /\
  Md5Stream.transform (skipn 0 sample_buf1) Md5.init
    = Md5Stream.transform (skipn 3 sample_buf2) Md5.init /\
  Md5.chunk sample_buf1 (Z.of_nat 0) Md5.init
    = Md5.chunk sample_buf2 (Z.of_nat 3) Md5.init /\
  Sha1Stream.transform (skipn 0 sample_buf1) Sha1.init
    = Sha1Stream.transform (skipn 3 sample_buf2) Sha1.init /\
  Sha1.chunk sample_buf1 (Z.of_nat 0) Sha1.init
    = Sha1.chunk sample_buf2 (Z.of_nat 3) Sha1.init /\
  Sha256.chunk sample_bits1 Sha256.K0 (Z.of_nat 1) (1, 2, 3, 4, 5, 6, 7, 8)
    = Sha256.chunk sample_bits2 Sha256.K0 (Z.of_nat 0) (1, 2, 3, 4, 5, 6, 7, 8) /\
  Sha384.chunk sample_wide1 Sha384.K0 (Z.of_nat 1) (1, 2, 3, 4, 5, 6, 7, 8)
    = Sha384.chunk sample_wide2 Sha384.K0 (Z.of_nat 0) (1, 2, 3, 4, 5, 6, 7, 8).
Proof.
  assert (H1 : window sample_buf1 0 64 = window sample_buf2 3 64) by reflexivity.
  assert (H2 : window sample_bits1 (512 * 1) 512 = window sample_bits2 (512 * 0) 512)
    by (vm_compute; reflexivity).
  assert (H3 : window sample_wide1 (1024 * 1) 1024 = window sample_wide2 (1024 * 0) 1024)
    by (vm_compute; reflexivity).
  split; [repeat split; assumption |].
  exact (compression_depends_on_state_and_block
           sample_buf1 sample_buf2 0 3 sample_bits1 sample_bits2 1 0
           sample_wide1 sample_wide2 1 0
           Sha256.K0 Sha384.K0 Md5.init Sha1.init
           (1, 2, 3, 4, 5, 6, 7, 8) (1, 2, 3, 4, 5, 6, 7, 8) H1 H2 H3).
Defined.

(** * Padding *)

Lemma u64_mod_512 x : u64 x mod 512 = x mod 512.
Proof.
  unfold u64. apply Z.mod_mod_divide.
  exists (2 ^ 55). reflexivity.
Qed.

Lemma u64_mod_1024 x : u64 x mod 1024 = x mod 1024.
Proof.
  unfold u64. apply Z.mod_mod_divide.
  exists (2 ^ 54). reflexivity.
Qed.

(** The loop of [preProcessing] stops as soon as its condition allows, and
    within the fuel when some count below the fuel satisfies it. *)
Lemma sha256_pad_loop_stops :
  forall fuel length K binMessage,
    (exists k, (k < fuel)%nat /\ (length + 1 + (K + Z.of_nat k) + 64) mod 512 = 0) ->
    exists k, Sha256.pad_loop fuel length K binMessage
              = Ok (binMessage ++ repeat false k) /\
              (length + 1 + (K + Z.of_nat k) + 64) mod 512 = 0.
Proof.
  induction fuel as [| fuel IH]; intros len K bits [k [Hk Hmod]]; [lia |].
  cbn [Sha256.pad_loop]. rewrite u64_mod_512.
  destruct (Z.eqb_spec ((len + 1 + K + 64) mod 512) 0) as [E | E].
  - exists 0%nat. cbn [repeat]. rewrite app_nil_r. split; [reflexivity |].
    now replace (len + 1 + (K + Z.of_nat 0) + 64) with (len + 1 + K + 64) by lia.
  - destruct k as [| k].
    + exfalso. apply E.
      now replace (len + 1 + K + 64) with (len + 1 + (K + Z.of_nat 0) + 64) by lia.
    + destruct (IH len (K + 1) (bits ++ [false])) as [k2 [Hrun Hk2]].
      * exists k. split; [lia |].
        now replace (len + 1 + (K + 1 + Z.of_nat k) + 64)
          with (len + 1 + (K + Z.of_nat (S k)) + 64) by lia.
      * exists (S k2). rewrite Hrun, <- app_assoc. split; [reflexivity |].
        now replace (len + 1 + (K + Z.of_nat (S k2)) + 64)
          with (len + 1 + (K + 1 + Z.of_nat k2) + 64) by lia.
Qed.

Lemma sha384_pad_loop_stops :
  forall fuel length K binMessage,
    (exists k, (k < fuel)%nat /\ (length + 1 + (K + Z.of_nat k) + 128) mod 1024 = 0) ->
    exists k, Sha384.pad_loop fuel length K binMessage
              = Ok (binMessage ++ repeat false k) /\
              (length + 1 + (K + Z.of_nat k) + 128) mod 1024 = 0.
Proof.
  induction fuel as [| fuel IH]; intros len K bits [k [Hk Hmod]]; [lia |].
  cbn [Sha384.pad_loop]. rewrite u64_mod_1024.
  destruct (Z.eqb_spec ((len + 1 + K + 128) mod 1024) 0) as [E | E].
  - exists 0%nat. cbn [repeat]. rewrite app_nil_r. split; [reflexivity |].
    now replace (len + 1 + (K + Z.of_nat 0) + 128) with (len + 1 + K + 128) by lia.
  - destruct k as [| k].
    + exfalso. apply E.
      now replace (len + 1 + K + 128) with (len + 1 + (K + Z.of_nat 0) + 128) by lia.
    + destruct (IH len (K + 1) (bits ++ [false])) as [k2 [Hrun Hk2]].
      * exists k. split; [lia |].
        now replace (len + 1 + (K + 1 + Z.of_nat k) + 128)
          with (len + 1 + (K + Z.of_nat (S k)) + 128) by lia.
      * exists (S k2). rewrite Hrun, <- app_assoc. split; [reflexivity |].
        now replace (len + 1 + (K + Z.of_nat (S k2)) + 128)
          with (len + 1 + (K + 1 + Z.of_nat k2) + 128) by lia.
Qed.

Lemma sha256_length_bits_length len : length (Sha256.length_bits len) = 64%nat.
Proof. unfold Sha256.length_bits. now rewrite length_map, length_rev, length_seq. Qed.

Lemma sha384_length_bits_length len : length (Sha384.length_bits len) = 128%nat.
Proof. unfold Sha384.length_bits. now rewrite length_map, length_rev, length_seq. Qed.

(** The shape of the padded message of SHA-256: the message bits, the bit
    1, [k] bits 0, and the length field. *)
Lemma sha256_preProcessing_shape binMessage :
  exists k,
    Sha256.preProcessing (u64 (Z.of_nat (length binMessage))) binMessage
    = Ok ((binMessage ++ [true]) ++ repeat false k
            ++ Sha256.length_bits (u64 (Z.of_nat (length binMessage)))) /\
    (Z.of_nat (length binMessage) + 1 + Z.of_nat k + 64) mod 512 = 0.
Proof.
  unfold Sha256.preProcessing.
  assert (Hlen : u64 (Z.of_nat (length binMessage)) mod 512
                 = Z.of_nat (length binMessage) mod 512) by apply u64_mod_512.
  generalize dependent (u64 (Z.of_nat (length binMessage))). intros len Hlen.
  destruct (sha256_pad_loop_stops 512 len 0 (binMessage ++ [true])) as [k [Hrun Hk]].
  - exists (Z.to_nat ((- (len + 1 + 64)) mod 512)).
    pose proof (Z.mod_pos_bound (- (len + 1 + 64)) 512 eq_refl) as Hb.
    split; [lia |]. rewrite Z2Nat.id by lia.
    replace (len + 1 + (0 + (- (len + 1 + 64)) mod 512) + 64)
      with (len + 1 + 64 + (- (len + 1 + 64)) mod 512) by ring.
    rewrite Z.add_mod_idemp_r by lia.
    replace (len + 1 + 64 + - (len + 1 + 64)) with 0 by ring. reflexivity.
  - exists k. rewrite Hrun. cbn [bind]. rewrite <- app_assoc. split; [reflexivity |].
    clear Hrun. Z.to_euclidean_division_equations. lia.
Qed.

Lemma sha384_preProcessing_shape binMessage :
  exists k,
    Sha384.preProcessing (u64 (Z.of_nat (length binMessage))) binMessage
    = Ok ((binMessage ++ [true]) ++ repeat false k
            ++ Sha384.length_bits (u64 (Z.of_nat (length binMessage)))) /\
    (Z.of_nat (length binMessage) + 1 + Z.of_nat k + 128) mod 1024 = 0.
Proof.
  unfold Sha384.preProcessing.
  assert (Hlen : u64 (Z.of_nat (length binMessage)) mod 1024
                 = Z.of_nat (length binMessage) mod 1024) by apply u64_mod_1024.
  generalize dependent (u64 (Z.of_nat (length binMessage))). intros len Hlen.
  destruct (sha384_pad_loop_stops 1024 len 0 (binMessage ++ [true])) as [k [Hrun Hk]].
  - exists (Z.to_nat ((- (len + 1 + 128)) mod 1024)).
    pose proof (Z.mod_pos_bound (- (len + 1 + 128)) 1024 eq_refl) as Hb.
    split; [lia |]. rewrite Z2Nat.id by lia.
    replace (len + 1 + (0 + (- (len + 1 + 128)) mod 1024) + 128)
      with (len + 1 + 128 + (- (len + 1 + 128)) mod 1024) by ring.
    rewrite Z.add_mod_idemp_r by lia.
    replace (len + 1 + 128 + - (len + 1 + 128)) with 0 by ring. reflexivity.
  - exists k. rewrite Hrun. cbn [bind]. rewrite <- app_assoc. split; [reflexivity |].
    clear Hrun. Z.to_euclidean_division_equations. lia.
Qed.

Lemma sha256_padded_length binMessage :
  exists padded,
    Sha256.preProcessing (u64 (Z.of_nat (length binMessage))) binMessage = Ok padded /\
    Z.of_nat (length padded) mod 512 = 0.
Proof.
  destruct (sha256_preProcessing_shape binMessage) as [k [Hrun Hk]].
  eexists. split; [exact Hrun |].
  rewrite !length_app, repeat_length, sha256_length_bits_length. cbn [length].
  replace (Z.of_nat (length binMessage + 1 + (k + 64)))
    with (Z.of_nat (length binMessage) + 1 + Z.of_nat k + 64) by lia.
  exact Hk.
Qed.

Lemma sha384_padded_length binMessage :
  exists padded,
    Sha384.preProcessing (u64 (Z.of_nat (length binMessage))) binMessage = Ok padded /\
    Z.of_nat (length padded) mod 1024 = 0.
Proof.
  destruct (sha384_preProcessing_shape binMessage) as [k [Hrun Hk]].
  eexists. split; [exact Hrun |].
  rewrite !length_app, repeat_length, sha384_length_bits_length. cbn [length].
  replace (Z.of_nat (length binMessage + 1 + (k + 128)))
    with (Z.of_nat (length binMessage) + 1 + Z.of_nat k + 128) by lia.
  exact Hk.
Qed.

Lemma sha256_chunks_total bits K st : exists st', Sha256.chunks bits K st = Ok st'.
Proof.
  unfold Sha256.chunks. apply for_loop_total. intros j s _.
  apply sha256_chunk_total.
Qed.

Lemma sha384_chunks_total bits K st : exists st', Sha384.chunks bits K st = Ok st'.
Proof.
  unfold Sha384.chunks. apply for_loop_total. intros j s _.
  apply sha384_chunk_total.
Qed.

Lemma sha256_length_check_silent padded :
  Z.of_nat (length padded) mod 512 = 0 -> Sha256.length_check padded = [].
Proof.
  intros H. unfold Sha256.length_check. rewrite u64_mod_512, H. reflexivity.
Qed.

Lemma sha384_length_check_silent padded :
  Z.of_nat (length padded) mod 1024 = 0 -> Sha384.length_check padded = [].
Proof.
  intros H. unfold Sha384.length_check. rewrite u64_mod_1024, H. reflexivity.
Qed.

(** C6.  For every message the padded message that [preProcessing] builds
    has a bit length that is a multiple of 512 for SHA-256 and of 1024 for
    SHA-384, so [processing] never writes its error message: [sha256] and
    [sha384] finish with nothing on [cerr]. *)
Theorem padded_length_is_a_multiple_of_the_block_size :
  forall message : list byte,
    let binMessage := fst (ShaH.TextToBinaryString message) in
    let messageBitLength := snd (ShaH.TextToBinaryString message) in
    (exists padded,
        Sha256.preProcessing messageBitLength binMessage = Ok padded /\
        Z.of_nat (length padded) mod 512 = 0 /\
        Sha256.length_check padded = []) /\
    (exists digest, Sha256.sha256_io message = Ok ([], digest)) /\
    (exists padded,
        Sha384.preProcessing messageBitLength binMessage = Ok padded /\
        Z.of_nat (length padded) mod 1024 = 0 /\
        Sha384.length_check padded = []) /\
    (exists digest, Sha384.sha384_io message = Ok ([], digest)).
Proof.
  intros message binMessage messageBitLength.
  assert (Hpair : ShaH.TextToBinaryString message = (binMessage, messageBitLength))
    by (subst binMessage messageBitLength; now destruct (ShaH.TextToBinaryString message)).
  assert (Hlen : messageBitLength = u64 (Z.of_nat (length binMessage))) by reflexivity.
  destruct (sha256_padded_length binMessage) as [p256 [Hp256 Hm256]].
  destruct (sha384_padded_length binMessage) as [p384 [Hp384 Hm384]].
  rewrite <- Hlen in Hp256, Hp384.
  repeat apply conj.
  - exists p256. auto using sha256_length_check_silent.
  - unfold Sha256.sha256_io. rewrite Hpair, Hp256. cbn [bind].
    unfold Sha256.processing.
    destruct (sha256_chunks_total p256 Sha256.K0
                (Sha256.initial Sha256.H0))
      as [st Hst].
    rewrite Hst. cbn [bind]. rewrite sha256_length_check_silent by assumption.
    eexists; reflexivity.
  - exists p384. auto using sha384_length_check_silent.
  - unfold Sha384.sha384_io. rewrite Hpair, Hp384. cbn [bind].
    unfold Sha384.processing.
    destruct (sha384_chunks_total p384 Sha384.K0
                (Sha384.initial Sha384.H0))
      as [st Hst].
    rewrite Hst. cbn [bind]. rewrite sha384_length_check_silent by assumption.
    eexists; reflexivity.
Qed.

(** * Length fields *)

Ltac eval_pow2 :=
  repeat match goal with
         | |- context [2 ^ ?e] =>
             let v := eval vm_compute in (2 ^ e) in change (2 ^ e) with v
         end.

Lemma md5_pad_zeros_stops :
  forall fuel paddedMessage,
    (exists k, (k < fuel)%nat /\
               (Z.of_nat (length paddedMessage) + Z.of_nat k) mod 64 = 56) ->
    exists k, (k < fuel)%nat /\
              Md5.pad_zeros fuel paddedMessage = Ok (paddedMessage ++ repeat 0 k) /\
              (Z.of_nat (length paddedMessage) + Z.of_nat k) mod 64 = 56.
Proof.
  induction fuel as [| fuel IH]; intros pm [k [Hk Hmod]]; [lia |].
  cbn [Md5.pad_zeros]. rewrite u64_mod_512.
  destruct (Z.eqb_spec ((Z.of_nat (length pm) * 8) mod 512) 448) as [E | E].
  - exists 0%nat. cbn [repeat]. rewrite app_nil_r.
    split; [lia |]. split; [reflexivity |].
    clear - E. Z.to_euclidean_division_equations. lia.
  - destruct k as [| k].
    + exfalso. apply E. clear - Hmod. Z.to_euclidean_division_equations. lia.
    + destruct (IH (pm ++ [0])) as [k2 [Hlt [Hrun Hk2]]].
      * exists k. split; [lia |]. rewrite length_app. cbn [length].
        now replace (Z.of_nat (length pm + 1) + Z.of_nat k)
          with (Z.of_nat (length pm) + Z.of_nat (S k)) by lia.
      * exists (S k2). rewrite Hrun, <- app_assoc.
        split; [lia |]. split; [reflexivity |].
        rewrite length_app in Hk2. cbn [length] in Hk2.
        now replace (Z.of_nat (length pm) + Z.of_nat (S k2))
          with (Z.of_nat (length pm + 1) + Z.of_nat k2) by lia.
Qed.

Lemma sha1_pad_zeros_eq fuel paddedMessage :
  Sha1.pad_zeros fuel paddedMessage = Md5.pad_zeros fuel paddedMessage.
Proof.
  revert paddedMessage. induction fuel as [| fuel IH]; intros pm; [reflexivity |].
  cbn [Sha1.pad_zeros Md5.pad_zeros]. rewrite IH. reflexivity.
Qed.

(** The zero fill of MD5 and SHA-1: [k] bytes after the marker, up to 56
    bytes modulo 64. *)
Lemma md5_zero_fill (message : list byte) :
  exists k,
    Md5.pad_zeros 64 (map byte_val message ++ [0x80])
    = Ok ((map byte_val message ++ [0x80]) ++ repeat 0 k) /\
    (Z.of_nat (length message) + 1 + Z.of_nat k) mod 64 = 56 /\
    (k < 64)%nat.
Proof.
  destruct (md5_pad_zeros_stops 64 (map byte_val message ++ [0x80]))
    as [k [Hlt [Hrun Hk]]].
  - rewrite length_app, length_map. cbn [length].
    exists (Z.to_nat ((56 - (Z.of_nat (length message) + 1)) mod 64)).
    pose proof (Z.mod_pos_bound (56 - (Z.of_nat (length message) + 1)) 64 eq_refl).
    split; [lia |]. rewrite Z2Nat.id by lia.
    replace (Z.of_nat (length message + 1)) with (Z.of_nat (length message) + 1) by lia.
    rewrite Z.add_mod_idemp_r by lia.
    replace (Z.of_nat (length message) + 1 + (56 - (Z.of_nat (length message) + 1)))
      with 56 by ring.
    reflexivity.
  - exists k. split; [exact Hrun |]. split; [| exact Hlt].
    rewrite length_app, length_map in Hk. cbn [length] in Hk.
    now replace (Z.of_nat (length message) + 1 + Z.of_nat k)
      with (Z.of_nat (length message + 1) + Z.of_nat k) by lia.
Qed.

Lemma byte_of_word x i :
  0 <= i -> Z.land (Z.shiftr x (i * 8)) 0xFF = (x / 2 ^ (i * 8)) mod 256.
Proof.
  intros Hi. change 0xFF with (Z.ones 8).
  rewrite Z.land_ones, Z.shiftr_div_pow2 by lia. reflexivity.
Qed.

Lemma md5_length_field_value bits :
  0 <= bits < 2 ^ 64 -> le_value (Md5.length_field bits) = bits.
Proof.
  intros Hb. unfold Md5.length_field, le_value. cbn [map fold_right].
  rewrite !byte_of_word by lia. eval_pow2. change (2 ^ 64) with 18446744073709551616 in Hb.
  Z.to_euclidean_division_equations. lia.
Qed.

Lemma sha1_length_field_value bits :
  0 <= bits < 2 ^ 64 -> be_value (Sha1.length_field bits) = bits.
Proof.
  intros Hb. unfold Sha1.length_field, be_value. cbn [map fold_left].
  rewrite !byte_of_word by lia. eval_pow2. change (2 ^ 64) with 18446744073709551616 in Hb.
  Z.to_euclidean_division_equations. lia.
Qed.

Lemma length_bit_testbit len i :
  0 <= i -> Sha256.length_bit len i = Z.testbit len i.
Proof.
  intros Hi. unfold Sha256.length_bit.
  change 1 with (Z.ones 1) at 1. rewrite Z.land_ones by lia.
  change (2 ^ 1) with 2.
  rewrite <- Z.bit0_mod, Z.shiftr_spec by lia. cbn [Z.add].
  now destruct (Z.testbit len i).
Qed.

Lemma sha384_length_bit_eq len i : Sha384.length_bit len i = Sha256.length_bit len i.
Proof. reflexivity. Qed.

Lemma bits_value_from (field : list bool) :
  forall acc,
    fold_left (fun acc b => 2 * acc + Z.b2z b) field acc
    = acc * 2 ^ Z.of_nat (length field) + bits_value field.
Proof.
  unfold bits_value.
  induction field as [| b field IH]; intros acc.
  - cbn. lia.
  - cbn [fold_left length]. rewrite IH, (IH (2 * 0 + Z.b2z b)).
    rewrite Nat2Z.inj_succ, Z.pow_succ_r by lia. ring.
Qed.

Lemma bits_value_app (hi lo : list bool) :
  bits_value (hi ++ lo) = bits_value hi * 2 ^ Z.of_nat (length lo) + bits_value lo.
Proof.
  unfold bits_value at 1. rewrite fold_left_app.
  rewrite bits_value_from. reflexivity.
Qed.

(** The low [n] bits of a number, most significant first, denote the
    number modulo [2 ^ n]. *)
Lemma bits_value_testbits (x : Z) :
  forall n : nat,
    bits_value (map (fun i => Z.testbit x (Z.of_nat i)) (rev (seq 0 n)))
    = x mod 2 ^ Z.of_nat n.
Proof.
  induction n as [| n IH].
  - cbn. now rewrite Z.mod_1_r.
  - rewrite seq_S, rev_app_distr. cbn [rev app map Nat.add].
    change (?b :: ?l) with ([b] ++ l). rewrite bits_value_app, IH.
    rewrite length_map, length_rev, length_seq.
    cbn [bits_value fold_left]. rewrite Z.mul_0_r, Z.add_0_l.
    rewrite Z.testbit_spec' by lia.
    rewrite Nat2Z.inj_succ, Z.pow_succ_r by lia.
    rewrite (Z.mul_comm 2), Z.rem_mul_r by lia. ring.
Qed.

Lemma sha256_length_bits_value len :
  0 <= len < 2 ^ 64 -> bits_value (Sha256.length_bits len) = len.
Proof.
  intros Hlen. unfold Sha256.length_bits.
  rewrite (map_ext _ (fun i => Z.testbit len (Z.of_nat i)))
    by (intros i; apply length_bit_testbit; lia).
  rewrite bits_value_testbits. apply Z.mod_small. exact Hlen.
Qed.

Lemma bits_value_zeros n : bits_value (repeat false n) = 0.
Proof.
  induction n as [| n IH]; [reflexivity |].
  cbn [repeat]. change (?b :: ?l) with ([b] ++ l).
  rewrite bits_value_app, IH. cbn. lia.
Qed.

(** The 128-bit field of SHA-384: 64 bits 0, then the field of SHA-256. *)
Lemma sha384_length_bits_split len :
  Sha384.length_bits len = repeat false 64 ++ Sha256.length_bits len.
Proof.
  unfold Sha384.length_bits, Sha256.length_bits.
  change (seq 0 128) with (seq 0 64 ++ seq 64 64).
  rewrite rev_app_distr, map_app. f_equal.
Qed.

Lemma sha384_length_bits_value len :
  0 <= len < 2 ^ 64 -> bits_value (Sha384.length_bits len) = len.
Proof.
  intros Hlen. rewrite sha384_length_bits_split, bits_value_app.
  rewrite bits_value_zeros, sha256_length_bits_value by assumption. lia.
Qed.

Lemma TextToBinaryString_length (words : list byte) :
  length (fst (ShaH.TextToBinaryString words)) = (8 * length words)%nat.
Proof.
  unfold ShaH.TextToBinaryString. cbn [fst].
  induction words as [| c words IH]; [reflexivity |].
  cbn [flat_map]. rewrite length_app, IH. cbn [map length]. lia.
Qed.

Lemma le_bytes_range n w : Forall (fun b => 0 <= b < 256) (le_bytes n w).
Proof.
  unfold le_bytes. apply Forall_forall. intros b Hb.
  apply in_map_iff in Hb. destruct Hb as [i [<- _]].
  apply Z.mod_pos_bound. reflexivity.
Qed.

Lemma be_bytes_range n w : Forall (fun b => 0 <= b < 256) (be_bytes n w).
Proof. unfold be_bytes. apply Forall_rev, le_bytes_range. Qed.

Lemma md5_length_field_bytes bits : Md5.length_field bits = le_bytes 8 bits.
Proof.
  unfold Md5.length_field, le_bytes. cbn [seq map].
  rewrite !byte_of_word by lia. reflexivity.
Qed.

Lemma sha1_length_field_bytes bits : Sha1.length_field bits = be_bytes 8 bits.
Proof.
  unfold Sha1.length_field, be_bytes, le_bytes. cbn [seq map rev app].
  rewrite !byte_of_word by lia. reflexivity.
Qed.

(** C5.  For every message, each padded message ends with the length
    field: the message, the marker, zero fill, then the field, which
    closes the last block.  The field holds the length of the message in
    bits as the 64-bit counter of the programs has it: for MD5 its eight
    bytes, least significant first; for SHA-1 its eight bytes, most
    significant first; for SHA-256 its 64 bits, most significant first;
    and for SHA-384 128 bits, most significant first, whose upper 64 are
    zero. *)
Theorem length_field_format (message : list byte) :
  (exists k field,
      Md5.padding message
      = Ok ((map byte_val message ++ [0x80]) ++ repeat 0 k ++ field) /\
      length field = 8%nat /\
      Z.of_nat (length ((map byte_val message ++ [0x80]) ++ repeat 0 k ++ field)) mod 64 = 0 /\
      field = le_bytes 8 (u64 (8 * Z.of_nat (length message))) /\
      Forall (fun b => 0 <= b < 256) field /\
      le_value field = u64 (8 * Z.of_nat (length message))) /\
  (exists k field,
      Sha1.padding message
      = Ok ((map byte_val message ++ [0x80]) ++ repeat 0 k ++ field) /\
      length field = 8%nat /\
      Z.of_nat (length ((map byte_val message ++ [0x80]) ++ repeat 0 k ++ field)) mod 64 = 0 /\
      field = be_bytes 8 (u64 (8 * Z.of_nat (length message))) /\
      Forall (fun b => 0 <= b < 256) field /\
      be_value field = u64 (8 * Z.of_nat (length message))) /\
  (exists k field,
      Sha256.preProcessing (snd (ShaH.TextToBinaryString message))
                           (fst (ShaH.TextToBinaryString message))
      = Ok ((fst (ShaH.TextToBinaryString message) ++ [true]) ++ repeat false k ++ field) /\
      length field = 64%nat /\
      Z.of_nat (length ((fst (ShaH.TextToBinaryString message) ++ [true])
                          ++ repeat false k ++ field)) mod 512 = 0 /\
      bits_value field = u64 (8 * Z.of_nat (length message))) /\
  (exists k field,
      Sha384.preProcessing (snd (ShaH.TextToBinaryString message))
                           (fst (ShaH.TextToBinaryString message))
      = Ok ((fst (ShaH.TextToBinaryString message) ++ [true]) ++ repeat false k ++ field) /\
      length field = 128%nat /\
      Z.of_nat (length ((fst (ShaH.TextToBinaryString message) ++ [true])
                          ++ repeat false k ++ field)) mod 1024 = 0 /\
      firstn 64 field = repeat false 64 /\
      bits_value field = u64 (8 * Z.of_nat (length message))).
Proof.
  assert (Hbits : u64 (Z.of_nat (length message) * 8)
                  = u64 (8 * Z.of_nat (length message)))
    by (now rewrite Z.mul_comm).
  assert (Hrange : 0 <= u64 (8 * Z.of_nat (length message)) < 2 ^ 64)
    by (unfold u64; apply Z.mod_pos_bound; reflexivity).
  pose proof (TextToBinaryString_length message) as Hlen.
  assert (Hsnd : snd (ShaH.TextToBinaryString message)
                 = u64 (Z.of_nat (length (fst (ShaH.TextToBinaryString message)))))
    by reflexivity.
  assert (Hmbl : snd (ShaH.TextToBinaryString message)
                 = u64 (8 * Z.of_nat (length message))).
  { rewrite Hsnd, Hlen. f_equal. lia. }
  repeat apply conj.
  - destruct (md5_zero_fill message) as [k [Hrun [Hk _]]].
    exists k, (Md5.length_field (u64 (8 * Z.of_nat (length message)))).
    unfold Md5.padding, Md5.originalLengthBits.
    rewrite Hrun, Hbits. cbn [bind]. rewrite <- app_assoc.
    repeat apply conj;
      [reflexivity | reflexivity | | apply md5_length_field_bytes
      | rewrite md5_length_field_bytes; apply le_bytes_range
      | now apply md5_length_field_value].
    rewrite !length_app, length_map, repeat_length. cbn [length Md5.length_field map].
    clear - Hk. Z.to_euclidean_division_equations. lia.
  - destruct (md5_zero_fill message) as [k [Hrun [Hk _]]].
    exists k, (Sha1.length_field (u64 (8 * Z.of_nat (length message)))).
    unfold Sha1.padding, Sha1.originalLengthBits.
    rewrite sha1_pad_zeros_eq, Hrun, Hbits. cbn [bind]. rewrite <- app_assoc.
    repeat apply conj;
      [reflexivity | reflexivity | | apply sha1_length_field_bytes
      | rewrite sha1_length_field_bytes; apply be_bytes_range
      | now apply sha1_length_field_value].
    rewrite !length_app, length_map, repeat_length. cbn [length Sha1.length_field map].
    clear - Hk. Z.to_euclidean_division_equations. lia.
  - destruct (sha256_preProcessing_shape (fst (ShaH.TextToBinaryString message)))
      as [k [Hrun Hk]].
    exists k, (Sha256.length_bits (u64 (8 * Z.of_nat (length message)))).
    rewrite <- Hsnd, Hmbl in Hrun. rewrite Hmbl.
    repeat apply conj;
      [exact Hrun | apply sha256_length_bits_length |
      | now apply sha256_length_bits_value].
    rewrite !length_app, repeat_length, sha256_length_bits_length. cbn [length].
    clear - Hk. Z.to_euclidean_division_equations. lia.
  - destruct (sha384_preProcessing_shape (fst (ShaH.TextToBinaryString message)))
      as [k [Hrun Hk]].
    exists k, (Sha384.length_bits (u64 (8 * Z.of_nat (length message)))).
    rewrite <- Hsnd, Hmbl in Hrun. rewrite Hmbl.
    repeat apply conj;
      [exact Hrun | apply sha384_length_bits_length | | reflexivity
      | now apply sha384_length_bits_value].
    rewrite !length_app, repeat_length, sha384_length_bits_length. cbn [length].
    clear - Hk. Z.to_euclidean_division_equations. lia.
Qed.

(** * The programs yield a digest on every message *)

Lemma md5_chunks_total :
  forall fuel paddedMessage i st,
    Z.of_nat (length paddedMessage) - i <= 64 * Z.of_nat fuel ->
    exists st', Md5.chunks fuel paddedMessage i st = Ok st'.
Proof.
  induction fuel as [| fuel IH]; intros pm i st Hfuel.
  - cbn [Md5.chunks]. destruct (Z.ltb_spec i (Z.of_nat (length pm))); [lia |].
    now exists st.
  - cbn [Md5.chunks]. destruct (Z.ltb_spec i (Z.of_nat (length pm))).
    + apply bind_total; [apply md5_chunk_total |].
      intros st'. apply IH. lia.
    + now exists st.
Qed.

Lemma md5_state_total message : exists st, Md5.md5_state message = Ok st.
Proof.
  unfold Md5.md5_state, Md5.padding.
  destruct (md5_zero_fill message) as [k [Hrun _]]. rewrite Hrun. cbn [bind].
  apply md5_chunks_total. lia.
Qed.

Lemma add32_in32 x y : in32 (add32 x y).
Proof. unfold in32, add32, u32. apply Z.mod_pos_bound. reflexivity. Qed.

Lemma sha1_chunk_in32 paddedMessage i st st' :
  Sha1.chunk paddedMessage i st = Ok st' -> sha1_state_in32 st'.
Proof.
  unfold Sha1.chunk.
  destruct (Sha1.schedule (Sha1.decode paddedMessage i)) as [w | e];
    cbn [bind]; [| discriminate].
  destruct st as [[[[h0 h1] h2] h3] h4].
  destruct (for_loop (Sha1.round w) 0 80 (h0, h1, h2, h3, h4))
    as [[[[[a b] c] d] e] | e]; cbn [bind]; [| discriminate].
  intros H. injection H as <-. cbn. auto using add32_in32.
Qed.

Lemma sha1_chunks_total :
  forall fuel paddedMessage i st,
    Z.of_nat (length paddedMessage) - i <= 64 * Z.of_nat fuel ->
    sha1_state_in32 st ->
    exists st', Sha1.chunks fuel paddedMessage i st = Ok st' /\ sha1_state_in32 st'.
Proof.
  induction fuel as [| fuel IH]; intros pm i st Hfuel Hst.
  - cbn [Sha1.chunks]. destruct (Z.ltb_spec i (Z.of_nat (length pm))); [lia |].
    now exists st.
  - cbn [Sha1.chunks]. destruct (Z.ltb_spec i (Z.of_nat (length pm))).
    + destruct (sha1_chunk_total pm i st) as [st1 Hst1]. rewrite Hst1. cbn [bind].
      apply IH; [lia |]. eapply sha1_chunk_in32; eassumption.
    + now exists st.
Qed.

Lemma sha1_state_total message :
  exists st, Sha1.sha1_state message = Ok st /\ sha1_state_in32 st.
Proof.
  unfold Sha1.sha1_state, Sha1.padding.
  destruct (md5_zero_fill message) as [k [Hrun _]].
  rewrite sha1_pad_zeros_eq, Hrun. cbn [bind].
  apply sha1_chunks_total; [lia |].
  cbn. unfold in32. repeat split; lia.
Qed.

(** * Formatting *)

Lemma fixed_hex_zero k : fixed_hex k 0 = repeat "0"%char k.
Proof.
  induction k as [| k IH]; [reflexivity |].
  cbn [fixed_hex]. change (0 / 16) with 0. rewrite IH.
  change [hex_digit (0 mod 16)] with (repeat "0"%char 1).
  rewrite <- repeat_app. f_equal. lia.
Qed.

Lemma setw_snoc w fill s c :
  setw (S w) fill (s ++ [c]) = setw w fill s ++ [c].
Proof.
  unfold setw. rewrite length_app, app_assoc. cbn [length]. do 3 f_equal. lia.
Qed.

(** A number below [16 ^ k], printed in a zero-filled field of [k]
    characters, shows its [k] digits. *)
Lemma setw_hex_digits :
  forall k fuel n,
    (1 <= k <= fuel)%nat -> 0 <= n < 16 ^ Z.of_nat k ->
    setw k "0"%char (hex_digits fuel n) = fixed_hex k n.
Proof.
  induction k as [| k IH]; intros fuel n Hk Hn; [lia |].
  destruct fuel as [| fuel]; [lia |].
  cbn [hex_digits fixed_hex].
  destruct (Z.ltb_spec n 16) as [Hsmall | Hbig].
  - rewrite Z.div_small, Z.mod_small, fixed_hex_zero by lia.
    unfold setw. cbn [length]. do 2 f_equal. lia.
  - rewrite setw_snoc. f_equal.
    assert (Hdiv : 0 <= n / 16 < 16 ^ Z.of_nat k).
    { rewrite Nat2Z.inj_succ, Z.pow_succ_r in Hn by lia.
      split; [apply Z.div_pos; lia |].
      apply Z.div_lt_upper_bound; lia. }
    apply IH; [| exact Hdiv].
    destruct k as [| k]; [| lia].
    change (16 ^ Z.of_nat 1) with 16 in Hn. lia.
Qed.

Lemma md5_print_byte b : 0 <= b < 256 -> Md5.print_byte b = hex_byte b.
Proof.
  intros Hb. unfold Md5.print_byte, put_hex.
  rewrite setw_hex_digits by (try lia; change (16 ^ Z.of_nat 2) with 256; lia).
  cbn [fixed_hex app]. unfold hex_byte. do 2 f_equal.
  rewrite Z.mod_small; [reflexivity |].
  split; [apply Z.div_pos; lia | apply Z.div_lt_upper_bound; lia].
Qed.

Lemma md5_word_bytes w : Md5.word_bytes w = le_bytes 4 w.
Proof.
  unfold Md5.word_bytes, le_bytes. cbn [seq map].
  rewrite !(Z.mul_comm 8), !byte_of_word by lia. reflexivity.
Qed.

Lemma flat_map_ext_Forall {A B : Type} (P : A -> Prop) (f g : A -> list B) l :
  Forall P l -> (forall x, P x -> f x = g x) -> flat_map f l = flat_map g l.
Proof.
  intros Hl Hfg. induction Hl as [| x l Hx _ IH]; [reflexivity |].
  cbn [flat_map]. now rewrite IH, Hfg.
Qed.

Lemma md5_print_word w :
  flat_map Md5.print_byte (Md5.word_bytes w) = flat_map hex_byte (le_bytes 4 w).
Proof.
  rewrite md5_word_bytes.
  eapply flat_map_ext_Forall; [apply le_bytes_range | apply md5_print_byte].
Qed.

Lemma md5_output_render a b c d :
  string_of_list_ascii (Md5.output (a, b, c, d))
  = render (flat_map (le_bytes 4) [a; b; c; d]).
Proof.
  unfold render, Md5.output. f_equal.
  cbn [flat_map]. rewrite !flat_map_app, !md5_print_word. reflexivity.
Qed.

Ltac eval_pow :=
  repeat match goal with
         | |- context [?b ^ ?e] =>
             let v := eval vm_compute in (b ^ e) in
             lazymatch v with
             | Zpos _ => change (b ^ e) with v
             end
         end.

(** Compare two lists of digits item by item. *)
Ltac digits_eq :=
  repeat (apply (f_equal2 cons); [apply (f_equal hex_digit) |]);
  try reflexivity.

Lemma sha1_print_word w :
  in32 w -> Sha1.print_word w = flat_map hex_byte (be_bytes 4 w).
Proof.
  intros Hw. unfold Sha1.print_word, put_hex.
  rewrite setw_hex_digits by (try lia; exact Hw).
  cbn [fixed_hex app be_bytes le_bytes seq map rev flat_map hex_byte].
  digits_eq; eval_pow; Z.to_euclidean_division_equations; lia.
Qed.

Lemma sha1_output_render h0 h1 h2 h3 h4 :
  sha1_state_in32 (h0, h1, h2, h3, h4) ->
  string_of_list_ascii (Sha1.output (h0, h1, h2, h3, h4))
  = render (flat_map (be_bytes 4) [h0; h1; h2; h3; h4]).
Proof.
  intros [H0 [H1 [H2 [H3 H4]]]]. unfold render, Sha1.output. f_equal.
  cbn [flat_map]. rewrite !flat_map_app, !sha1_print_word by assumption.
  reflexivity.
Qed.

Lemma nibble_eq bits i :
  ShaH.nibble bits i
  = nib (ShaH.bit_at bits (i + 0)) (ShaH.bit_at bits (i + 1))
        (ShaH.bit_at bits (i + 2)) (ShaH.bit_at bits (i + 3)).
Proof.
  unfold ShaH.nibble. cbn [fold_left].
  destruct (ShaH.bit_at bits (i + 0)), (ShaH.bit_at bits (i + 1)),
    (ShaH.bit_at bits (i + 2)), (ShaH.bit_at bits (i + 3)); reflexivity.
Qed.

Lemma nib_range b3 b2 b1 b0 : 0 <= nib b3 b2 b1 b0 < 16.
Proof. destruct b3, b2, b1, b0; cbn; lia. Qed.

Lemma put_hex_digit v : 0 <= v < 16 -> put_hex v = [hex_digit v].
Proof.
  intros Hv. unfold put_hex. cbn [hex_digits].
  destruct (Z.ltb_spec v 16); [reflexivity | lia].
Qed.

Lemma flat_map_singleton {A B : Type} (f : A -> B) (l : list A) :
  flat_map (fun x => [f x]) l = map f l.
Proof. induction l as [| x l IH]; [reflexivity |]. cbn. now rewrite IH. Qed.

Lemma flat_map_flat_map {A B C : Type} (f : A -> list B) (g : B -> list C) l :
  flat_map g (flat_map f l) = flat_map (fun x => flat_map g (f x)) l.
Proof.
  induction l as [| x l IH]; [reflexivity |].
  cbn [flat_map]. now rewrite flat_map_app, IH.
Qed.

Lemma rev_seq (n : nat) : rev (seq 0 n) = map (fun q => (n - 1 - q)%nat) (seq 0 n).
Proof.
  induction n as [| n IH]; [reflexivity |].
  rewrite seq_S at 1. rewrite rev_app_distr. cbn [rev app Nat.add].
  cbn [seq map]. f_equal; [lia |].
  rewrite IH, <- seq_shift, map_map. apply map_ext. intros q. lia.
Qed.

Lemma seq_from (s n : nat) : seq s n = map (fun q => (s + q)%nat) (seq 0 n).
Proof.
  induction s as [| s IH].
  - cbn. now rewrite map_id.
  - rewrite <- seq_shift, IH, map_map. reflexivity.
Qed.

Lemma bitsetToHex_digits bits (n : nat) :
  ShaH.bitsetToHex bits (4 * Z.of_nat n) = hex_of_bits bits n.
Proof.
  unfold ShaH.bitsetToHex, hex_of_bits.
  rewrite (Z.mul_comm 4), Z.div_mul, Nat2Z.id by lia.
  rewrite (flat_map_ext _ (fun i => [hex_digit (ShaH.nibble bits i)])).
  2:{ intros i. apply put_hex_digit. rewrite nibble_eq. apply nib_range. }
  rewrite flat_map_singleton, <- map_rev, <- map_rev, rev_seq, !map_map.
  apply map_ext_in. intros q Hq. apply in_seq in Hq. do 2 f_equal. lia.
Qed.

Lemma bit_at_app1 (b1 b2 : list bool) (i : Z) :
  0 <= i < Z.of_nat (length b1) ->
  ShaH.bit_at (b1 ++ b2) i = ShaH.bit_at b1 i.
Proof. intros Hi. unfold ShaH.bit_at. apply app_nth1. lia. Qed.

Lemma bit_at_app2 (b1 b2 : list bool) (i : Z) :
  0 <= i ->
  ShaH.bit_at (b1 ++ b2) (Z.of_nat (length b1) + i) = ShaH.bit_at b2 i.
Proof.
  intros Hi. unfold ShaH.bit_at.
  replace (Z.to_nat (Z.of_nat (length b1) + i)) with (length b1 + Z.to_nat i)%nat by lia.
  apply app_nth2_plus.
Qed.

Lemma hex_of_bits_app (b1 b2 : list bool) (n1 n2 : nat) :
  length b1 = (4 * n1)%nat ->
  hex_of_bits (b1 ++ b2) (n1 + n2) = hex_of_bits b1 n1 ++ hex_of_bits b2 n2.
Proof.
  intros Hlen. unfold hex_of_bits.
  rewrite seq_app, map_app. cbn [Nat.add]. f_equal.
  - apply map_ext_in. intros q Hq. apply in_seq in Hq.
    rewrite !nibble_eq, !bit_at_app1 by lia. reflexivity.
  - rewrite (seq_from n1), map_map. apply map_ext. intros q.
    rewrite !nibble_eq.
    replace (4 * Z.of_nat (n1 + q)) with (Z.of_nat (length b1) + 4 * Z.of_nat q) by lia.
    rewrite <- !Z.add_assoc, !bit_at_app2 by lia. reflexivity.
Qed.

Lemma hex_of_bits_words (word_bits : Z -> list bool) (d : nat) (ws : list Z) :
  (forall x, length (word_bits x) = (4 * d)%nat) ->
  hex_of_bits (flat_map word_bits ws) (d * length ws)
  = flat_map (fun x => hex_of_bits (word_bits x) d) ws.
Proof.
  intros Hlen. induction ws as [| x ws IH].
  - rewrite Nat.mul_0_r. reflexivity.
  - cbn [flat_map length].
    replace (d * S (length ws))%nat with (d + d * length ws)%nat by lia.
    rewrite hex_of_bits_app by apply Hlen. now rewrite IH.
Qed.

Lemma nib_testbits x k :
  0 <= k ->
  nib (Z.testbit x (k + 3)) (Z.testbit x (k + 2)) (Z.testbit x (k + 1)) (Z.testbit x k)
  = (x / 2 ^ k) mod 16.
Proof.
  intros Hk. unfold nib. rewrite !Z.testbit_spec' by lia.
  rewrite !Z.pow_add_r by lia. rewrite <- !Z.div_div by lia.
  eval_pow. generalize (x / 2 ^ k). intros y.
  Z.to_euclidean_division_equations. lia.
Qed.

Lemma word_bit_testbit x j :
  0 <= j -> negb (Z.land (Z.shiftr x j) 1 =? 0) = Z.testbit x j.
Proof. intros Hj. apply (length_bit_testbit x j Hj). Qed.

Lemma sha256_bit_at_word_bits x p :
  0 <= p < 32 -> ShaH.bit_at (Sha256.word_bits x) p = Z.testbit x (31 - p).
Proof.
  intros Hp. unfold ShaH.bit_at, Sha256.word_bits.
  set (f := fun j : nat => negb (Z.land (Z.shiftr x (Z.of_nat j)) 1 =? 0)).
  rewrite (nth_indep _ false (f 0%nat))
    by (rewrite length_map, length_rev, length_seq; lia).
  rewrite map_nth, rev_nth by (rewrite length_seq; lia).
  rewrite length_seq, seq_nth by lia.
  subst f. cbv beta. rewrite word_bit_testbit by lia. f_equal. lia.
Qed.

Lemma sha384_bit_at_word_bits x p :
  0 <= p < 64 -> ShaH.bit_at (Sha384.word_bits x) p = Z.testbit x (63 - p).
Proof.
  intros Hp. unfold ShaH.bit_at, Sha384.word_bits.
  set (f := fun j : nat => negb (Z.land (Z.shiftr x (Z.of_nat j)) 1 =? 0)).
  rewrite (nth_indep _ false (f 0%nat))
    by (rewrite length_map, length_rev, length_seq; lia).
  rewrite map_nth, rev_nth by (rewrite length_seq; lia).
  rewrite length_seq, seq_nth by lia.
  subst f. cbv beta. rewrite word_bit_testbit by lia. f_equal. lia.
Qed.

(** The digit at place [m] of a word, counted from the most significant. *)
Lemma sha256_nibble_of_word x m :
  0 <= m < 8 ->
  ShaH.nibble (Sha256.word_bits x) (4 * m) = (x / 2 ^ (28 - 4 * m)) mod 16.
Proof.
  intros Hm. rewrite nibble_eq, !sha256_bit_at_word_bits by lia.
  rewrite <- (nib_testbits x (28 - 4 * m)) by lia.
  f_equal; f_equal; lia.
Qed.

Lemma sha384_nibble_of_word x m :
  0 <= m < 16 ->
  ShaH.nibble (Sha384.word_bits x) (4 * m) = (x / 2 ^ (60 - 4 * m)) mod 16.
Proof.
  intros Hm. rewrite nibble_eq, !sha384_bit_at_word_bits by lia.
  rewrite <- (nib_testbits x (60 - 4 * m)) by lia.
  f_equal; f_equal; lia.
Qed.

Lemma sha256_word_digits x :
  hex_of_bits (Sha256.word_bits x) 8 = flat_map hex_byte (be_bytes 4 x).
Proof.
  unfold hex_of_bits.
  cbn [seq map be_bytes le_bytes rev app flat_map hex_byte].
  rewrite !sha256_nibble_of_word by lia.
  digits_eq; eval_pow; Z.to_euclidean_division_equations; lia.
Qed.

Lemma sha384_word_digits x :
  hex_of_bits (Sha384.word_bits x) 16 = flat_map hex_byte (be_bytes 8 x).
Proof.
  unfold hex_of_bits.
  cbn [seq map be_bytes le_bytes rev app flat_map hex_byte].
  rewrite !sha384_nibble_of_word by lia.
  digits_eq; eval_pow; Z.to_euclidean_division_equations; lia.
Qed.

Lemma sha256_word_bits_length x : length (Sha256.word_bits x) = (4 * 8)%nat.
Proof. unfold Sha256.word_bits. now rewrite length_map, length_rev, length_seq. Qed.

Lemma sha384_word_bits_length x : length (Sha384.word_bits x) = (4 * 16)%nat.
Proof. unfold Sha384.word_bits. now rewrite length_map, length_rev, length_seq. Qed.

Lemma sha256_digest_render t0 t1 t2 t3 t4 t5 t6 t7 :
  string_of_list_ascii
    (ShaH.bitsetToHex
       (firstn 256 (Sha256.digest_bits (t0, t1, t2, t3, t4, t5, t6, t7))) 256)
  = render (flat_map (be_bytes 4) [t0; t1; t2; t3; t4; t5; t6; t7]).
Proof.
  unfold render, Sha256.digest_bits. f_equal.
  rewrite firstn_all2
    by (cbn [flat_map]; rewrite !length_app, !sha256_word_bits_length; cbn; lia).
  change 256 with (4 * Z.of_nat (8 * length [t0; t1; t2; t3; t4; t5; t6; t7])).
  rewrite bitsetToHex_digits, hex_of_bits_words by apply sha256_word_bits_length.
  rewrite flat_map_flat_map. apply flat_map_ext. intros x. apply sha256_word_digits.
Qed.

Lemma sha384_digest_render t0 t1 t2 t3 t4 t5 t6 t7 :
  string_of_list_ascii
    (ShaH.bitsetToHex
       (firstn 384 (Sha384.digest_bits (t0, t1, t2, t3, t4, t5, t6, t7))) 384)
  = render (flat_map (be_bytes 8) [t0; t1; t2; t3; t4; t5]).
Proof.
  unfold render, Sha384.digest_bits. f_equal.
  rewrite firstn_all2
    by (cbn [flat_map]; rewrite !length_app, !sha384_word_bits_length; cbn; lia).
  change 384 with (4 * Z.of_nat (16 * length [t0; t1; t2; t3; t4; t5])).
  rewrite bitsetToHex_digits, hex_of_bits_words by apply sha384_word_bits_length.
  rewrite flat_map_flat_map. apply flat_map_ext. intros x. apply sha384_word_digits.
Qed.

Lemma string_of_list_ascii_length l :
  String.length (string_of_list_ascii l) = length l.
Proof. induction l as [| c l IH]; [reflexivity |]. cbn. now rewrite IH. Qed.

Lemma render_length bytes : String.length (render bytes) = (2 * length bytes)%nat.
Proof.
  unfold render. rewrite string_of_list_ascii_length.
  induction bytes as [| b bytes IH]; [reflexivity |].
  cbn [flat_map length hex_byte app]. rewrite IH. lia.
Qed.

Lemma hex_digit_lower v : 0 <= v < 16 -> is_lower_hex (hex_digit v) = true.
Proof.
  intros Hv.
  assert (Hall : forallb (fun v => is_lower_hex (hex_digit v))
                         (map Z.of_nat (seq 0 16)) = true) by (vm_compute; reflexivity).
  rewrite forallb_forall in Hall. apply Hall. apply (below_in_seq 16). lia.
Qed.

Lemma render_lower_hex bytes :
  Forall (fun b => 0 <= b < 256) bytes -> lower_hex (render bytes) = true.
Proof.
  intros Hb. unfold lower_hex, render.
  rewrite list_ascii_of_string_of_list_ascii.
  induction Hb as [| b bytes Hb _ IH]; [reflexivity |].
  cbn [flat_map hex_byte app forallb]. rewrite IH, !hex_digit_lower; [reflexivity | |].
  - pose proof (Z.mod_pos_bound b 16 eq_refl). lia.
  - split; [apply Z.div_pos; lia | apply Z.div_lt_upper_bound; lia].
Qed.

Lemma words_bytes_range (f : Z -> list Z) (ws : list Z) :
  (forall w, Forall (fun b => 0 <= b < 256) (f w)) ->
  Forall (fun b => 0 <= b < 256) (flat_map f ws).
Proof.
  intros Hf. apply Forall_flat_map. apply Forall_forall. intros w _. apply Hf.
Qed.

(** C8.  On every message each program prints the words of its final
    state, byte by byte, every byte as two lowercase hexadecimal digits
    and nothing between them: the four words of MD5 least significant byte
    first (32 characters), the five words of SHA-1 and the eight words of
    SHA-256 most significant byte first (40 and 64 characters), and the
    first six 64-bit words of SHA-384 most significant byte first (96
    characters). *)
Theorem digest_format (message : list byte) :
  (exists a b c d digest,
      Md5.md5_state message = Ok (a, b, c, d) /\
      Md5.md5 message = Ok digest /\
      digest = render (flat_map (le_bytes 4) [a; b; c; d]) /\
      String.length digest = 32%nat /\ lower_hex digest = true) /\
  (exists h0 h1 h2 h3 h4 digest,
      Sha1.sha1_state message = Ok (h0, h1, h2, h3, h4) /\
      Sha1.sha1 message = Ok digest /\
      digest = render (flat_map (be_bytes 4) [h0; h1; h2; h3; h4]) /\
      String.length digest = 40%nat /\ lower_hex digest = true) /\
  (exists t0 t1 t2 t3 t4 t5 t6 t7 digest,
      Sha256.sha256_state message = Ok (t0, t1, t2, t3, t4, t5, t6, t7) /\
      Sha256.sha256 message = Ok digest /\
      digest = render (flat_map (be_bytes 4) [t0; t1; t2; t3; t4; t5; t6; t7]) /\
      String.length digest = 64%nat /\ lower_hex digest = true) /\
  (exists t0 t1 t2 t3 t4 t5 t6 t7 digest,
      Sha384.sha384_state message = Ok (t0, t1, t2, t3, t4, t5, t6, t7) /\
      Sha384.sha384 message = Ok digest /\
      digest = render (flat_map (be_bytes 8) [t0; t1; t2; t3; t4; t5]) /\
      String.length digest = 96%nat /\ lower_hex digest = true).
Proof.
  repeat apply conj.
  - destruct (md5_state_total message) as [[[[a b] c] d] Hst].
    exists a, b, c, d. eexists. split; [exact Hst |].
    unfold Md5.md5. rewrite Hst. cbn [bind]. rewrite md5_output_render.
    repeat apply conj; [reflexivity | reflexivity | apply render_length |].
    apply render_lower_hex, words_bytes_range. intros w. apply le_bytes_range.
  - destruct (sha1_state_total message) as [[[[[h0 h1] h2] h3] h4] [Hst Hin]].
    exists h0, h1, h2, h3, h4. eexists. split; [exact Hst |].
    unfold Sha1.sha1. rewrite Hst. cbn [bind]. rewrite sha1_output_render by exact Hin.
    repeat apply conj; [reflexivity | reflexivity | apply render_length |].
    apply render_lower_hex, words_bytes_range. intros w. apply be_bytes_range.
  - destruct (sha256_padded_length (fst (ShaH.TextToBinaryString message)))
      as [padded [Hpad Hmod]].
    destruct (sha256_chunks_total padded Sha256.K0 (Sha256.initial Sha256.H0))
      as [[[[[[[[t0 t1] t2] t3] t4] t5] t6] t7] Hst].
    exists t0, t1, t2, t3, t4, t5, t6, t7. eexists.
    unfold Sha256.sha256_state, Sha256.sha256, Sha256.sha256_io, Sha256.processing,
      res_map.
    destruct (ShaH.TextToBinaryString message) as [binMessage messageBitLength] eqn:E.
    cbn [fst] in Hpad.
    replace messageBitLength with (u64 (Z.of_nat (length binMessage)))
      by (unfold ShaH.TextToBinaryString in E; now injection E as <- <-).
    rewrite Hpad. cbn [bind]. rewrite Hst. cbn [bind snd].
    rewrite sha256_digest_render.
    repeat apply conj; [reflexivity | reflexivity | reflexivity | apply render_length |].
    apply render_lower_hex, words_bytes_range. intros w. apply be_bytes_range.
  - destruct (sha384_padded_length (fst (ShaH.TextToBinaryString message)))
      as [padded [Hpad Hmod]].
    destruct (sha384_chunks_total padded Sha384.K0 (Sha384.initial Sha384.H0))
      as [[[[[[[[t0 t1] t2] t3] t4] t5] t6] t7] Hst].
    exists t0, t1, t2, t3, t4, t5, t6, t7. eexists.
    unfold Sha384.sha384_state, Sha384.sha384, Sha384.sha384_io, Sha384.processing,
      res_map.
    destruct (ShaH.TextToBinaryString message) as [binMessage messageBitLength] eqn:E.
    cbn [fst] in Hpad.
    replace messageBitLength with (u64 (Z.of_nat (length binMessage)))
      by (unfold ShaH.TextToBinaryString in E; now injection E as <- <-).
    rewrite Hpad. cbn [bind]. rewrite Hst. cbn [bind snd].
    rewrite sha384_digest_render.
    repeat apply conj; [reflexivity | reflexivity | reflexivity | apply render_length |].
    apply render_lower_hex, words_bytes_range. intros w. apply be_bytes_range.
Qed.

(** * The two MD5 transforms agree *)

Lemma bind_assoc {A B C : Type} (m : res A) (f : A -> res B) (g : B -> res C) :
  bind (bind m f) g = bind m (fun a => bind (f a) g).
Proof. destruct m; reflexivity. Qed.

Lemma bind_cong {A B : Type} (m : res A) (k1 k2 : A -> res B) :
  (forall a, k1 a = k2 a) -> bind m k1 = bind m k2.
Proof. intros H. destruct m; cbn [bind]; [apply H | reflexivity]. Qed.

Lemma bind_ok {A B : Type} (a : A) (k : A -> res B) : bind (Ok a) k = k a.
Proof. reflexivity. Qed.

Lemma for_loop_S {St : Type} (body : Z -> St -> res St) lo n st :
  for_loop body lo (S n) st
  = bind (body lo st) (fun st' => for_loop body (lo + 1) n st').
Proof. reflexivity. Qed.

Lemma u32_add_u32 a x : u32 (a + u32 x) = u32 (a + x).
Proof. unfold u32. apply Z.add_mod_idemp_r. discriminate. Qed.

Section RoundAsStep.
Variables (M : list Z) (A B C D j : Z).

Lemma md5_round_as_STEP1 :
  0 <= j < 16 ->
  Md5.round M j (A, B, C, D)
  = bind (Md5Stream.STEP1 M A B C D j (at_ Md5.S j)) (fun r => Ok (D, r, B, C)).
Proof.
  intros Hj. unfold Md5.round, Md5Stream.STEP1.
  destruct (Z.ltb_spec j 16); [| lia].
  rewrite u32_add_u32.
  replace (A + (Md5Stream.F B C D + at_ M j + at_ Md5Stream.K j))
    with (A + Md5.F B C D + at_ Md5.K j + at_ M j)
    by (unfold Md5Stream.F, Md5Stream.K; ring).
  unfold Md5Stream.leftRotate. now rewrite bind_assoc.
Qed.

Lemma md5_round_as_STEP2 :
  16 <= j < 32 ->
  Md5.round M j (A, B, C, D)
  = bind (Md5Stream.STEP2 M A B C D ((5 * j + 1) mod 16) (at_ Md5.S j) j)
         (fun r => Ok (D, r, B, C)).
Proof.
  intros Hj. unfold Md5.round, Md5Stream.STEP2.
  destruct (Z.ltb_spec j 16); [lia |]. destruct (Z.ltb_spec j 32); [| lia].
  rewrite u32_add_u32.
  replace (A + (Md5Stream.G B C D + at_ M ((5 * j + 1) mod 16) + at_ Md5Stream.K j))
    with (A + Md5.G B C D + at_ Md5.K j + at_ M ((5 * j + 1) mod 16))
    by (unfold Md5Stream.G, Md5Stream.K; ring).
  unfold Md5Stream.leftRotate. now rewrite bind_assoc.
Qed.

Lemma md5_round_as_STEP3 :
  32 <= j < 48 ->
  Md5.round M j (A, B, C, D)
  = bind (Md5Stream.STEP3 M A B C D ((3 * j + 5) mod 16) (at_ Md5.S j) j)
         (fun r => Ok (D, r, B, C)).
Proof.
  intros Hj. unfold Md5.round, Md5Stream.STEP3.
  destruct (Z.ltb_spec j 16); [lia |]. destruct (Z.ltb_spec j 32); [lia |].
  destruct (Z.ltb_spec j 48); [| lia].
  rewrite u32_add_u32.
  replace (A + (Md5Stream.H B C D + at_ M ((3 * j + 5) mod 16) + at_ Md5Stream.K j))
    with (A + Md5.H B C D + at_ Md5.K j + at_ M ((3 * j + 5) mod 16))
    by (unfold Md5Stream.H, Md5Stream.K; ring).
  unfold Md5Stream.leftRotate. now rewrite bind_assoc.
Qed.

Lemma md5_round_as_STEP4 :
  48 <= j < 64 ->
  Md5.round M j (A, B, C, D)
  = bind (Md5Stream.STEP4 M A B C D ((7 * j) mod 16) (at_ Md5.S j) j)
         (fun r => Ok (D, r, B, C)).
Proof.
  intros Hj. unfold Md5.round, Md5Stream.STEP4.
  destruct (Z.ltb_spec j 16); [lia |]. destruct (Z.ltb_spec j 32); [lia |].
  destruct (Z.ltb_spec j 48); [lia |].
  rewrite u32_add_u32.
  replace (A + (Md5Stream.I B C D + at_ M ((7 * j) mod 16) + at_ Md5Stream.K j))
    with (A + Md5.I B C D + at_ Md5.K j + at_ M ((7 * j) mod 16))
    by (unfold Md5Stream.I, Md5Stream.K; ring).
  unfold Md5Stream.leftRotate. now rewrite bind_assoc.
Qed.
End RoundAsStep.

(** Turn the round at the head of the loop into its macro step and move
    on to the next one on both sides. *)
Ltac md5_lockstep :=
  rewrite for_loop_S;
  first [ rewrite md5_round_as_STEP1 by lia
        | rewrite md5_round_as_STEP2 by lia
        | rewrite md5_round_as_STEP3 by lia
        | rewrite md5_round_as_STEP4 by lia ];
  rewrite !bind_assoc;
  apply bind_cong; intro; rewrite bind_ok.

(** The unrolled [transform] of the streaming program computes what the
    round loop of [md5] computes on the same block. *)
Lemma md5_transform_is_chunk block st :
  Md5Stream.transform block st = Md5.chunk block 0 st.
Proof.
  destruct st as [[[a0 b0] c0] d0].
  unfold Md5Stream.transform, Md5.chunk.
  change (Md5Stream.decode block) with (Md5.decode block 0).
  generalize (Md5.decode block 0). intros M. cbv zeta.
  symmetry.
  do 64 md5_lockstep.
  reflexivity.
Qed.

(** * The streaming MD5 program against [md5] *)

Lemma md5_padding_closed message :
  Md5.padding message = Ok (md5_padded (Z.of_nat (length message)) message).
Proof.
  unfold Md5.padding, md5_padded, Md5.originalLengthBits.
  destruct (md5_zero_fill message) as [k [Hrun [Hk Hlt]]].
  rewrite Hrun. cbn [bind]. rewrite <- app_assoc.
  replace (zero_fill (length message)) with k; [reflexivity |].
  unfold zero_fill. clear Hrun. Z.to_euclidean_division_equations. lia.
Qed.

Lemma md5_chunk_skipn pm (i : nat) st :
  Md5.chunk pm (Z.of_nat i) st = Md5.chunk (skipn i pm) 0 st.
Proof.
  unfold Md5.chunk.
  change (Md5.decode (skipn i pm) 0) with (Md5Stream.decode (skipn i pm)).
  rewrite md5_decode_window, md5_stream_decode_window, window_skipn.
  reflexivity.
Qed.

Lemma md5_chunks_skipn :
  forall fuel pm (i : nat) st,
    Md5.chunks fuel pm (Z.of_nat i) st = Md5.chunks fuel (skipn i pm) 0 st.
Proof.
  induction fuel as [| fuel IH]; intros pm i st.
  - cbn [Md5.chunks]. rewrite length_skipn.
    destruct (Z.ltb_spec (Z.of_nat i) (Z.of_nat (length pm)));
      destruct (Z.ltb_spec 0 (Z.of_nat (length pm - i))); try reflexivity; lia.
  - cbn [Md5.chunks]. rewrite length_skipn.
    destruct (Z.ltb_spec (Z.of_nat i) (Z.of_nat (length pm)));
      destruct (Z.ltb_spec 0 (Z.of_nat (length pm - i))); try reflexivity; try lia.
    rewrite md5_chunk_skipn. apply bind_cong. intros st'.
    replace (Z.of_nat i + 64) with (Z.of_nat (64 + i)) by lia.
    change (0 + 64) with (Z.of_nat 64).
    rewrite IH, (IH (skipn i pm) 64%nat), skipn_skipn. reflexivity.
Qed.

Lemma md5_transform_firstn block st :
  Md5Stream.transform block st = Md5Stream.transform (firstn 64 block) st.
Proof.
  unfold Md5Stream.transform.
  rewrite (md5_stream_decode_window block), (md5_stream_decode_window (firstn 64 block)).
  unfold window. cbn [skipn]. rewrite firstn_firstn. reflexivity.
Qed.

(** One turn of the loop over the chunks of a padded message. *)
Lemma md5_chunks_step fuel pm st :
  pm <> [] ->
  Md5.chunks (S fuel) pm 0 st
  = bind (Md5Stream.transform (firstn 64 pm) st)
         (fun st' => Md5.chunks fuel (skipn 64 pm) 0 st').
Proof.
  intros Hpm. cbn [Md5.chunks].
  destruct (Z.ltb_spec 0 (Z.of_nat (length pm))) as [_ | H].
  - rewrite <- md5_transform_firstn, md5_transform_is_chunk.
    apply bind_cong. intros st'.
    change (0 + 64) with (Z.of_nat 64). apply md5_chunks_skipn.
  - destruct pm; [contradiction | cbn [length] in H; lia].
Qed.

Lemma md5_chunks_nil fuel st : Md5.chunks fuel [] 0 st = Ok st.
Proof. destruct fuel; reflexivity. Qed.

(** The block the program builds from a tail of fewer than 56 bytes is the
    last block of the padded message. *)
Lemma md5_final_block_short (tail buffer : list Z) (bits : Z) :
  (length tail < 56)%nat ->
  firstn 64
    (Md5Stream.store_length
       (store (memcpy (memset0 (repeat 0 128) 128)
                      (memcpy buffer tail (length tail)) (length tail))
              (length tail) 0x80)
       bits)
  = (tail ++ [0x80]) ++ repeat 0 (zero_fill (length tail)) ++ Md5.length_field bits.
Proof.
  intros Hlen.
  do 56 (destruct tail as [| ? tail];
           [cbv - [Z.land Z.shiftr]; reflexivity |]).
  cbn [length] in Hlen. lia.
Qed.

Lemma md5_stream_main_state input :
  Md5Stream.main_state input
  = bind (Md5Stream.read_loop (length input) input (repeat 0 64) Md5Stream.init 0)
         md5_stream_finish.
Proof.
  unfold Md5Stream.main_state, Md5Stream.after_reads. rewrite bind_assoc.
  apply bind_cong. intros [[[st tb] buffer] bytesRead]. reflexivity.
Qed.

Lemma u64_bits x y : u64 x = u64 y -> u64 (u64 x * 8) = u64 (y * 8).
Proof.
  intros H. unfold u64 in *. rewrite Z.mul_mod_idemp_l by discriminate.
  rewrite <- (Z.mul_mod_idemp_l x), <- (Z.mul_mod_idemp_l y) by discriminate.
  now rewrite H.
Qed.

Lemma zero_fill_block n : (64 <= n)%nat -> zero_fill (n - 64) = zero_fill n.
Proof.
  intros Hn. unfold zero_fill. f_equal.
  replace (Z.of_nat (n - 64)) with (Z.of_nat n - 64) by lia.
  Z.to_euclidean_division_equations. lia.
Qed.

Lemma zero_fill_short n : (n < 56)%nat -> zero_fill n = (55 - n)%nat.
Proof. intros Hn. unfold zero_fill. rewrite Z.mod_small by lia. lia. Qed.

Lemma zero_fill_bound n : (zero_fill n < 64)%nat.
Proof.
  unfold zero_fill.
  pose proof (Z.mod_pos_bound (55 - Z.of_nat n) 64 eq_refl). lia.
Qed.

(** The end of the input: fewer than 56 bytes are left. *)
Lemma md5_stream_short_tail fuel1 fuel2 input buffer st totalBytes total :
  (length input < 56)%nat -> (2 <= fuel2)%nat ->
  u64 (totalBytes + Z.of_nat (length input)) = u64 total ->
  bind (Md5Stream.read_loop fuel1 input buffer st totalBytes) md5_stream_finish
  = Md5.chunks fuel2 (md5_padded total input) 0 st.
Proof.
  intros Hlen Hfuel Htotal.
  assert (Hread : Md5Stream.read_loop fuel1 input buffer st totalBytes
                  = Ok (st, totalBytes,
                        memcpy buffer (map byte_val input) (length input),
                        length input)).
  { destruct fuel1; cbn [Md5Stream.read_loop];
      destruct (Nat.leb_spec 64 (length input)); try reflexivity; lia. }
  rewrite Hread, bind_ok. unfold md5_stream_finish, Md5Stream.final_calls.
  destruct (Nat.leb_spec 56 (length input)); [lia |].
  destruct (Nat.ltb_spec (length input) 56); [| lia].
  cbn [app Md5Stream.run].
  rewrite md5_transform_firstn.
  rewrite <- (length_map byte_val input) at 1 2 3.
  rewrite md5_final_block_short by (rewrite length_map; lia).
  rewrite (u64_bits _ _ Htotal), length_map.
  fold (md5_padded total input).
  destruct fuel2 as [| fuel2]; [lia |].
  assert (Hpm : length (md5_padded total input) = 64%nat).
  { unfold md5_padded.
    rewrite !length_app, length_map, repeat_length, zero_fill_short by lia.
    cbn [length Md5.length_field map]. lia. }
  rewrite md5_chunks_step by (intros E; rewrite E in Hpm; discriminate).
  rewrite firstn_all2, skipn_all2 by lia.
  apply bind_cong. intros st'. now rewrite md5_chunks_nil.
Qed.

(** Reading a block and transforming it is one turn of the chunk loop of
    [md5]; the end of the input is the last block of the padded message.
    [total] is the length of the whole message. *)
Lemma md5_stream_simulation :
  forall fuel1 input fuel2 buffer st totalBytes total,
    (length input < 64 * (fuel1 + 1))%nat ->
    (length input / 64 + 2 <= fuel2)%nat ->
    (length input mod 64 < 56)%nat ->
    u64 (totalBytes + Z.of_nat (length input)) = u64 total ->
    bind (Md5Stream.read_loop fuel1 input buffer st totalBytes) md5_stream_finish
    = Md5.chunks fuel2 (md5_padded total input) 0 st.
Proof.
  induction fuel1 as [| fuel1 IH]; intros input fuel2 buffer st tb total Hf1 Hf2 Hmod Htotal.
  - apply md5_stream_short_tail; try assumption.
    + rewrite Nat.mod_small in Hmod by lia. exact Hmod.
    + lia.
  - destruct (Nat.leb_spec 64 (length input)) as [Hfull | Hshort].
    2:{ apply md5_stream_short_tail; try assumption.
        - rewrite Nat.mod_small in Hmod by lia. exact Hmod.
        - lia. }
    cbn [Md5Stream.read_loop].
    destruct (Nat.leb_spec 64 (length input)); [| lia].
    rewrite bind_assoc.
    assert (Hdiv : (length input / 64 = S ((length input - 64) / 64))%nat).
    { replace (length input) with ((length input - 64) + 1 * 64)%nat at 1 by lia.
      rewrite Nat.div_add by lia. lia. }
    destruct fuel2 as [| fuel2]; [lia |].
    rewrite md5_chunks_step by (unfold md5_padded; destruct input; discriminate).
    assert (Hfirst : firstn 64 (md5_padded total input) = map byte_val (firstn 64 input)).
    { unfold md5_padded. rewrite <- !app_assoc, firstn_app, length_map.
      replace (64 - length input)%nat with 0%nat by lia.
      rewrite firstn_O, app_nil_r. apply firstn_map. }
    assert (Hrest : skipn 64 (md5_padded total input) = md5_padded total (skipn 64 input)).
    { unfold md5_padded. rewrite <- !app_assoc, skipn_app, length_map.
      replace (64 - length input)%nat with 0%nat by lia.
      rewrite skipn_O, skipn_map, length_skipn, zero_fill_block by lia.
      reflexivity. }
    rewrite Hfirst, Hrest. apply bind_cong. intros st'.
    apply IH.
    + rewrite length_skipn. lia.
    + rewrite length_skipn. lia.
    + rewrite length_skipn.
      replace (length input) with ((length input - 64) + 1 * 64)%nat in Hmod by lia.
      rewrite Nat.Div0.mod_add in Hmod. exact Hmod.
    + rewrite length_skipn. unfold u64 in *.
      rewrite Z.add_mod_idemp_l by discriminate.
      rewrite <- Htotal. f_equal. lia.
Qed.

(** On every message whose length leaves fewer than 56 bytes after the
    last whole block, the streaming program and [md5] print the same
    digest. *)
Lemma md5_stream_is_md5_short_tail (input : list byte) :
  (length input mod 64 < 56)%nat -> Md5Stream.main input = Md5.md5 input.
Proof.
  intros Hmod. unfold Md5Stream.main, Md5.md5, Md5.md5_state.
  rewrite md5_stream_main_state, md5_padding_closed, bind_ok.
  rewrite (md5_stream_simulation (length input) input
             (length (md5_padded (Z.of_nat (length input)) input))
             (repeat 0 64) Md5Stream.init 0 (Z.of_nat (length input))).
  - reflexivity.
  - lia.
  - unfold md5_padded.
    rewrite !length_app, length_map, repeat_length. cbn [length Md5.length_field map].
    pose proof (Nat.Div0.div_le_upper_bound (length input) 64 (length input)).
    assert (length input / 64 <= length input)%nat by (apply Nat.Div0.div_le_upper_bound; lia).
    lia.
  - exact Hmod.
  - reflexivity.
Qed.

(** With 56 bytes or more left, the streaming MD5 program transforms the
    block that carries the tail twice before the block with the length
    field; the streaming SHA-1 program transforms it once. *)
Lemma md5_stream_final_calls_long buffer bytesRead totalBytes :
  (56 <= bytesRead)%nat ->
  exists first last,
    Md5Stream.final_calls buffer bytesRead totalBytes = [first; first; last].
Proof.
  intros Hlong. unfold Md5Stream.final_calls.
  destruct (Nat.leb_spec 56 bytesRead); [| lia].
  destruct (Nat.ltb_spec bytesRead 56); [lia |].
  do 2 eexists. reflexivity.
Qed.

Lemma sha1_stream_final_calls_long buffer bytesRead totalBytes :
  (56 <= bytesRead)%nat ->
  exists first last,
    Sha1Stream.final_calls buffer bytesRead totalBytes = [first; last].
Proof.
  intros Hlong. unfold Sha1Stream.final_calls.
  destruct (Nat.ltb_spec bytesRead 56); [lia |].
  do 2 eexists. reflexivity.
Qed.

(** * The streaming SHA-1 program against [sha1] *)

Lemma for_loop_app {St : Type} (body : Z -> St -> res St) :
  forall n1 n2 lo st,
    for_loop body lo (n1 + n2) st
    = bind (for_loop body lo n1 st)
           (fun s => for_loop body (lo + Z.of_nat n1) n2 s).
Proof.
  induction n1 as [| n1 IH]; intros n2 lo st.
  - cbn [for_loop Nat.add bind]. now replace (lo + Z.of_nat 0) with lo by lia.
  - cbn [for_loop Nat.add]. rewrite bind_assoc. apply bind_cong. intros s.
    rewrite IH. apply bind_cong. intros s'. f_equal. lia.
Qed.

Lemma sha1_round_ranges w j st :
  (0 <= j < 20 -> Sha1.round w j st = Sha1Stream.round1 w j st) /\
  (20 <= j < 40 -> Sha1.round w j st = Sha1Stream.round2 w j st) /\
  (40 <= j < 60 -> Sha1.round w j st = Sha1Stream.round3 w j st) /\
  (60 <= j < 80 -> Sha1.round w j st = Sha1Stream.round4 w j st).
Proof.
  destruct st as [[[[a b] c] d] e].
  unfold Sha1.round, Sha1Stream.round1, Sha1Stream.round2, Sha1Stream.round3,
    Sha1Stream.round4, Sha1Stream.step.
  repeat split; intros Hj;
    destruct (Z.ltb_spec j 20); destruct (Z.ltb_spec j 40);
    destruct (Z.ltb_spec j 60); try lia; reflexivity.
Qed.

(** The four round loops of [transform] are the round loop of [sha1]. *)
Lemma sha1_transform_is_chunk block st :
  Sha1Stream.transform block st = Sha1.chunk block 0 st.
Proof.
  unfold Sha1Stream.transform, Sha1.chunk, Sha1.schedule.
  change (Sha1Stream.decode block) with (Sha1.decode block 0).
  rewrite (for_loop_ext Sha1Stream.extend Sha1.extend) by reflexivity.
  apply bind_cong. intros w. destruct st as [[[[h0 h1] h2] h3] h4].
  change 80%nat with (20 + (20 + (20 + 20)))%nat.
  rewrite for_loop_app, bind_assoc.
  rewrite (for_loop_ext (Sha1.round w) (Sha1Stream.round1 w) 20 0)
    by (intros j s Hj; apply sha1_round_ranges; lia).
  apply bind_cong. intros st1. cbv beta. rewrite for_loop_app, bind_assoc.
  rewrite (for_loop_ext (Sha1.round w) (Sha1Stream.round2 w) 20)
    by (intros j s Hj; apply sha1_round_ranges; lia).
  apply bind_cong. intros st2. cbv beta. rewrite for_loop_app, bind_assoc.
  rewrite (for_loop_ext (Sha1.round w) (Sha1Stream.round3 w) 20)
    by (intros j s Hj; apply sha1_round_ranges; lia).
  apply bind_cong. intros st3. cbv beta.
  rewrite (for_loop_ext (Sha1.round w) (Sha1Stream.round4 w) 20)
    by (intros j s Hj; apply sha1_round_ranges; lia).
  reflexivity.
Qed.

Lemma sha1_padding_closed message :
  Sha1.padding message = Ok (sha1_padded (Z.of_nat (length message)) message).
Proof.
  unfold Sha1.padding, sha1_padded, Sha1.originalLengthBits.
  destruct (md5_zero_fill message) as [k [Hrun [Hk Hlt]]].
  rewrite sha1_pad_zeros_eq, Hrun. cbn [bind]. rewrite <- app_assoc.
  replace (zero_fill (length message)) with k; [reflexivity |].
  unfold zero_fill. clear Hrun. Z.to_euclidean_division_equations. lia.
Qed.

Lemma sha1_chunk_skipn pm (i : nat) st :
  Sha1.chunk pm (Z.of_nat i) st = Sha1.chunk (skipn i pm) 0 st.
Proof.
  unfold Sha1.chunk.
  change (Sha1.decode (skipn i pm) 0) with (Sha1Stream.decode (skipn i pm)).
  rewrite sha1_decode_window, sha1_stream_decode_window, window_skipn.
  reflexivity.
Qed.

Lemma sha1_chunks_skipn :
  forall fuel pm (i : nat) st,
    Sha1.chunks fuel pm (Z.of_nat i) st = Sha1.chunks fuel (skipn i pm) 0 st.
Proof.
  induction fuel as [| fuel IH]; intros pm i st.
  - cbn [Sha1.chunks]. rewrite length_skipn.
    destruct (Z.ltb_spec (Z.of_nat i) (Z.of_nat (length pm)));
      destruct (Z.ltb_spec 0 (Z.of_nat (length pm - i))); try reflexivity; lia.
  - cbn [Sha1.chunks]. rewrite length_skipn.
    destruct (Z.ltb_spec (Z.of_nat i) (Z.of_nat (length pm)));
      destruct (Z.ltb_spec 0 (Z.of_nat (length pm - i))); try reflexivity; try lia.
    rewrite sha1_chunk_skipn. apply bind_cong. intros st'.
    replace (Z.of_nat i + 64) with (Z.of_nat (64 + i)) by lia.
    change (0 + 64) with (Z.of_nat 64).
    rewrite IH, (IH (skipn i pm) 64%nat), skipn_skipn. reflexivity.
Qed.

Lemma sha1_transform_firstn block st :
  Sha1Stream.transform block st = Sha1Stream.transform (firstn 64 block) st.
Proof.
  unfold Sha1Stream.transform.
  rewrite (sha1_stream_decode_window block),
    (sha1_stream_decode_window (firstn 64 block)).
  unfold window. cbn [skipn]. rewrite firstn_firstn. reflexivity.
Qed.

Lemma sha1_chunks_step fuel pm st :
  pm <> [] ->
  Sha1.chunks (S fuel) pm 0 st
  = bind (Sha1Stream.transform (firstn 64 pm) st)
         (fun st' => Sha1.chunks fuel (skipn 64 pm) 0 st').
Proof.
  intros Hpm. cbn [Sha1.chunks].
  destruct (Z.ltb_spec 0 (Z.of_nat (length pm))) as [_ | H].
  - rewrite <- sha1_transform_firstn, sha1_transform_is_chunk.
    apply bind_cong. intros st'.
    change (0 + 64) with (Z.of_nat 64). apply sha1_chunks_skipn.
  - destruct pm; [contradiction | cbn [length] in H; lia].
Qed.

Lemma sha1_chunks_nil fuel st : Sha1.chunks fuel [] 0 st = Ok st.
Proof. destruct fuel; reflexivity. Qed.

Lemma sha1_final_block_short (tail buffer : list Z) (bits : Z) :
  (length tail < 56)%nat ->
  firstn 64
    (Sha1Stream.store_length
       (store (memcpy (memset0 (repeat 0 128) 128)
                      (memcpy buffer tail (length tail)) (length tail))
              (length tail) 0x80)
       bits)
  = (tail ++ [0x80]) ++ repeat 0 (zero_fill (length tail)) ++ Sha1.length_field bits.
Proof.
  intros Hlen.
  do 56 (destruct tail as [| ? tail];
         [cbv - [Z.land Z.shiftr]; reflexivity |]).
  cbn [length] in Hlen. lia.
Qed.

(** With 56 to 63 bytes left the program builds the last two blocks of the
    padded message. *)
Lemma sha1_final_blocks_long (tail buffer : list Z) (bits : Z) :
  (56 <= length tail < 64)%nat ->
  let first := store (memcpy (memset0 (repeat 0 128) 128)
                             (memcpy buffer tail (length tail)) (length tail))
                     (length tail) 0x80 in
  let padded := (tail ++ [0x80]) ++ repeat 0 (zero_fill (length tail))
                  ++ Sha1.length_field bits in
  firstn 64 first = firstn 64 padded /\
  firstn 64 (Sha1Stream.store_length (memset0 first 64) bits) = skipn 64 padded.
Proof.
  intros Hlen.
  do 56 (destruct tail as [| ? tail]; [cbn [length] in Hlen; lia |]).
  do 8 (destruct tail as [| ? tail];
        [split; cbv - [Z.land Z.shiftr]; reflexivity |]).
  cbn [length] in Hlen. lia.
Qed.

Lemma sha1_stream_main_state input :
  Sha1Stream.main_state input
  = bind (Sha1Stream.read_loop (length input) input (repeat 0 64) Sha1Stream.init 0)
         sha1_stream_finish.
Proof.
  unfold Sha1Stream.main_state, Sha1Stream.after_reads. rewrite bind_assoc.
  apply bind_cong. intros [[[st tb] buffer] bytesRead]. reflexivity.
Qed.

Lemma zero_fill_long n : (56 <= n < 64)%nat -> zero_fill n = (119 - n)%nat.
Proof.
  intros Hn. unfold zero_fill.
  replace (55 - Z.of_nat n) with (119 - Z.of_nat n + (-1) * 64) by lia.
  rewrite Z.mod_add, Z.mod_small by lia. lia.
Qed.

(** The end of the input: fewer than 64 bytes are left. *)
Lemma sha1_stream_tail fuel1 fuel2 input buffer st totalBytes total :
  (length input < 64)%nat -> (2 <= fuel2)%nat ->
  u64 (totalBytes + Z.of_nat (length input)) = u64 total ->
  bind (Sha1Stream.read_loop fuel1 input buffer st totalBytes) sha1_stream_finish
  = Sha1.chunks fuel2 (sha1_padded total input) 0 st.
Proof.
  intros Hlen Hfuel Htotal.
  assert (Hread : Sha1Stream.read_loop fuel1 input buffer st totalBytes
                  = Ok (st, totalBytes,
                        memcpy buffer (map byte_val input) (length input),
                        length input)).
  { destruct fuel1; cbn [Sha1Stream.read_loop];
      destruct (Nat.leb_spec 64 (length input)); try reflexivity; lia. }
  rewrite Hread, bind_ok. unfold sha1_stream_finish, Sha1Stream.final_calls.
  rewrite (u64_bits _ _ Htotal).
  destruct fuel2 as [| [| fuel2]]; try lia.
  destruct (Nat.ltb_spec (length input) 56) as [Hshort | Hlong].
  - cbn [Sha1Stream.run].
    rewrite sha1_transform_firstn.
    rewrite <- (length_map byte_val input) at 1 2 3.
    rewrite sha1_final_block_short by (rewrite length_map; lia).
    rewrite length_map. fold (sha1_padded total input).
    assert (Hpm : length (sha1_padded total input) = 64%nat).
    { unfold sha1_padded.
      rewrite !length_app, length_map, repeat_length, zero_fill_short by lia.
      cbn [length Sha1.length_field map]. lia. }
    rewrite sha1_chunks_step by (intros E; rewrite E in Hpm; discriminate).
    rewrite firstn_all2, skipn_all2 by lia.
    apply bind_cong. intros st'. now rewrite sha1_chunks_nil.
  - cbn [Sha1Stream.run].
    destruct (sha1_final_blocks_long (map byte_val input) buffer (u64 (total * 8)))
      as [Hfirst Hsecond]; [rewrite length_map; lia |].
    rewrite length_map in Hfirst, Hsecond.
    fold (sha1_padded total input) in Hfirst, Hsecond.
    assert (Hpm : length (sha1_padded total input) = 128%nat).
    { unfold sha1_padded.
      rewrite !length_app, length_map, repeat_length, zero_fill_long by lia.
      cbn [length Sha1.length_field map]. lia. }
    rewrite sha1_chunks_step by (intros E; rewrite E in Hpm; discriminate).
    rewrite sha1_transform_firstn, Hfirst.
    apply bind_cong. intros st1.
    rewrite sha1_chunks_step
      by (intros E; apply (f_equal (@length Z)) in E;
          rewrite length_skipn, Hpm in E; discriminate).
    rewrite sha1_transform_firstn, Hsecond.
    rewrite (firstn_all2 (n := 64) (skipn 64 (sha1_padded total input)))
      by (rewrite length_skipn; lia).
    apply bind_cong. intros st2.
    rewrite skipn_all2 by (rewrite length_skipn; lia).
    now rewrite sha1_chunks_nil.
Qed.

Lemma sha1_stream_simulation :
  forall fuel1 input fuel2 buffer st totalBytes total,
    (length input < 64 * (fuel1 + 1))%nat ->
    (length input / 64 + 2 <= fuel2)%nat ->
    u64 (totalBytes + Z.of_nat (length input)) = u64 total ->
    bind (Sha1Stream.read_loop fuel1 input buffer st totalBytes) sha1_stream_finish
    = Sha1.chunks fuel2 (sha1_padded total input) 0 st.
Proof.
  induction fuel1 as [| fuel1 IH]; intros input fuel2 buffer st tb total Hf1 Hf2 Htotal.
  - apply sha1_stream_tail; try assumption; lia.
  - destruct (Nat.leb_spec 64 (length input)) as [Hfull | Hshort].
    2:{ apply sha1_stream_tail; try assumption; lia. }
    cbn [Sha1Stream.read_loop].
    destruct (Nat.leb_spec 64 (length input)); [| lia].
    rewrite bind_assoc.
    assert (Hdiv : (length input / 64 = S ((length input - 64) / 64))%nat).
    { replace (length input) with ((length input - 64) + 1 * 64)%nat at 1 by lia.
      rewrite Nat.div_add by lia. lia. }
    destruct fuel2 as [| fuel2]; [lia |].
    rewrite sha1_chunks_step by (unfold sha1_padded; destruct input; discriminate).
    assert (Hfirst : firstn 64 (sha1_padded total input) = map byte_val (firstn 64 input)).
    { unfold sha1_padded. rewrite <- !app_assoc, firstn_app, length_map.
      replace (64 - length input)%nat with 0%nat by lia.
      rewrite firstn_O, app_nil_r. apply firstn_map. }
    assert (Hrest : skipn 64 (sha1_padded total input)
                    = sha1_padded total (skipn 64 input)).
    { unfold sha1_padded. rewrite <- !app_assoc, skipn_app, length_map.
      replace (64 - length input)%nat with 0%nat by lia.
      rewrite skipn_O, skipn_map, length_skipn, zero_fill_block by lia.
      reflexivity. }
    rewrite Hfirst, Hrest. apply bind_cong. intros st'.
    apply IH.
    + rewrite length_skipn. lia.
    + rewrite length_skipn. lia.
    + rewrite length_skipn. unfold u64 in *.
      rewrite Z.add_mod_idemp_l by discriminate.
      rewrite <- Htotal. f_equal. lia.
Qed.

(** The streaming SHA-1 program and [sha1] print the same digest on every
    message. *)
Lemma sha1_stream_is_sha1 (input : list byte) :
  Sha1Stream.main input = Sha1.sha1 input.
Proof.
  unfold Sha1Stream.main, Sha1.sha1, Sha1.sha1_state.
  rewrite sha1_stream_main_state, sha1_padding_closed, bind_ok.
  rewrite (sha1_stream_simulation (length input) input
             (length (sha1_padded (Z.of_nat (length input)) input))
             (repeat 0 64) Sha1Stream.init 0 (Z.of_nat (length input))).
  - reflexivity.
  - lia.
  - unfold sha1_padded.
    rewrite !length_app, length_map, repeat_length. cbn [length Sha1.length_field map].
    assert (length input / 64 <= length input)%nat
      by (apply Nat.Div0.div_le_upper_bound; lia).
    lia.
  - reflexivity.
Qed.


(** * Further properties of the streaming programs *)

(** X1.  The streaming SHA-1 program is chunking-invariant: on every
    input it prints a digest, and it is the digest [sha1] prints for the
    input taken as one buffer. *)
Theorem sha1_stream_prints_the_sha1_digest (input : list byte) :
  exists digest,
    Sha1.sha1 input = Ok digest /\ Sha1Stream.main input = Ok digest.
Proof.
  destruct (sha1_state_total input) as [st [Hst _]].
  exists (string_of_list_ascii (Sha1.output st)).
  assert (H : Sha1.sha1 input = Ok (string_of_list_ascii (Sha1.output st)))
    by (unfold Sha1.sha1; now rewrite Hst).
  split; [exact H |]. now rewrite sha1_stream_is_sha1.
Qed.

(** X2.  When fewer than 56 bytes are left after the last whole block, the
    streaming MD5 program prints the digest [md5] prints. *)
Theorem md5_stream_prints_the_md5_digest_short_tail (input : list byte) :
  (length input mod 64 < 56)%nat ->
  exists digest,
    Md5.md5 input = Ok digest /\ Md5Stream.main input = Ok digest.
Proof.
  intros Hmod.
  destruct (md5_state_total input) as [st Hst].
  exists (string_of_list_ascii (Md5.output st)).
  assert (H : Md5.md5 input = Ok (string_of_list_ascii (Md5.output st)))
    by (unfold Md5.md5; now rewrite Hst).
  split; [exact H |]. now rewrite md5_stream_is_md5_short_tail.
Qed.

Lemma md5_stream_prints_the_md5_digest_short_tail_witness :
  (length (bytes_of "abc") mod 64 < 56)%nat /\
  exists digest,
    Md5.md5 (bytes_of "abc") = Ok digest /\ Md5Stream.main (bytes_of "abc") = Ok digest.
Proof.
  assert (H : (length (bytes_of "abc") mod 64 < 56)%nat) by (vm_compute; lia).
  split; [exact H |].
  exact (md5_stream_prints_the_md5_digest_short_tail (bytes_of "abc") H).
Defined.

(** X4.  The unrolled [transform] of the streaming MD5 program and the
    round loop inside [md5] are the same function of state and block: the
    64 macro steps, with their literal message indices, shift counts and
    table indices, compute what the loop computes from [j], [S] and [K]. *)
Theorem md5_transform_agrees_with_the_round_loop :
  forall (block : list Z) (st : Md5.state),
    Md5Stream.transform block st = Md5.chunk block 0 st.
Proof. exact md5_transform_is_chunk. Qed.

(** X5.  The four round loops of the streaming SHA-1 [transform] compute
    what the single loop with its four branches computes inside [sha1]. *)
Theorem sha1_transform_agrees_with_the_round_loop :
  forall (block : list Z) (st : Sha1.state),
    Sha1Stream.transform block st = Sha1.chunk block 0 st.
Proof. exact sha1_transform_is_chunk. Qed.


Lemma md5_final_blocks_long (tail buffer : list Z) (bits : Z) :
  (56 <= length tail < 64)%nat ->
  let first := store (memcpy (memset0 (repeat 0 128) 128)
                             (memcpy buffer tail (length tail)) (length tail))
                     (length tail) 0x80 in
  let padded := (tail ++ [0x80]) ++ repeat 0 (zero_fill (length tail))
                  ++ Md5.length_field bits in
  firstn 64 first = firstn 64 padded /\
  firstn 64 (Md5Stream.store_length (memset0 first 64) bits) = skipn 64 padded.
Proof.
  intros Hlen.
  do 56 (destruct tail as [| ? tail]; [cbn [length] in Hlen; lia |]).
  do 8 (destruct tail as [| ? tail];
        [split; cbv - [Z.land Z.shiftr]; reflexivity |]).
  cbn [length] in Hlen. lia.
Qed.

Lemma tail_start_small n : (n < 64)%nat -> tail_start n = 0%nat.
Proof. intros Hn. unfold tail_start. rewrite Nat.mod_small by lia. lia. Qed.

Lemma tail_start_block n : (64 <= n)%nat -> tail_start (n - 64) = (tail_start n - 64)%nat.
Proof.
  intros Hn. unfold tail_start.
  replace n with ((n - 64) + 1 * 64)%nat at 3 4 by lia.
  rewrite Nat.Div0.mod_add. lia.
Qed.

Lemma tail_start_le n : (64 <= n)%nat -> (64 <= tail_start n <= n)%nat.
Proof.
  intros Hn. unfold tail_start.
  pose proof (Nat.mod_upper_bound n 64).
  pose proof (Nat.Div0.div_mod n 64).
  assert (1 <= n / 64)%nat by (apply Nat.div_le_lower_bound; lia).
  lia.
Qed.

(** The end of the input: 56 bytes or more are left. *)
Lemma md5_stream_long_tail fuel1 fuel2 input buffer st totalBytes total :
  (56 <= length input < 64)%nat -> (3 <= fuel2)%nat ->
  u64 (totalBytes + Z.of_nat (length input)) = u64 total ->
  bind (Md5Stream.read_loop fuel1 input buffer st totalBytes) md5_stream_finish
  = Md5.chunks fuel2
      (firstn 64 (md5_padded total input) ++ md5_padded total input) 0 st.
Proof.
  intros Hlen Hfuel Htotal.
  assert (Hread : Md5Stream.read_loop fuel1 input buffer st totalBytes
                  = Ok (st, totalBytes,
                        memcpy buffer (map byte_val input) (length input),
                        length input)).
  { destruct fuel1; cbn [Md5Stream.read_loop];
      destruct (Nat.leb_spec 64 (length input)); try reflexivity; lia. }
  rewrite Hread, bind_ok. unfold md5_stream_finish, Md5Stream.final_calls.
  rewrite (u64_bits _ _ Htotal).
  destruct fuel2 as [| [| [| fuel2]]]; try lia.
  destruct (Nat.leb_spec 56 (length input)); [| lia].
  destruct (Nat.ltb_spec (length input) 56); [lia |].
  cbn [app Md5Stream.run].
  destruct (md5_final_blocks_long (map byte_val input) buffer (u64 (total * 8)))
    as [Hfirst Hsecond]; [rewrite length_map; lia |].
  rewrite length_map in Hfirst, Hsecond.
  fold (md5_padded total input) in Hfirst, Hsecond.
  assert (Hpm : length (md5_padded total input) = 128%nat).
  { unfold md5_padded.
    rewrite !length_app, length_map, repeat_length, zero_fill_long by lia.
    cbn [length Md5.length_field map]. lia. }
  set (pm := md5_padded total input) in *.
  assert (H64 : length (firstn 64 pm) = 64%nat) by (rewrite length_firstn; lia).
  rewrite md5_chunks_step by (intros E; apply (f_equal (@length Z)) in E;
                              rewrite length_app, H64 in E; discriminate).
  rewrite firstn_app, H64, Nat.sub_diag, firstn_O, app_nil_r, firstn_firstn.
  rewrite skipn_app, H64, Nat.sub_diag, skipn_O, skipn_all2, app_nil_l by lia.
  change (Init.Nat.min 64 64) with 64%nat.
  rewrite md5_transform_firstn, Hfirst.
  apply bind_cong. intros st1.
  rewrite md5_chunks_step by (intros E; rewrite E in Hpm; discriminate).
  rewrite (md5_transform_firstn _ st1), Hfirst.
  apply bind_cong. intros st2.
  rewrite md5_chunks_step
    by (intros E; apply (f_equal (@length Z)) in E;
        rewrite length_skipn, Hpm in E; discriminate).
  rewrite md5_transform_firstn, Hsecond.
  rewrite (firstn_all2 (n := 64) (skipn 64 pm)) by (rewrite length_skipn; lia).
  apply bind_cong. intros st3.
  rewrite skipn_all2 by (rewrite length_skipn; lia).
  now rewrite md5_chunks_nil.
Qed.

Lemma md5_padded_length_bound total input :
  (length input + 9 <= length (md5_padded total input))%nat.
Proof.
  unfold md5_padded. rewrite !length_app, length_map. cbn [length Md5.length_field map].
  lia.
Qed.

Lemma md5_stream_simulation_long :
  forall fuel1 input fuel2 buffer st totalBytes total,
    (length input < 64 * (fuel1 + 1))%nat ->
    (length input / 64 + 3 <= fuel2)%nat ->
    (56 <= length input mod 64)%nat ->
    u64 (totalBytes + Z.of_nat (length input)) = u64 total ->
    bind (Md5Stream.read_loop fuel1 input buffer st totalBytes) md5_stream_finish
    = Md5.chunks fuel2
        (tail_block_twice (md5_padded total input) (length input)) 0 st.
Proof.
  assert (Htail : forall fuel1 input fuel2 buffer st tb total,
             (length input < 64)%nat -> (3 <= fuel2)%nat ->
             (56 <= length input mod 64)%nat ->
             u64 (tb + Z.of_nat (length input)) = u64 total ->
             bind (Md5Stream.read_loop fuel1 input buffer st tb) md5_stream_finish
             = Md5.chunks fuel2
                 (tail_block_twice (md5_padded total input) (length input)) 0 st).
  { intros fuel1 input fuel2 buffer st tb total Hlen Hfuel Hmod Htotal.
    unfold tail_block_twice. rewrite tail_start_small by lia.
    cbn [Nat.add]. rewrite skipn_O.
    rewrite Nat.mod_small in Hmod by lia.
    apply md5_stream_long_tail; try assumption; lia. }
  induction fuel1 as [| fuel1 IH];
    intros input fuel2 buffer st tb total Hf1 Hf2 Hmod Htotal.
  - apply Htail; try assumption; lia.
  - destruct (Nat.leb_spec 64 (length input)) as [Hfull | Hshort].
    2:{ apply Htail; try assumption; lia. }
    cbn [Md5Stream.read_loop].
    destruct (Nat.leb_spec 64 (length input)); [| lia].
    rewrite bind_assoc.
    assert (Hdiv : (length input / 64 = S ((length input - 64) / 64))%nat).
    { replace (length input) with ((length input - 64) + 1 * 64)%nat at 1 by lia.
      rewrite Nat.div_add by lia. lia. }
    destruct fuel2 as [| fuel2]; [lia |].
    pose proof (tail_start_le (length input) Hfull) as Hts.
    pose proof (md5_padded_length_bound total input) as Hpm.
    set (pm := md5_padded total input) in *.
    assert (Hlen1 : (64 <= length (firstn (tail_start (length input) + 64) pm))%nat)
      by (rewrite length_firstn; lia).
    rewrite md5_chunks_step
      by (unfold tail_block_twice; intros E; apply (f_equal (@length Z)) in E;
          rewrite length_app in E; cbn [length] in E; lia).
    assert (Hfirst : firstn 64 (tail_block_twice pm (length input))
                     = map byte_val (firstn 64 input)).
    { unfold tail_block_twice. rewrite firstn_app.
      replace (64 - length (firstn (tail_start (length input) + 64) pm))%nat
        with 0%nat by lia.
      rewrite firstn_O, app_nil_r, firstn_firstn.
      replace (Init.Nat.min 64 (tail_start (length input) + 64)) with 64%nat by lia.
      subst pm. unfold md5_padded. rewrite <- !app_assoc, firstn_app, length_map.
      replace (64 - length input)%nat with 0%nat by lia.
      rewrite firstn_O, app_nil_r. apply firstn_map. }
    assert (Hrest : skipn 64 pm = md5_padded total (skipn 64 input)).
    { subst pm. unfold md5_padded. rewrite <- !app_assoc, skipn_app, length_map.
      replace (64 - length input)%nat with 0%nat by lia.
      rewrite skipn_O, skipn_map, length_skipn, zero_fill_block by lia.
      reflexivity. }
    assert (Hskip : skipn 64 (tail_block_twice pm (length input))
                    = tail_block_twice (md5_padded total (skipn 64 input))
                        (length (skipn 64 input))).
    { unfold tail_block_twice. rewrite skipn_app.
      replace (64 - length (firstn (tail_start (length input) + 64) pm))%nat
        with 0%nat by lia.
      rewrite skipn_O, skipn_firstn_comm, <- Hrest, length_skipn.
      rewrite tail_start_block by lia. rewrite skipn_skipn.
      f_equal; f_equal; lia. }
    rewrite Hfirst, Hskip. apply bind_cong. intros st'.
    apply IH.
    + rewrite length_skipn. lia.
    + rewrite length_skipn. lia.
    + rewrite length_skipn.
      replace (length input) with ((length input - 64) + 1 * 64)%nat in Hmod by lia.
      rewrite Nat.Div0.mod_add in Hmod. exact Hmod.
    + rewrite length_skipn. unfold u64 in *.
      rewrite Z.add_mod_idemp_l by discriminate.
      rewrite <- Htotal. f_equal. lia.
Qed.

(** X3.  When 56 bytes or more are left after the last whole block, the
    streaming MD5 program does not compute the MD5 state of the message: it
    computes the chunk loop of [md5] over the padded message in which the
    block that holds the tail and the marker occurs twice. *)
Theorem md5_stream_long_tail_transforms_the_tail_block_twice (input : list byte) :
  (56 <= length input mod 64)%nat ->
  exists paddedMessage,
    Md5.padding input = Ok paddedMessage /\
    Md5Stream.main_state input
    = Md5.chunks (length paddedMessage + 64)
        (tail_block_twice paddedMessage (length input)) 0 Md5.init.
Proof.
  intros Hmod. exists (md5_padded (Z.of_nat (length input)) input).
  split; [apply md5_padding_closed |].
  rewrite md5_stream_main_state.
  apply md5_stream_simulation_long; try assumption; try reflexivity; try lia.
  pose proof (md5_padded_length_bound (Z.of_nat (length input)) input).
  assert (length input / 64 <= length input)%nat
    by (apply Nat.Div0.div_le_upper_bound; lia).
  lia.
Qed.

Lemma md5_stream_long_tail_transforms_the_tail_block_twice_witness :
  (56 <= length (letters_a 60) mod 64)%nat /\
  exists paddedMessage,
    Md5.padding (letters_a 60) = Ok paddedMessage /\
    Md5Stream.main_state (letters_a 60)
    = Md5.chunks (length paddedMessage + 64)
        (tail_block_twice paddedMessage (length (letters_a 60))) 0 Md5.init.
Proof.
  assert (H : (56 <= length (letters_a 60) mod 64)%nat) by (vm_compute; lia).
  split; [exact H |].
  exact (md5_stream_long_tail_transforms_the_tail_block_twice (letters_a 60) H).
Defined.


(** * The read loop and the arrays *)

Lemma memcpy_length dst src n :
  (n <= length src)%nat -> (n <= length dst)%nat ->
  length (memcpy dst src n) = length dst.
Proof.
  intros Hs Hd. unfold memcpy. rewrite length_app, length_firstn, length_skipn. lia.
Qed.

Lemma memset0_length buf n :
  (n <= length buf)%nat -> length (memset0 buf n) = length buf.
Proof.
  intros Hn. unfold memset0. rewrite length_app, repeat_length, length_skipn. lia.
Qed.

Lemma store_length_kept buf i v :
  (i < length buf)%nat -> length (store buf i v) = length buf.
Proof.
  intros Hi. unfold store. rewrite length_app, length_firstn. cbn [length].
  rewrite length_skipn. lia.
Qed.

Lemma fold_left_store_length (idx : nat -> nat) (val : nat -> Z) (l : list nat) :
  forall buf,
    (forall i, In i l -> (idx i < length buf)%nat) ->
    length (fold_left (fun blk i => store blk (idx i) (val i)) l buf) = length buf.
Proof.
  induction l as [| i l IH]; intros buf H; [reflexivity |].
  cbn [fold_left]. rewrite IH.
  - apply store_length_kept. apply H. now left.
  - intros j Hj. rewrite store_length_kept by (apply H; now left).
    apply H. now right.
Qed.

Lemma md5_store_length_length block bits :
  (64 <= length block)%nat ->
  length (Md5Stream.store_length block bits) = length block.
Proof.
  intros Hb. unfold Md5Stream.store_length.
  apply (fold_left_store_length
           (fun i => (56 + i)%nat)
           (fun i => Z.land (Z.shiftr bits (Z.of_nat i * 8)) 0xFF)).
  intros i Hi. apply in_seq in Hi. lia.
Qed.

Lemma sha1_store_length_length block bits :
  (64 <= length block)%nat ->
  length (Sha1Stream.store_length block bits) = length block.
Proof.
  intros Hb. unfold Sha1Stream.store_length.
  apply (fold_left_store_length
           (fun i => (56 + (7 - i))%nat)
           (fun i => Z.land (Z.shiftr bits (Z.of_nat i * 8)) 0xFF)).
  intros i Hi. apply in_rev, in_seq in Hi. lia.
Qed.

Lemma u64_range x : 0 <= u64 x < 2 ^ 64.
Proof. unfold u64. apply Z.mod_pos_bound. reflexivity. Qed.

Lemma memcpy_tail buffer (tail : list Z) :
  (length tail <= length buffer)%nat ->
  length (memcpy buffer tail (length tail)) = length buffer /\
  firstn (length tail) (memcpy buffer tail (length tail)) = tail.
Proof.
  intros Hlen. split.
  - apply memcpy_length; lia.
  - unfold memcpy. rewrite firstn_all, firstn_app, Nat.sub_diag, firstn_O, app_nil_r.
    apply firstn_all.
Qed.

(** What the read loop leaves behind, for any fuel that covers the
    input. *)
Lemma md5_read_loop_result :
  forall fuel input buffer st totalBytes,
    (length input < 64 * (fuel + 1))%nat -> length buffer = 64%nat ->
    0 <= totalBytes < 2 ^ 64 ->
    exists st' buffer',
      Md5Stream.read_loop fuel input buffer st totalBytes
      = Ok (st', u64 (totalBytes + Z.of_nat (64 * (length input / 64))),
            buffer', (length input mod 64)%nat) /\
      length buffer' = 64%nat /\
      firstn (length input mod 64) buffer'
      = map byte_val (skipn (64 * (length input / 64)) input).
Proof.
  assert (Hlast : forall fuel input buffer st tb,
             (length input < 64)%nat -> length buffer = 64%nat ->
             0 <= tb < 2 ^ 64 ->
             exists st' buffer',
               Md5Stream.read_loop fuel input buffer st tb
               = Ok (st', u64 (tb + Z.of_nat (64 * (length input / 64))),
                     buffer', (length input mod 64)%nat) /\
               length buffer' = 64%nat /\
               firstn (length input mod 64) buffer'
               = map byte_val (skipn (64 * (length input / 64)) input)).
  { intros fuel input buffer st tb Hlen Hbuf Htb.
    assert (Hread : Md5Stream.read_loop fuel input buffer st tb
                    = Ok (st, tb, memcpy buffer (map byte_val input) (length input),
                          length input)).
    { destruct fuel; cbn [Md5Stream.read_loop];
        destruct (Nat.leb_spec 64 (length input)); try reflexivity; lia. }
    rewrite Hread, Nat.div_small, Nat.mod_small by lia.
    exists st, (memcpy buffer (map byte_val input) (length input)).
    cbn [Nat.mul Z.of_nat skipn]. rewrite Z.add_0_r.
    unfold u64. rewrite Z.mod_small by exact Htb.
    destruct (memcpy_tail buffer (map byte_val input)) as [H1 H2];
      [rewrite length_map; lia |].
    rewrite length_map in H1, H2.
    repeat split; [congruence | exact H2]. }
  induction fuel as [| fuel IH]; intros input buffer st tb Hfuel Hbuf Htb.
  - apply Hlast; try assumption; lia.
  - destruct (Nat.leb_spec 64 (length input)) as [Hfull | Hshort].
    2:{ apply Hlast; try assumption; lia. }
    cbn [Md5Stream.read_loop].
    destruct (Nat.leb_spec 64 (length input)); [| lia].
    destruct (md5_transform_total (map byte_val (firstn 64 input)) st) as [st1 Hst1].
    rewrite Hst1. cbn [bind].
    destruct (IH (skipn 64 input) (map byte_val (firstn 64 input)) st1 (u64 (tb + 64)))
      as [st' [buffer' [Hrun [Hlen Htail]]]].
    + rewrite length_skipn. lia.
    + rewrite length_map, length_firstn. lia.
    + apply u64_range.
    + rewrite length_skipn in Hrun, Htail.
      assert (Hdiv : (length input / 64 = S ((length input - 64) / 64))%nat).
      { replace (length input) with ((length input - 64) + 1 * 64)%nat at 1 by lia.
        rewrite Nat.div_add by lia. lia. }
      assert (Hmod : ((length input - 64) mod 64 = length input mod 64)%nat).
      { replace (length input) with ((length input - 64) + 1 * 64)%nat at 2 by lia.
        now rewrite Nat.Div0.mod_add. }
      rewrite Hmod in Hrun, Htail.
      exists st', buffer'. rewrite Hrun. repeat split.
      * do 4 f_equal. unfold u64. rewrite Z.add_mod_idemp_l by discriminate.
        f_equal. lia.
      * exact Hlen.
      * rewrite Htail, skipn_skipn. do 2 f_equal. lia.
Qed.

Lemma md5_final_calls_arrays buffer bytesRead totalBytes :
  length buffer = 64%nat -> (bytesRead < 64)%nat ->
  Forall (fun block => length block = 128%nat)
         (Md5Stream.final_calls buffer bytesRead totalBytes).
Proof.
  intros Hbuf Hread. unfold Md5Stream.final_calls.
  assert (Hzero : length (memset0 (repeat 0 128) 128) = 128%nat)
    by (rewrite memset0_length; rewrite repeat_length; lia).
  assert (Hcopy : length (memcpy (memset0 (repeat 0 128) 128) buffer bytesRead) = 128%nat)
    by (rewrite memcpy_length; lia).
  assert (Hmark : length (store (memcpy (memset0 (repeat 0 128) 128) buffer bytesRead)
                                bytesRead 128) = 128%nat)
    by (rewrite store_length_kept; lia).
  assert (Hclear : length (memset0 (store (memcpy (memset0 (repeat 0 128) 128) buffer
                                                  bytesRead) bytesRead 128) 64) = 128%nat)
    by (rewrite memset0_length; lia).
  destruct (56 <=? bytesRead)%nat, (bytesRead <? 56)%nat; cbn [app];
    repeat constructor; try assumption;
    rewrite md5_store_length_length; lia.
Qed.

(** X6.  The read loop of the streaming MD5 program ends within the fuel
    [main] gives it, whatever the input: it has counted the whole
    64-byte blocks, [cin.gcount()] is the length of the input modulo 64,
    the front of [buffer] holds exactly these last bytes, and every array
    handed to [transform] afterwards has its 128 bytes, so
    [padding[bytesRead]] and [finalBlock[56 + i]] are written in
    bounds. *)
Theorem md5_stream_read_loop_leaves_the_tail (input : list byte) :
  exists st buffer,
    Md5Stream.read_loop (length input) input (repeat 0 64) Md5.init 0
    = Ok (st, u64 (Z.of_nat (64 * (length input / 64))), buffer,
          (length input mod 64)%nat) /\
    length buffer = 64%nat /\
    firstn (length input mod 64) buffer
    = map byte_val (skipn (64 * (length input / 64)) input) /\
    forall totalBytes,
      Forall (fun block => length block = 128%nat)
             (Md5Stream.final_calls buffer (length input mod 64) totalBytes).
Proof.
  destruct (md5_read_loop_result (length input) input (repeat 0 64) Md5.init 0)
    as [st [buffer [Hrun [Hlen Htail]]]].
  - lia.
  - apply repeat_length.
  - split; [lia | reflexivity].
  - exists st, buffer. rewrite Z.add_0_l in Hrun.
    repeat split; try assumption.
    intros totalBytes. apply md5_final_calls_arrays; [exact Hlen |].
    apply Nat.mod_upper_bound. discriminate.
Qed.

(** * The helpers of [sha.h] *)

Lemma shift_in_bit a (b : bool) :
  0 <= a ->
  (if b then Z.lor (Z.shiftl a 1) 1 else Z.lor (Z.shiftl a 1) 0) = 2 * a + Z.b2z b.
Proof.
  intros Ha. rewrite Z.shiftl_mul_pow2 by lia. change (2 ^ 1) with 2.
  destruct b; cbn [Z.b2z].
  - destruct a as [| p | p]; [reflexivity | | lia].
    rewrite Z.mul_comm. reflexivity.
  - rewrite Z.lor_0_r. lia.
Qed.

Lemma fold_left_map {A B C : Type} (f : A -> C -> A) (h : B -> C) (l : list B) :
  forall a, fold_left (fun a x => f a (h x)) l a = fold_left f (map h l) a.
Proof. induction l as [| x l IH]; intros a; [reflexivity | apply IH]. Qed.

(** While the bits read so far fit the word, shifting them in is reading
    a binary numeral. *)
Lemma shift_in_bits w (field : list bool) :
  forall acc k,
    0 <= k -> 0 <= acc < 2 ^ k -> k + Z.of_nat (length field) <= w ->
    fold_left
      (fun value (b : bool) =>
         let value := wrap w (Z.shiftl value 1) in
         if b then Z.lor value 1 else Z.lor value 0)
      field acc
    = fold_left (fun acc b => 2 * acc + Z.b2z b) field acc.
Proof.
  induction field as [| b field IH]; intros acc k Hk Hacc Hfit; [reflexivity |].
  cbn [fold_left length] in *.
  assert (Hle : 2 ^ (k + 1) <= 2 ^ w) by (apply Z.pow_le_mono_r; lia).
  rewrite Z.pow_add_r in Hle by lia. change (2 ^ 1) with 2 in Hle.
  assert (Hsmall : wrap w (Z.shiftl acc 1) = Z.shiftl acc 1).
  { unfold wrap. apply Z.mod_small. rewrite Z.shiftl_mul_pow2 by lia.
    change (2 ^ 1) with 2. lia. }
  cbv zeta. rewrite Hsmall, shift_in_bit by lia.
  apply (IH _ (k + 1)); [lia | | lia].
  rewrite Z.pow_add_r by lia. change (2 ^ 1) with 2.
  destruct b; cbn [Z.b2z]; lia.
Qed.

Lemma window_nths {A : Type} (l : list A) (d : A) (n : nat) :
  forall s, (s + n <= length l)%nat ->
            map (fun k => nth (s + k) l d) (seq 0 n) = window l s n.
Proof.
  intros s Hs. apply (nth_ext _ _ d d).
  - unfold window. rewrite length_map, length_seq, length_firstn, length_skipn. lia.
  - intros k Hk. rewrite length_map, length_seq in Hk.
    rewrite nth_window by assumption.
    rewrite (nth_indep _ d (nth (s + 0) l d)) by (rewrite length_map, length_seq; lia).
    rewrite (map_nth (fun k => nth (s + k) l d)), seq_nth by assumption. reflexivity.
Qed.

Lemma bits_value_bound (field : list bool) :
  0 <= bits_value field < 2 ^ Z.of_nat (length field).
Proof.
  induction field as [| b field IH] using rev_ind; [cbn; lia |].
  rewrite bits_value_app, length_app. cbn [length bits_value fold_left].
  rewrite Nat2Z.inj_add, Z.pow_add_r by lia. change (2 ^ Z.of_nat 1) with 2.
  destruct b; cbn [Z.b2z]; lia.
Qed.

Lemma bitsToUsignedInt_value w bits (start : nat) :
  32 <= w -> (start + 32 <= length bits)%nat ->
  ShaH.bitsToUsignedInt w bits (Z.of_nat start) = bits_value (window bits start 32).
Proof.
  intros Hw Hin. unfold ShaH.bitsToUsignedInt.
  rewrite (fold_left_map
             (fun value (b : bool) =>
                let value := wrap w (Z.shiftl value 1) in
                if b then Z.lor value 1 else Z.lor value 0)
             (fun i => ShaH.bit_at bits (Z.of_nat start + i))).
  rewrite map_map.
  rewrite (map_ext _ (fun k => nth (start + k) bits false))
    by (intros k; unfold ShaH.bit_at; f_equal; lia).
  rewrite window_nths by assumption.
  rewrite (shift_in_bits w _ 0 0); [reflexivity | lia | cbn; lia |].
  unfold window. rewrite length_firstn. lia.
Qed.

(** X7.  Either instance of [bitsToUsignedInt] returns the number that
    the 32 bits from [start] on denote, most significant bit first.  The
    64-bit instance therefore never returns a value of more than 32
    bits. *)
Theorem bitsToUsignedInt_reads_32_bits (w : Z) (bits : list bool) (start : nat) :
  32 <= w -> (start + 32 <= length bits)%nat ->
  ShaH.bitsToUsignedInt w bits (Z.of_nat start) = bits_value (window bits start 32) /\
  0 <= ShaH.bitsToUsignedInt w bits (Z.of_nat start) < 2 ^ 32.
Proof.
  intros Hw Hin. rewrite bitsToUsignedInt_value by assumption.
  split; [reflexivity |].
  pose proof (bits_value_bound (window bits start 32)) as Hb.
  unfold window in Hb at 3. rewrite length_firstn, length_skipn in Hb.
  replace (Nat.min 32 (length bits - start)) with 32%nat in Hb by lia.
  exact Hb.
Qed.

Lemma bitsToUsignedInt_reads_32_bits_witness :
  ShaH.bitsToUsignedInt 64 sample_wide1 (Z.of_nat 1000)
  = bits_value (window sample_wide1 1000 32) /\
  0 <= ShaH.bitsToUsignedInt 64 sample_wide1 (Z.of_nat 1000) < 2 ^ 32.
Proof.
  apply (bitsToUsignedInt_reads_32_bits 64 sample_wide1 1000).
  - lia.
  - apply Nat.leb_le. vm_compute. reflexivity.
Defined.

Lemma char_bits_value (c : byte) :
  bits_value (map (fun i => ShaH.char_bit c i) [7; 6; 5; 4; 3; 2; 1; 0]) = byte_val c.
Proof. destruct c; vm_compute; reflexivity. Qed.

Lemma TextToBinaryString_window (words : list byte) :
  forall (k : nat) (c : byte),
    nth_error words k = Some c ->
    window (fst (ShaH.TextToBinaryString words)) (8 * k) 8
    = map (fun i => ShaH.char_bit c i) [7; 6; 5; 4; 3; 2; 1; 0].
Proof.
  unfold ShaH.TextToBinaryString. cbn [fst].
  induction words as [| c0 words IH]; intros k c Hk.
  - destruct k; discriminate Hk.
  - cbn [flat_map]. destruct k as [| k].
    + injection Hk as ->. reflexivity.
    + replace (8 * Datatypes.S k)%nat with (8 + 8 * k)%nat by lia.
      unfold window. cbn [map app]. cbn [Nat.add skipn].
      apply (IH k c). exact Hk.
Qed.

(** X8.  [TextToBinaryString] writes every character as eight bits, most
    significant first: the bits at positions [8k .. 8k+7] denote the
    [k]-th character, and [bitLength] is eight times the number of
    characters (as a [size_t]). *)
Theorem TextToBinaryString_spells_each_character
        (words : list byte) (k : nat) (c : byte) :
  nth_error words k = Some c ->
  bits_value (window (fst (ShaH.TextToBinaryString words)) (8 * k) 8) = byte_val c /\
  snd (ShaH.TextToBinaryString words) = u64 (8 * Z.of_nat (length words)).
Proof.
  intros Hk. split.
  - rewrite (TextToBinaryString_window words k c Hk). apply char_bits_value.
  - pose proof (TextToBinaryString_length words) as Hlen.
    unfold ShaH.TextToBinaryString in *. cbn [fst snd] in *.
    rewrite Hlen. f_equal. lia.
Qed.

Lemma TextToBinaryString_spells_each_character_witness :
  bits_value (window (fst (ShaH.TextToBinaryString (bytes_of "abc"))) (8 * 1) 8)
  = byte_val "b"%byte /\
  snd (ShaH.TextToBinaryString (bytes_of "abc"))
  = u64 (8 * Z.of_nat (length (bytes_of "abc"))).
Proof.
  apply (TextToBinaryString_spells_each_character (bytes_of "abc") 1 "b"%byte).
  reflexivity.
Defined.

(** ** Rotations *)

Lemma high_bits_clear w x k :
  0 <= x < 2 ^ w -> w <= k -> Z.testbit x k = false.
Proof.
  intros Hx Hk. destruct (Z.eq_dec x 0) as [-> | Hnz]; [apply Z.bits_0 |].
  apply Z.bits_above_log2; [lia |].
  assert (Z.log2 x < w); [| lia].
  apply Z.log2_lt_pow2; lia.
Qed.

Lemma rotr_testbit w x n k :
  0 <= n -> n <= w -> 0 <= k ->
  Z.testbit (Z.lor (Z.shiftr x n) (wrap w (Z.shiftl x (w - n)))) k
  = Z.testbit x (k + n) || ((k <? w) && Z.testbit x (k - (w - n))).
Proof.
  intros Hn Hw Hk. rewrite Z.lor_spec, Z.shiftr_spec by assumption.
  unfold wrap. destruct (Z.ltb_spec k w).
  - rewrite Z.mod_pow2_bits_low, Z.shiftl_spec by lia. reflexivity.
  - rewrite Z.mod_pow2_bits_high by lia. reflexivity.
Qed.

Lemma rotr_range w x n :
  0 <= n -> n <= w -> 0 < w -> 0 <= x < 2 ^ w ->
  0 <= Z.lor (Z.shiftr x n) (wrap w (Z.shiftl x (w - n))) < 2 ^ w.
Proof.
  intros Hn Hw Hpos Hx.
  assert (H0 : 0 <= Z.lor (Z.shiftr x n) (wrap w (Z.shiftl x (w - n)))).
  { apply Z.lor_nonneg. split.
    - apply Z.shiftr_nonneg. lia.
    - unfold wrap. apply Z.mod_pos_bound. apply Z.pow_pos_nonneg; lia. }
  split; [exact H0 |].
  destruct (Z.eq_dec (Z.lor (Z.shiftr x n) (wrap w (Z.shiftl x (w - n)))) 0) as [-> | Hnz].
  - apply Z.pow_pos_nonneg; lia.
  - apply Z.log2_lt_pow2; [lia |].
    rewrite Z.log2_lor.
    + apply Z.max_lub_lt.
      * destruct (Z.eq_dec (Z.shiftr x n) 0) as [-> | Hs]; [cbn; lia |].
        apply Z.log2_lt_pow2.
        -- pose proof (Z.shiftr_nonneg x n). lia.
        -- rewrite Z.shiftr_div_pow2 by lia.
           assert (0 < 2 ^ n) by (apply Z.pow_pos_nonneg; lia).
           apply Z.le_lt_trans with x; [| lia].
           apply Z.div_le_upper_bound; nia.
      * unfold wrap.
        destruct (Z.eq_dec (Z.shiftl x (w - n) mod 2 ^ w) 0) as [-> | Hs]; [cbn; lia |].
        apply Z.log2_lt_pow2.
        -- pose proof (Z.mod_pos_bound (Z.shiftl x (w - n)) (2 ^ w)).
           assert (0 < 2 ^ w) by (apply Z.pow_pos_nonneg; lia). lia.
        -- apply Z.mod_pos_bound. apply Z.pow_pos_nonneg; lia.
    + apply Z.shiftr_nonneg. lia.
    + unfold wrap. apply Z.mod_pos_bound. apply Z.pow_pos_nonneg; lia.
Qed.

Lemma rotr_rotr w x n :
  0 < n < w -> 0 <= x < 2 ^ w ->
  let y := Z.lor (Z.shiftr x n) (wrap w (Z.shiftl x (w - n))) in
  Z.lor (Z.shiftr y (w - n)) (wrap w (Z.shiftl y (w - (w - n)))) = x.
Proof.
  intros Hn Hx y. apply Z.bits_inj'. intros k Hk.
  rewrite rotr_testbit by lia. subst y.
  rewrite rotr_testbit by lia.
  replace (k + (w - n) + n) with (k + w) by lia.
  replace (k + (w - n) - (w - n)) with k by lia.
  replace (k - (w - (w - n))) with (k - n) by lia.
  rewrite (high_bits_clear w x (k + w)) by lia. cbn [orb].
  destruct (Z.ltb_spec k w) as [Hlt | Hge].
  - destruct (Z.ltb_spec (k + (w - n)) w) as [Hlow | Hhigh].
    + rewrite Z.testbit_neg_r with (n := k - n) by lia.
      cbn [andb]. now rewrite orb_false_r.
    + rewrite rotr_testbit by lia.
      replace (k - n + n) with k by lia.
      destruct (Z.ltb_spec (k - n) w); [| lia].
      rewrite Z.testbit_neg_r with (n := k - n - (w - n)) by lia.
      cbn [andb]. now rewrite orb_false_r.
  - destruct (Z.ltb_spec (k + (w - n)) w); [lia |].
    cbn [andb orb]. symmetry. apply (high_bits_clear w); lia.
Qed.

(** X9.  On an unsigned type of [w] bits [rotateRightByN] is a rotation:
    for a count [0 < n < w] the result fits [w] bits again, and rotating
    it by the remaining [w - n] places gives [x] back, so no bit of [x] is
    lost. *)
Theorem rotateRightByN_is_undone_by_the_complementary_rotation (w x n : Z) :
  0 < n < w -> 0 <= x < 2 ^ w ->
  exists r,
    ShaH.rotateRightByN w x n w = Ok r /\
    0 <= r < 2 ^ w /\
    ShaH.rotateRightByN w r (w - n) w = Ok x.
Proof.
  intros Hn Hx.
  exists (Z.lor (Z.shiftr x n) (wrap w (Z.shiftl x (w - n)))).
  unfold ShaH.rotateRightByN.
  replace ((0 <=? n) && (n <? w) && (0 <=? w - n) && (w - n <? w)) with true
    by (symmetry; repeat (apply andb_true_intro; split);
        first [apply Z.leb_le | apply Z.ltb_lt]; lia).
  replace ((0 <=? w - n) && (w - n <? w) && (0 <=? w - (w - n)) && (w - (w - n) <? w))
    with true
    by (symmetry; repeat (apply andb_true_intro; split);
        first [apply Z.leb_le | apply Z.ltb_lt]; lia).
  repeat split.
  - apply rotr_range; lia.
  - apply rotr_range; lia.
  - f_equal. apply (rotr_rotr w x n); assumption.
Qed.

Lemma rotateRightByN_is_undone_by_the_complementary_rotation_witness :
  exists r,
    ShaH.rotateRightByN 64 0x0123456789abcdef 19 64 = Ok r /\
    0 <= r < 2 ^ 64 /\
    ShaH.rotateRightByN 64 r (64 - 19) 64 = Ok 0x0123456789abcdef.
Proof.
  apply (rotateRightByN_is_undone_by_the_complementary_rotation 64 0x0123456789abcdef 19).
  - lia.
  - split; [lia | reflexivity].
Defined.

Lemma leftRotate_as_rotateRightByN (x c : Z) :
  Md5.leftRotate x c = ShaH.rotateRightByN 32 x (32 - c) 32.
Proof.
  unfold Md5.leftRotate, ShaH.rotateRightByN, u32, wrap.
  replace (32 - (32 - c)) with c by lia.
  rewrite Z.lor_comm.
  destruct (0 <=? c), (c <? 32), (0 <=? 32 - c), (32 - c <? 32); reflexivity.
Qed.

(** X10.  [leftRotate] of [Md5.cpp] and [Sha1.cpp] is [rotateRightByN]
    of [sha.h] at 32 bits with the complementary count, and the two undo
    each other: rotating a 32-bit word left by [0 < c < 32] and the
    result right by [c] gives the word back. *)
Theorem leftRotate_is_undone_by_rotateRightByN (x c : Z) :
  0 < c < 32 -> 0 <= x < 2 ^ 32 ->
  Md5.leftRotate x c = ShaH.rotateRightByN 32 x (32 - c) 32 /\
  exists r,
    Md5.leftRotate x c = Ok r /\ Sha1.leftRotate x c = Ok r /\
    ShaH.rotateRightByN 32 r c 32 = Ok x.
Proof.
  intros Hc Hx. split; [apply leftRotate_as_rotateRightByN |].
  rewrite sha1_leftRotate_eq, leftRotate_as_rotateRightByN.
  exists (Z.lor (Z.shiftr x (32 - c)) (wrap 32 (Z.shiftl x (32 - (32 - c))))).
  unfold ShaH.rotateRightByN.
  replace ((0 <=? 32 - c) && (32 - c <? 32) && (0 <=? 32 - (32 - c))
           && (32 - (32 - c) <? 32)) with true
    by (symmetry; repeat (apply andb_true_intro; split);
        first [apply Z.leb_le | apply Z.ltb_lt]; lia).
  replace ((0 <=? c) && (c <? 32) && (0 <=? 32 - c) && (32 - c <? 32)) with true
    by (symmetry; repeat (apply andb_true_intro; split);
        first [apply Z.leb_le | apply Z.ltb_lt]; lia).
  repeat split. f_equal.
  pose proof (rotr_rotr 32 x (32 - c)) as Hrot. cbv zeta in Hrot.
  replace (32 - (32 - c)) with c in Hrot by lia.
  replace (32 - (32 - c)) with c by lia.
  apply Hrot; lia.
Qed.

Lemma leftRotate_is_undone_by_rotateRightByN_witness :
  Md5.leftRotate 0x89abcdef 7 = ShaH.rotateRightByN 32 0x89abcdef (32 - 7) 32 /\
  exists r,
    Md5.leftRotate 0x89abcdef 7 = Ok r /\ Sha1.leftRotate 0x89abcdef 7 = Ok r /\
    ShaH.rotateRightByN 32 r 7 32 = Ok 0x89abcdef.
Proof.
  apply (leftRotate_is_undone_by_rotateRightByN 0x89abcdef 7).
  - lia.
  - split; [lia | reflexivity].
Defined.

(** * Byte order of the message words *)

Lemma lor_shiftl_add a b n :
  0 <= n -> 0 <= a < 2 ^ n -> Z.lor a (Z.shiftl b n) = a + b * 2 ^ n.
Proof.
  intros Hn Ha.
  assert (Hdisjoint : Z.land a (Z.shiftl b n) = 0).
  { apply Z.bits_inj'. intros k Hk. rewrite Z.land_spec, Z.bits_0.
    destruct (Z.lt_ge_cases k n).
    - rewrite Z.shiftl_spec_low by assumption. apply andb_false_r.
    - rewrite (high_bits_clear n a k) by assumption. reflexivity. }
  rewrite <- Z.lxor_lor, <- Z.add_nocarry_lxor by assumption.
  rewrite Z.shiftl_mul_pow2 by assumption. reflexivity.
Qed.

Lemma word_of_four_bytes b0 b1 b2 b3 :
  0 <= b0 < 256 -> 0 <= b1 < 256 -> 0 <= b2 < 256 -> 0 <= b3 < 256 ->
  u32 (Z.lor (Z.lor (Z.lor b0 (Z.shiftl b1 8)) (Z.shiftl b2 16)) (Z.shiftl b3 24))
  = b0 + 256 * (b1 + 256 * (b2 + 256 * (b3 + 256 * 0))).
Proof.
  intros H0 H1 H2 H3.
  rewrite (lor_shiftl_add b0 b1 8) by (change (2 ^ 8) with 256; lia).
  rewrite (lor_shiftl_add _ b2 16) by (change (2 ^ 8) with 256; change (2 ^ 16) with 65536; lia).
  rewrite (lor_shiftl_add _ b3 24)
    by (change (2 ^ 8) with 256; change (2 ^ 16) with 65536;
        change (2 ^ 24) with 16777216; lia).
  unfold u32. change (2 ^ 8) with 256. change (2 ^ 16) with 65536.
  change (2 ^ 24) with 16777216. change (2 ^ 32) with 4294967296.
  rewrite Z.mod_small by lia. lia.
Qed.

Lemma byte_at (pm : list Z) (k : nat) :
  Forall (fun b => 0 <= b < 256) pm -> (k < length pm)%nat -> 0 <= nth k pm 0 < 256.
Proof.
  intros Hall Hk. rewrite Forall_forall in Hall. apply Hall. now apply nth_In.
Qed.

Lemma window_four (pm : list Z) (s : nat) :
  (s + 4 <= length pm)%nat ->
  window pm s 4 = [nth s pm 0; nth (s + 1) pm 0; nth (s + 2) pm 0; nth (s + 3) pm 0].
Proof.
  intros Hs. rewrite <- (window_nths pm 0 4 s Hs). cbn [seq map].
  now rewrite Nat.add_0_r.
Qed.

Lemma decode_words (paddedMessage : list Z) (i : nat) :
  Forall (fun b => 0 <= b < 256) paddedMessage ->
  (i + 64 <= length paddedMessage)%nat ->
  Md5.decode paddedMessage (Z.of_nat i)
  = map (fun j => le_value (window paddedMessage (i + 4 * j) 4)) (seq 0 16) /\
  Sha1.decode paddedMessage (Z.of_nat i)
  = map (fun j => be_value (window paddedMessage (i + 4 * j) 4)) (seq 0 16).
Proof.
  intros Hbytes Hin.
  assert (Hat : forall (j : nat) (d : nat),
             at_ paddedMessage (Z.of_nat i + Z.of_nat j * 4 + Z.of_nat d)
             = nth (i + 4 * j + d) paddedMessage 0).
  { intros j d. unfold at_. f_equal. lia. }
  split; unfold Md5.decode, Sha1.decode; rewrite map_map; apply map_ext_in;
    intros j Hj; apply in_seq in Hj;
    rewrite window_four by lia;
    pose proof (Hat j 0%nat) as E0; pose proof (Hat j 1%nat) as E1;
    pose proof (Hat j 2%nat) as E2; pose proof (Hat j 3%nat) as E3;
    cbn [Z.of_nat Pos.of_succ_nat Pos.succ] in E0, E1, E2, E3;
    rewrite Z.add_0_r, Nat.add_0_r in E0; rewrite E0, E1, E2, E3;
    pose proof (byte_at paddedMessage (i + 4 * j) Hbytes) as B0;
    pose proof (byte_at paddedMessage (i + 4 * j + 1) Hbytes) as B1;
    pose proof (byte_at paddedMessage (i + 4 * j + 2) Hbytes) as B2;
    pose proof (byte_at paddedMessage (i + 4 * j + 3) Hbytes) as B3.
  - unfold le_value. cbn [fold_right].
    apply word_of_four_bytes; [apply B0 | apply B1 | apply B2 | apply B3]; lia.
  - unfold be_value. cbn [fold_left].
    rewrite (Z.lor_comm (Z.lor (Z.lor _ _) _)).
    rewrite (Z.lor_comm (Z.lor _ _) (Z.shiftl _ 8)).
    rewrite (Z.lor_comm (Z.shiftl _ 24) (Z.shiftl _ 16)).
    rewrite !Z.lor_assoc.
    rewrite word_of_four_bytes; [lia | apply B3 | apply B2 | apply B1 | apply B0]; lia.
Qed.

(** X11.  Both whole-message programs cut a 64-byte block into sixteen
    words of four consecutive bytes; MD5 reads each group of four
    least significant byte first, SHA-1 reads the same four bytes
    most significant byte first. *)
Theorem decode_byte_order (paddedMessage : list Z) (i : nat) :
  Forall (fun b => 0 <= b < 256) paddedMessage ->
  (i + 64 <= length paddedMessage)%nat ->
  Md5.decode paddedMessage (Z.of_nat i)
  = map (fun j => le_value (window paddedMessage (i + 4 * j) 4)) (seq 0 16) /\
  Sha1.decode paddedMessage (Z.of_nat i)
  = map (fun j => be_value (window paddedMessage (i + 4 * j) 4)) (seq 0 16).
Proof. intros Hbytes Hin. now apply decode_words. Qed.

Lemma decode_byte_order_witness :
  Md5.decode sample_buf1 (Z.of_nat 64)
  = map (fun j => le_value (window sample_buf1 (64 + 4 * j) 4)) (seq 0 16) /\
  Sha1.decode sample_buf1 (Z.of_nat 64)
  = map (fun j => be_value (window sample_buf1 (64 + 4 * j) 4)) (seq 0 16).
Proof.
  apply (decode_byte_order sample_buf1 64).
  - apply Forall_forall. intros b Hb. unfold sample_buf1 in Hb.
    apply in_map_iff in Hb. destruct Hb as [k [<- Hk]]. apply in_seq in Hk. lia.
  - apply Nat.leb_le. vm_compute. reflexivity.
Defined.

(** * The size of the padded message *)

Lemma length_field_reversed bits :
  Sha1.length_field bits = rev (Md5.length_field bits).
Proof. reflexivity. Qed.

Lemma firstn_length_app {A : Type} (l1 l2 : list A) :
  firstn (length l1) (l1 ++ l2) = l1.
Proof. now rewrite firstn_app, Nat.sub_diag, firstn_O, firstn_all, app_nil_r. Qed.

Lemma skipn_length_app {A : Type} (l1 l2 : list A) :
  skipn (length l1) (l1 ++ l2) = l2.
Proof. now rewrite skipn_app, Nat.sub_diag, skipn_O, skipn_all. Qed.

Lemma padded_bytes_count (n : nat) :
  (n + 1 + zero_fill n + 8 = 64 * ((n + 8) / 64 + 1))%nat.
Proof.
  unfold zero_fill. apply Nat2Z.inj.
  rewrite !Nat2Z.inj_add, Nat2Z.inj_mul, Nat2Z.inj_add, Nat2Z.inj_div, Nat2Z.inj_add.
  pose proof (Z.mod_pos_bound (55 - Z.of_nat n) 64 eq_refl).
  rewrite Z2Nat.id by lia.
  change (Z.of_nat 1) with 1. change (Z.of_nat 8) with 8. change (Z.of_nat 64) with 64.
  Z.to_euclidean_division_equations. lia.
Qed.

(** X12.  The padding of [Md5.cpp] and of [Sha1.cpp] keeps the message
    in front and adds the least number of bytes, at least nine, that
    makes the length a multiple of 64.  The two padded messages differ
    only in their last eight bytes, which SHA-1 has in the opposite
    order. *)
Theorem md5_and_sha1_padding_is_minimal (message : list byte) :
  exists padded5 padded1,
    Md5.padding message = Ok padded5 /\
    Sha1.padding message = Ok padded1 /\
    length padded5 = (64 * ((length message + 8) / 64 + 1))%nat /\
    firstn (length message) padded5 = map byte_val message /\
    padded1 = firstn (length padded5 - 8) padded5
                ++ rev (skipn (length padded5 - 8) padded5).
Proof.
  exists (md5_padded (Z.of_nat (length message)) message),
         (sha1_padded (Z.of_nat (length message)) message).
  split; [apply md5_padding_closed |]. split; [apply sha1_padding_closed |].
  assert (Hlen : length (md5_padded (Z.of_nat (length message)) message)
                 = (64 * ((length message + 8) / 64 + 1))%nat).
  { unfold md5_padded. rewrite !length_app, length_map, repeat_length.
    cbn [length Md5.length_field map].
    rewrite <- padded_bytes_count. lia. }
  split; [exact Hlen |]. split.
  - unfold md5_padded. rewrite <- !app_assoc.
    rewrite <- (length_map byte_val message). apply firstn_length_app.
  - unfold sha1_padded, md5_padded. rewrite length_field_reversed.
    set (field := Md5.length_field _).
    set (front := (map byte_val message ++ [128]) ++ repeat 0 (zero_fill (length message))).
    rewrite !app_assoc. fold front.
    assert (Hfront : (length (front ++ field) - 8 = length front)%nat).
    { rewrite length_app. subst field. cbn [Md5.length_field map length]. lia. }
    rewrite Hfront, firstn_length_app, skipn_length_app. reflexivity.
Qed.

(** The loop of [preProcessing] stops at the first count that meets its
    condition. *)
Lemma sha256_pad_loop_least :
  forall (k fuel : nat) length K binMessage,
    (k < fuel)%nat ->
    (length + 1 + (K + Z.of_nat k) + 64) mod 512 = 0 ->
    (forall j, (j < k)%nat -> (length + 1 + (K + Z.of_nat j) + 64) mod 512 <> 0) ->
    Sha256.pad_loop fuel length K binMessage = Ok (binMessage ++ repeat false k).
Proof.
  induction k as [| k IH]; intros fuel len K bits Hfuel Hstop Hgo;
    (destruct fuel as [| fuel]; [lia |]);
    cbn [Sha256.pad_loop]; rewrite u64_mod_512.
  - replace (len + 1 + (K + Z.of_nat 0) + 64) with (len + 1 + K + 64) in Hstop by lia.
    rewrite Hstop. cbn [Z.eqb repeat]. now rewrite app_nil_r.
  - destruct (Z.eqb_spec ((len + 1 + K + 64) mod 512) 0) as [E | E].
    + exfalso. apply (Hgo 0%nat); [lia |].
      now replace (len + 1 + (K + Z.of_nat 0) + 64) with (len + 1 + K + 64) by lia.
    + rewrite (IH fuel len (K + 1) (bits ++ [false])).
      * now rewrite <- app_assoc.
      * lia.
      * now replace (len + 1 + (K + 1 + Z.of_nat k) + 64)
          with (len + 1 + (K + Z.of_nat (S k)) + 64) by lia.
      * intros j Hj.
        replace (len + 1 + (K + 1 + Z.of_nat j) + 64)
          with (len + 1 + (K + Z.of_nat (S j)) + 64) by lia.
        apply Hgo. lia.
Qed.

Lemma sha384_pad_loop_least :
  forall (k fuel : nat) length K binMessage,
    (k < fuel)%nat ->
    (length + 1 + (K + Z.of_nat k) + 128) mod 1024 = 0 ->
    (forall j, (j < k)%nat -> (length + 1 + (K + Z.of_nat j) + 128) mod 1024 <> 0) ->
    Sha384.pad_loop fuel length K binMessage = Ok (binMessage ++ repeat false k).
Proof.
  induction k as [| k IH]; intros fuel len K bits Hfuel Hstop Hgo;
    (destruct fuel as [| fuel]; [lia |]);
    cbn [Sha384.pad_loop]; rewrite u64_mod_1024.
  - replace (len + 1 + (K + Z.of_nat 0) + 128) with (len + 1 + K + 128) in Hstop by lia.
    rewrite Hstop. cbn [Z.eqb repeat]. now rewrite app_nil_r.
  - destruct (Z.eqb_spec ((len + 1 + K + 128) mod 1024) 0) as [E | E].
    + exfalso. apply (Hgo 0%nat); [lia |].
      now replace (len + 1 + (K + Z.of_nat 0) + 128) with (len + 1 + K + 128) by lia.
    + rewrite (IH fuel len (K + 1) (bits ++ [false])).
      * now rewrite <- app_assoc.
      * lia.
      * now replace (len + 1 + (K + 1 + Z.of_nat k) + 128)
          with (len + 1 + (K + Z.of_nat (S k)) + 128) by lia.
      * intros j Hj.
        replace (len + 1 + (K + 1 + Z.of_nat j) + 128)
          with (len + 1 + (K + Z.of_nat (S j)) + 128) by lia.
        apply Hgo. lia.
Qed.

Lemma sha256_zero_bits (n : nat) :
  let k := Z.to_nat ((447 - Z.of_nat n) mod 512) in
  (k < 512)%nat /\
  (Z.of_nat n + 1 + (0 + Z.of_nat k) + 64) mod 512 = 0 /\
  (forall j, (j < k)%nat -> (Z.of_nat n + 1 + (0 + Z.of_nat j) + 64) mod 512 <> 0) /\
  (n + 1 + k + 64 = 512 * ((n + 64) / 512 + 1))%nat.
Proof.
  intros k. subst k.
  pose proof (Z.mod_pos_bound (447 - Z.of_nat n) 512 eq_refl) as Hk.
  repeat split.
  - lia.
  - rewrite Z2Nat.id by lia. clear Hk. Z.to_euclidean_division_equations. lia.
  - intros j Hj. assert (Hj' : 0 <= Z.of_nat j < (447 - Z.of_nat n) mod 512) by lia.
    clear Hj Hk. generalize dependent (Z.of_nat j). intros z Hz.
    Z.to_euclidean_division_equations. lia.
  - apply Nat2Z.inj.
    rewrite !Nat2Z.inj_add, Nat2Z.inj_mul, Nat2Z.inj_add, Nat2Z.inj_div, Nat2Z.inj_add.
    rewrite Z2Nat.id by lia.
    change (Z.of_nat 1) with 1. change (Z.of_nat 64) with 64.
    change (Z.of_nat 512) with 512.
    clear Hk. Z.to_euclidean_division_equations. lia.
Qed.

Lemma sha384_zero_bits (n : nat) :
  let k := Z.to_nat ((895 - Z.of_nat n) mod 1024) in
  (k < 1024)%nat /\
  (Z.of_nat n + 1 + (0 + Z.of_nat k) + 128) mod 1024 = 0 /\
  (forall j, (j < k)%nat -> (Z.of_nat n + 1 + (0 + Z.of_nat j) + 128) mod 1024 <> 0) /\
  (n + 1 + k + 128 = 1024 * ((n + 128) / 1024 + 1))%nat.
Proof.
  intros k. subst k.
  pose proof (Z.mod_pos_bound (895 - Z.of_nat n) 1024 eq_refl) as Hk.
  repeat split.
  - lia.
  - rewrite Z2Nat.id by lia. clear Hk. Z.to_euclidean_division_equations. lia.
  - intros j Hj. assert (Hj' : 0 <= Z.of_nat j < (895 - Z.of_nat n) mod 1024) by lia.
    clear Hj Hk. generalize dependent (Z.of_nat j). intros z Hz.
    Z.to_euclidean_division_equations. lia.
  - apply Nat2Z.inj.
    rewrite !Nat2Z.inj_add, Nat2Z.inj_mul, Nat2Z.inj_add, Nat2Z.inj_div, Nat2Z.inj_add.
    rewrite Z2Nat.id by lia.
    change (Z.of_nat 1) with 1. change (Z.of_nat 128) with 128.
    change (Z.of_nat 1024) with 1024.
    clear Hk. Z.to_euclidean_division_equations. lia.
Qed.

Lemma pad_condition_512 len n K :
  len mod 512 = Z.of_nat n mod 512 ->
  (len + 1 + K + 64) mod 512 = (Z.of_nat n + 1 + K + 64) mod 512.
Proof. intros H. Z.to_euclidean_division_equations. lia. Qed.

Lemma pad_condition_1024 len n K :
  len mod 1024 = Z.of_nat n mod 1024 ->
  (len + 1 + K + 128) mod 1024 = (Z.of_nat n + 1 + K + 128) mod 1024.
Proof. intros H. Z.to_euclidean_division_equations. lia. Qed.

(** The number of zero bits [preProcessing] adds to a vector of [n]
    bits. *)
Lemma sha256_preProcessing_closed (binMessage : list bool) :
  Sha256.preProcessing (u64 (Z.of_nat (length binMessage))) binMessage
  = Ok ((binMessage ++ [true])
          ++ repeat false (Z.to_nat ((447 - Z.of_nat (length binMessage)) mod 512))
          ++ Sha256.length_bits (u64 (Z.of_nat (length binMessage)))).
Proof.
  destruct (sha256_zero_bits (length binMessage)) as [Hk [Hstop [Hgo _]]].
  set (k := Z.to_nat ((447 - Z.of_nat (length binMessage)) mod 512)) in *.
  set (size := u64 (Z.of_nat (length binMessage))).
  assert (Hsize : size mod 512 = Z.of_nat (length binMessage) mod 512)
    by apply u64_mod_512.
  unfold Sha256.preProcessing.
  rewrite (sha256_pad_loop_least k 512 size 0 (binMessage ++ [true])).
  - cbn [bind]. now rewrite <- app_assoc.
  - exact Hk.
  - rewrite (pad_condition_512 size (length binMessage)) by exact Hsize. exact Hstop.
  - intros j Hj. rewrite (pad_condition_512 size (length binMessage)) by exact Hsize.
    now apply Hgo.
Qed.

Lemma sha384_preProcessing_closed (binMessage : list bool) :
  Sha384.preProcessing (u64 (Z.of_nat (length binMessage))) binMessage
  = Ok ((binMessage ++ [true])
          ++ repeat false (Z.to_nat ((895 - Z.of_nat (length binMessage)) mod 1024))
          ++ Sha384.length_bits (u64 (Z.of_nat (length binMessage)))).
Proof.
  destruct (sha384_zero_bits (length binMessage)) as [Hk [Hstop [Hgo _]]].
  set (k := Z.to_nat ((895 - Z.of_nat (length binMessage)) mod 1024)) in *.
  set (size := u64 (Z.of_nat (length binMessage))).
  assert (Hsize : size mod 1024 = Z.of_nat (length binMessage) mod 1024)
    by apply u64_mod_1024.
  unfold Sha384.preProcessing.
  rewrite (sha384_pad_loop_least k 1024 size 0 (binMessage ++ [true])).
  - cbn [bind]. now rewrite <- app_assoc.
  - exact Hk.
  - rewrite (pad_condition_1024 size (length binMessage)) by exact Hsize. exact Hstop.
  - intros j Hj. rewrite (pad_condition_1024 size (length binMessage)) by exact Hsize.
    now apply Hgo.
Qed.

(** X13.  [preProcessing] of [Sha256.cpp] and of [src/Sha384.cpp], called
    as the programs call it with the size of the bit vector, keeps the
    message bits in front, puts the bit 1 after them, and makes the
    vector as long as the least multiple of the block size (512, 1024)
    that has room for this bit and the length field (64, 128 bits). *)
Theorem preProcessing_pads_to_the_next_block (binMessage : list bool) :
  let size := u64 (Z.of_nat (length binMessage)) in
  (exists padded,
      Sha256.preProcessing size binMessage = Ok padded /\
      length padded = (512 * ((length binMessage + 64) / 512 + 1))%nat /\
      firstn (length binMessage + 1) padded = binMessage ++ [true]) /\
  (exists padded,
      Sha384.preProcessing size binMessage = Ok padded /\
      length padded = (1024 * ((length binMessage + 128) / 1024 + 1))%nat /\
      firstn (length binMessage + 1) padded = binMessage ++ [true]).
Proof.
  intros size.
  assert (Hfront : (length binMessage + 1 = length (binMessage ++ [true]))%nat)
    by (rewrite length_app; reflexivity).
  split.
  - destruct (sha256_zero_bits (length binMessage)) as [_ [_ [_ Hcount]]].
    eexists. split; [apply sha256_preProcessing_closed |]. split.
    + rewrite !length_app, repeat_length, sha256_length_bits_length.
      cbn [length]. lia.
    + rewrite Hfront. apply firstn_length_app.
  - destruct (sha384_zero_bits (length binMessage)) as [_ [_ [_ Hcount]]].
    eexists. split; [apply sha384_preProcessing_closed |]. split.
    + rewrite !length_app, repeat_length, sha384_length_bits_length.
      cbn [length]. lia.
    + rewrite Hfront. apply firstn_length_app.
Qed.

(** * CRC-32 *)

Lemma nth_store (t : list Z) (i : nat) (v : Z) (j : nat) (d : Z) :
  (i < length t)%nat ->
  nth j (store t i v) d = if (j =? i)%nat then v else nth j t d.
Proof.
  intros Hi. unfold store.
  assert (Hfront : length (firstn i t) = i) by (rewrite length_firstn; lia).
  destruct (Nat.eqb_spec j i) as [-> | Hne].
  - rewrite app_nth2 by lia. rewrite Hfront, Nat.sub_diag. reflexivity.
  - destruct (Nat.lt_ge_cases j i) as [Hlt | Hge].
    + rewrite app_nth1 by lia. rewrite nth_firstn.
      destruct (Nat.ltb_spec j i); [reflexivity | lia].
    + rewrite app_nth2 by lia. rewrite Hfront.
      replace (j - i)%nat with (Datatypes.S (j - i - 1)) by lia.
      cbn [nth]. rewrite nth_skipn. f_equal. lia.
Qed.

Lemma nth_fold_store (f : nat -> Z) (l : list nat) (j : nat) (d : Z) :
  forall t,
    Forall (fun i => (i < length t)%nat) l ->
    nth j (fold_left (fun t i => store t i (f i)) l t) d
    = if existsb (Nat.eqb j) l then f j else nth j t d.
Proof.
  induction l as [| i l IH]; intros t Hl; [reflexivity |].
  inversion Hl as [| ? ? Hi Hrest]; subst.
  cbn [fold_left existsb]. rewrite IH.
  - rewrite nth_store by assumption.
    destruct (Nat.eqb_spec j i) as [-> | Hne]; cbn [orb];
      destruct (existsb (Nat.eqb _) l); reflexivity.
  - rewrite store_length_kept by assumption. exact Hrest.
Qed.

Lemma generateCRC32Table_length table :
  length table = 256%nat -> length (Crc.generateCRC32Table table) = 256%nat.
Proof.
  intros Hlen. unfold Crc.generateCRC32Table.
  rewrite (fold_left_store_length (fun i => i) (fun i => Crc.entry (Z.of_nat i)));
    [exact Hlen |].
  intros i Hi. apply in_seq in Hi. lia.
Qed.

Lemma generateCRC32Table_at table (j : nat) :
  length table = 256%nat -> (j < 256)%nat ->
  nth j (Crc.generateCRC32Table table) 0 = Crc.entry (Z.of_nat j).
Proof.
  intros Hlen Hj. unfold Crc.generateCRC32Table.
  rewrite (nth_fold_store (fun i => Crc.entry (Z.of_nat i))).
  - replace (existsb (Nat.eqb j) (seq 0 256)) with true; [reflexivity |].
    symmetry. apply existsb_exists. exists j. split; [apply in_seq; lia |].
    apply Nat.eqb_refl.
  - apply Forall_forall. intros i Hi. apply in_seq in Hi. lia.
Qed.

Lemma generateCRC32Table_entries table :
  length table = 256%nat ->
  Crc.generateCRC32Table table = map (fun i => Crc.entry (Z.of_nat i)) (seq 0 256).
Proof.
  intros Hlen. apply (nth_ext _ _ 0 0).
  - rewrite generateCRC32Table_length by assumption.
    now rewrite length_map, length_seq.
  - intros j Hj. rewrite generateCRC32Table_length in Hj by assumption.
    rewrite generateCRC32Table_at by assumption.
    rewrite (nth_indep _ 0 (Crc.entry (Z.of_nat 0))) by (rewrite length_map, length_seq; lia).
    rewrite (map_nth (fun i => Crc.entry (Z.of_nat i))), seq_nth by assumption.
    reflexivity.
Qed.

(** ** The shift step is linear over exclusive or *)

Lemma low_bit_test a : negb (Z.land a 1 =? 0) = Z.testbit a 0.
Proof.
  change 1 with (Z.ones 1). rewrite Z.land_ones by lia. change (2 ^ 1) with 2.
  rewrite <- Z.bit0_mod. now destruct (Z.testbit a 0).
Qed.

Lemma shift_step_eq a :
  Crc.shift_step a
  = Z.lxor (Z.shiftr a 1) (if Z.testbit a 0 then Crc.CRC32_POLYNOMIAL else 0).
Proof.
  unfold Crc.shift_step. rewrite low_bit_test.
  destruct (Z.testbit a 0); [reflexivity | now rewrite Z.lxor_0_r].
Qed.

Lemma shift_step_lxor a b :
  Crc.shift_step (Z.lxor a b) = Z.lxor (Crc.shift_step a) (Crc.shift_step b).
Proof.
  rewrite !shift_step_eq, Z.shiftr_lxor, Z.lxor_spec.
  apply Z.bits_inj'. intros k _. rewrite !Z.lxor_spec.
  destruct (Z.testbit a 0), (Z.testbit b 0); cbn [xorb];
    rewrite ?Z.bits_0;
    destruct (Z.testbit (Z.shiftr a 1) k), (Z.testbit (Z.shiftr b 1) k),
             (Z.testbit Crc.CRC32_POLYNOMIAL k); reflexivity.
Qed.

Lemma crc_shift8_lxor a b :
  crc_shift8 (Z.lxor a b) = Z.lxor (crc_shift8 a) (crc_shift8 b).
Proof.
  unfold crc_shift8. cbn [fold_left seq]. now rewrite !shift_step_lxor.
Qed.

Lemma shift_step_shiftl h k :
  0 < k -> Crc.shift_step (Z.shiftl h k) = Z.shiftl h (k - 1).
Proof.
  intros Hk. rewrite shift_step_eq, Z.shiftl_spec_low by lia.
  rewrite Z.lxor_0_r, Z.shiftr_shiftl_l by lia. reflexivity.
Qed.

Lemma crc_shift8_high h : crc_shift8 (Z.shiftl h 8) = h.
Proof.
  unfold crc_shift8. cbn [fold_left seq].
  do 8 (rewrite shift_step_shiftl by lia).
  apply Z.shiftl_0_r.
Qed.

Lemma split_low_byte x :
  x = Z.lxor (Z.shiftl (Z.shiftr x 8) 8) (Z.land x 0xFF).
Proof.
  apply Z.bits_inj'. intros k Hk. rewrite Z.lxor_spec, Z.land_spec.
  change 0xFF with (Z.ones 8).
  destruct (Z.lt_ge_cases k 8) as [Hlow | Hhigh].
  - rewrite Z.shiftl_spec_low, Z.ones_spec_low by lia.
    now rewrite andb_true_r.
  - rewrite Z.shiftl_spec, Z.shiftr_spec, Z.ones_spec_high by lia.
    replace (k - 8 + 8) with k by lia.
    now rewrite andb_false_r, xorb_false_r.
Qed.

Lemma byte_val_range (c : byte) : 0 <= byte_val c < 256.
Proof. destruct c; vm_compute; split; congruence. Qed.

Lemma low_byte_range x : 0 <= Z.land x 0xFF < 256.
Proof.
  change 0xFF with (Z.ones 8). rewrite Z.land_ones by lia.
  apply Z.mod_pos_bound. reflexivity.
Qed.

(** One byte through the table is eight shifts of the register. *)
Lemma update_is_shift8 table crc (c : byte) :
  length table = 256%nat ->
  Crc.update (Crc.generateCRC32Table table) crc c
  = crc_shift8 (Z.lxor crc (byte_val c)).
Proof.
  intros Hlen. unfold Crc.update. cbv zeta.
  set (x := Z.lxor crc (byte_val c)).
  pose proof (low_byte_range x) as Hidx.
  unfold at_. rewrite generateCRC32Table_at by (try assumption; lia).
  rewrite Z2Nat.id by lia.
  rewrite (split_low_byte x) at 2.
  rewrite crc_shift8_lxor, crc_shift8_high.
  apply (f_equal2 Z.lxor); [| reflexivity].
  subst x. rewrite Z.shiftr_lxor.
  rewrite (Z.shiftr_div_pow2 (byte_val c)) by lia.
  pose proof (byte_val_range c).
  rewrite (Z.div_small (byte_val c)) by (change (2 ^ 8) with 256; lia).
  now rewrite Z.lxor_0_r.
Qed.

Lemma calculateCRC32_bitwise (table : list Z) (data : list byte) :
  length table = 256%nat ->
  Crc.calculateCRC32 data (Crc.generateCRC32Table table) = crc_bitwise data.
Proof.
  intros Hlen. unfold Crc.calculateCRC32, crc_bitwise. cbv zeta. f_equal.
  generalize 0xFFFFFFFF. induction data as [| c data IH]; intros crc; [reflexivity |].
  cbn [fold_left]. rewrite update_is_shift8 by assumption. apply IH.
Qed.

(** X14.  The table [generateCRC32Table] fills in is used correctly by
    [calculateCRC32]: whatever the array held before, the checksum
    computed through the table is the checksum computed bit by bit, by
    adding each byte to the low end of the register and shifting it
    eight times with the polynomial. *)
Theorem crc32_table_agrees_with_bitwise (table : list Z) (data : list byte) :
  length table = 256%nat ->
  Crc.calculateCRC32 data (Crc.generateCRC32Table table) = crc_bitwise data.
Proof. intros Hlen. now apply calculateCRC32_bitwise. Qed.

Lemma crc32_table_agrees_with_bitwise_witness :
  Crc.calculateCRC32 (bytes_of "123456789") (Crc.generateCRC32Table (repeat 77 256))
  = crc_bitwise (bytes_of "123456789").
Proof.
  apply (crc32_table_agrees_with_bitwise (repeat 77 256) (bytes_of "123456789")).
  reflexivity.
Defined.

(** X15.  [generateCRC32Table] writes each of the 256 entries of the
    array and nothing else: the result is the list of the entries, so
    [crc32], which passes an uninitialised array, prints a string that
    does not depend on what the array held before. *)
Theorem generateCRC32Table_overwrites_the_array (table : list Z) (strMessage : list byte) :
  length table = 256%nat ->
  Crc.generateCRC32Table table = map (fun i => Crc.entry (Z.of_nat i)) (seq 0 256) /\
  Crc.crc32_from table strMessage = Crc.crc32 strMessage.
Proof.
  intros Hlen. split; [now apply generateCRC32Table_entries |].
  unfold Crc.crc32, Crc.crc32_from. cbv zeta.
  rewrite (generateCRC32Table_entries table), (generateCRC32Table_entries (repeat 0 256));
    [reflexivity | apply repeat_length | exact Hlen].
Qed.

Lemma generateCRC32Table_overwrites_the_array_witness :
  Crc.generateCRC32Table (repeat 77 256)
  = map (fun i => Crc.entry (Z.of_nat i)) (seq 0 256) /\
  Crc.crc32_from (repeat 77 256) (bytes_of "abc") = Crc.crc32 (bytes_of "abc").
Proof.
  apply (generateCRC32Table_overwrites_the_array (repeat 77 256) (bytes_of "abc")).
  reflexivity.
Defined.

(** ** The checksum fits 32 bits *)

Lemma lxor_in32 a b : in32 a -> in32 b -> in32 (Z.lxor a b).
Proof.
  unfold in32. intros Ha Hb.
  assert (H0 : 0 <= Z.lxor a b) by (apply Z.lxor_nonneg; lia).
  split; [exact H0 |].
  destruct (Z.eq_dec (Z.lxor a b) 0) as [-> | Hnz]; [reflexivity |].
  apply Z.log2_lt_pow2; [lia |].
  apply Z.le_lt_trans with (Z.max (Z.log2 a) (Z.log2 b)); [apply Z.log2_lxor; lia |].
  apply Z.max_lub_lt.
  - destruct (Z.eq_dec a 0) as [-> | Ha0]; [reflexivity | apply Z.log2_lt_pow2; lia].
  - destruct (Z.eq_dec b 0) as [-> | Hb0]; [reflexivity | apply Z.log2_lt_pow2; lia].
Qed.

Lemma shiftr_in32 a n : 0 <= n -> in32 a -> in32 (Z.shiftr a n).
Proof.
  unfold in32. intros Hn Ha. rewrite Z.shiftr_div_pow2 by assumption.
  assert (0 < 2 ^ n) by (apply Z.pow_pos_nonneg; lia).
  split; [apply Z.div_pos; lia |].
  apply Z.le_lt_trans with a; [| lia].
  apply Z.div_le_upper_bound; nia.
Qed.

Lemma crc_entry_in32 (j : nat) : (j < 256)%nat -> in32 (Crc.entry (Z.of_nat j)).
Proof.
  intros Hj.
  assert (Hall : forallb (fun i => (0 <=? Crc.entry (Z.of_nat i))
                                   && (Crc.entry (Z.of_nat i) <? 2 ^ 32))
                         (seq 0 256) = true) by (vm_compute; reflexivity).
  rewrite forallb_forall in Hall.
  specialize (Hall j). rewrite in_seq in Hall.
  destruct (andb_prop _ _ (Hall ltac:(lia))) as [H1 H2].
  apply Z.leb_le in H1. apply Z.ltb_lt in H2. split; assumption.
Qed.

Lemma crc_update_in32 table crc (c : byte) :
  length table = 256%nat -> in32 crc ->
  in32 (Crc.update (Crc.generateCRC32Table table) crc c).
Proof.
  intros Hlen Hcrc. unfold Crc.update. cbv zeta.
  pose proof (low_byte_range (Z.lxor crc (byte_val c))) as Hidx.
  apply lxor_in32; [apply shiftr_in32; [lia | exact Hcrc] |].
  unfold at_. rewrite generateCRC32Table_at by (try assumption; lia).
  apply crc_entry_in32. lia.
Qed.

Lemma calculateCRC32_in32 table data :
  length table = 256%nat ->
  in32 (Crc.calculateCRC32 data (Crc.generateCRC32Table table)).
Proof.
  intros Hlen. unfold Crc.calculateCRC32. cbv zeta.
  apply lxor_in32; [| split; [lia | reflexivity]].
  assert (Hstart : in32 0xFFFFFFFF) by (split; [lia | reflexivity]).
  revert Hstart. generalize 0xFFFFFFFF.
  induction data as [| c data IH]; intros crc Hcrc; [exact Hcrc |].
  cbn [fold_left]. apply IH. now apply crc_update_in32.
Qed.

(** X16.  On every input the CRC-32 program prints eight lowercase
    hexadecimal digits: the four bytes of the checksum, most significant
    first, with leading zeros kept. *)
Theorem crc32_prints_eight_hex_digits (strMessage : list byte) :
  Crc.crc32 strMessage
  = render (be_bytes 4 (Crc.calculateCRC32 strMessage
                          (Crc.generateCRC32Table (repeat 0 256)))) /\
  String.length (Crc.crc32 strMessage) = 8%nat /\
  lower_hex (Crc.crc32 strMessage) = true.
Proof.
  assert (Hout : Crc.crc32 strMessage
                 = render (be_bytes 4 (Crc.calculateCRC32 strMessage
                                         (Crc.generateCRC32Table (repeat 0 256))))).
  { unfold Crc.crc32, Crc.crc32_from, Crc.crc32ToHex, render. cbv zeta. f_equal.
    apply sha1_print_word. apply calculateCRC32_in32. apply repeat_length. }
  rewrite Hout. split; [reflexivity |]. split.
  - rewrite render_length. unfold be_bytes, le_bytes.
    now rewrite length_rev, length_map, length_seq.
  - apply render_lower_hex, be_bytes_range.
Qed.

(** The check value of CRC-32. *)
Example crc32_check_value : Crc.crc32 (bytes_of "123456789") = "cbf43926"%string.
Proof. vm_compute. reflexivity. Qed.

(** * What [src/Sha384.cpp] reads of a block *)

Lemma sha384_load_value bits (c : nat) :
  (1024 * (c + 1) <= length bits)%nat ->
  Sha384.load bits (Z.of_nat c * 1024)
  = map (fun i => bits_value (window bits (1024 * c + 64 * i) 32)) (seq 0 16).
Proof.
  intros Hin. unfold Sha384.load. rewrite map_map. apply map_ext_in.
  intros i Hi. apply in_seq in Hi.
  replace (Z.of_nat c * 1024 + Z.of_nat i * 64) with (Z.of_nat (1024 * c + 64 * i)) by lia.
  apply bitsToUsignedInt_value; lia.
Qed.

(** Two vectors that agree on the first half of every 64-bit word have
    the same 32-bit windows at the start of every word. *)
Lemma half_word_windows (bits1 bits2 : list bool) (o : nat) :
  length bits1 = length bits2 ->
  (forall p, (p mod 64 < 32)%nat -> nth p bits1 false = nth p bits2 false) ->
  (o mod 64 = 0)%nat ->
  window bits1 o 32 = window bits2 o 32.
Proof.
  intros Hlen Hsame Ho. apply (nth_ext _ _ false false).
  - unfold window. rewrite !length_firstn, !length_skipn. lia.
  - intros k Hk. unfold window in Hk. rewrite length_firstn in Hk.
    rewrite !nth_window by lia. apply Hsame.
    rewrite Nat.Div0.add_mod, Ho, Nat.add_0_l, Nat.Div0.mod_mod.
    rewrite Nat.mod_small; lia.
Qed.

Lemma sha384_chunks_half_words (bits1 bits2 : list bool) (K : list Z) st :
  length bits1 = length bits2 ->
  (forall p, (p mod 64 < 32)%nat -> nth p bits1 false = nth p bits2 false) ->
  Sha384.chunks bits1 K st = Sha384.chunks bits2 K st.
Proof.
  intros Hlen Hsame. unfold Sha384.chunks. rewrite <- Hlen.
  apply for_loop_ext. intros j s Hj.
  assert (Hdiv : u64 (Z.of_nat (length bits1)) / 1024 <= Z.of_nat (length bits1) / 1024).
  { apply Z.div_le_mono; [lia |]. unfold u64. apply Z.mod_le; lia. }
  rewrite Z2Nat.id in Hj by (apply Z.div_pos; [unfold u64; apply Z.mod_pos_bound |]; lia).
  assert (Hin : (1024 * (Z.to_nat j + 1) <= length bits1)%nat).
  { apply Nat2Z.inj_le. rewrite Nat2Z.inj_mul, Nat2Z.inj_add, Z2Nat.id by lia.
    change (Z.of_nat 1024) with 1024. change (Z.of_nat 1) with 1.
    assert (j + 1 <= Z.of_nat (length bits1) / 1024) by lia.
    clear Hdiv Hj. Z.to_euclidean_division_equations. lia. }
  unfold Sha384.chunk. cbv zeta.
  rewrite <- (Z2Nat.id j) by lia.
  rewrite !sha384_load_value by (rewrite <- ?Hlen; exact Hin).
  rewrite (map_ext_in _ (fun i => bits_value (window bits2 (1024 * Z.to_nat j + 64 * i) 32)));
    [reflexivity |].
  intros i _. f_equal. apply half_word_windows; try assumption.
  replace (1024 * Z.to_nat j + 64 * i)%nat with (0 + (16 * Z.to_nat j + i) * 64)%nat by lia.
  now rewrite Nat.Div0.mod_add.
Qed.

Lemma text_bit (words : list byte) (p : nat) (c : byte) :
  nth_error words (p / 8) = Some c ->
  nth p (fst (ShaH.TextToBinaryString words)) false
  = nth (p mod 8) (map (fun i => ShaH.char_bit c i) [7; 6; 5; 4; 3; 2; 1; 0]) false.
Proof.
  intros Hc. rewrite <- (TextToBinaryString_window words (p / 8) c Hc).
  rewrite nth_window by (apply Nat.mod_upper_bound; discriminate).
  f_equal. apply Nat.div_mod_eq.
Qed.

Lemma half_word_byte (p : nat) : (p mod 64 < 32)%nat -> ((p / 8) mod 8 < 4)%nat.
Proof.
  intros Hp. apply Nat2Z.inj_lt. apply Nat2Z.inj_lt in Hp.
  rewrite Nat2Z.inj_mod, ?Nat2Z.inj_div in *.
  change (Z.of_nat 64) with 64 in Hp. change (Z.of_nat 32) with 32 in Hp.
  change (Z.of_nat 8) with 8. change (Z.of_nat 4) with 4.
  pose proof (Nat2Z.is_nonneg p). generalize dependent (Z.of_nat p). intros z Hz Hnn.
  Z.to_euclidean_division_equations. lia.
Qed.

(** X17.  [src/Sha384.cpp] loads each 64-bit message word with the
    32-turn loop of [bitsToUsignedInt], so of every eight bytes of the
    message it reads the first four only: two messages of the same length
    that agree on the bytes at positions 0..3 modulo 8 get the same
    output. *)
Theorem sha384_reads_the_first_half_of_each_word (m1 m2 : list byte) :
  length m1 = length m2 ->
  (forall k, (k mod 8 < 4)%nat -> nth_error m1 k = nth_error m2 k) ->
  Sha384.sha384_io m1 = Sha384.sha384_io m2 /\ Sha384.sha384 m1 = Sha384.sha384 m2.
Proof.
  intros Hlen Hsame.
  assert (Hio : Sha384.sha384_io m1 = Sha384.sha384_io m2);
    [| split; [exact Hio | unfold Sha384.sha384; now rewrite Hio]].
  unfold Sha384.sha384_io.
  pose proof (TextToBinaryString_length m1) as Hb1.
  pose proof (TextToBinaryString_length m2) as Hb2.
  assert (Hnth : forall p, (p mod 64 < 32)%nat ->
                           nth p (fst (ShaH.TextToBinaryString m1)) false
                           = nth p (fst (ShaH.TextToBinaryString m2)) false).
  { intros p Hp. destruct (Nat.lt_ge_cases p (8 * length m1)) as [Hin | Hout].
    - assert (Hk : (p / 8 < length m1)%nat) by (apply Nat.Div0.div_lt_upper_bound; lia).
      destruct (nth_error m1 (p / 8)) as [c |] eqn:Hc;
        [| apply nth_error_None in Hc; lia].
      rewrite (text_bit m1 p c Hc). symmetry. apply text_bit.
      rewrite <- Hsame by (now apply half_word_byte). exact Hc.
    - rewrite !nth_overflow by lia. reflexivity. }
  unfold ShaH.TextToBinaryString in *. cbn [fst] in *.
  set (b1 := flat_map _ m1) in *. set (b2 := flat_map _ m2) in *.
  assert (Hbits : length b1 = length b2) by lia.
  rewrite !sha384_preProcessing_closed. cbn [bind]. rewrite <- Hbits.
  set (tail := repeat false _ ++ Sha384.length_bits _).
  unfold Sha384.processing.
  assert (Hpadded : length ((b1 ++ [true]) ++ tail) = length ((b2 ++ [true]) ++ tail))
    by (rewrite !length_app; lia).
  rewrite (sha384_chunks_half_words ((b1 ++ [true]) ++ tail) ((b2 ++ [true]) ++ tail)).
  - unfold Sha384.length_check. rewrite Hpadded. reflexivity.
  - exact Hpadded.
  - intros p Hp. rewrite <- !app_assoc.
    destruct (Nat.lt_ge_cases p (length b1)) as [Hin | Hout].
    + rewrite (app_nth1 b1), (app_nth1 b2) by lia. now apply Hnth.
    + rewrite (app_nth2 b1), (app_nth2 b2) by lia. now rewrite Hbits.
Qed.

Lemma sha384_reads_the_first_half_of_each_word_witness :
  Sha384.sha384_io (bytes_of "abcdEFGH") = Sha384.sha384_io (bytes_of "abcdefgh") /\
  Sha384.sha384 (bytes_of "abcdEFGH") = Sha384.sha384 (bytes_of "abcdefgh").
Proof.
  apply (sha384_reads_the_first_half_of_each_word
           (bytes_of "abcdEFGH") (bytes_of "abcdefgh")).
  - reflexivity.
  - intros k Hk.
    do 4 (destruct k as [| k]; [reflexivity |]).
    do 4 (destruct k as [| k]; [cbn in Hk; lia |]).
    reflexivity.
Defined.

(** * The message schedules *)

(** A loop that appends one word per turn, computed from the words
    written before, builds the array that the same assignments build in
    place. *)
Lemma append_loop_in_place
      (body : Z -> list Z -> res (list Z)) (g : Z -> list Z -> Z) (base : Z) :
  (forall j w, body j w = Ok (w ++ [g j w])) ->
  (forall j w w', base <= j ->
                  (forall k, 0 <= k < j -> at_ w k = at_ w' k) -> g j w = g j w') ->
  forall n w0 lo,
    base <= lo -> lo = Z.of_nat (length w0) ->
    exists w,
      for_loop body lo n w0 = Ok w /\
      length w = (length w0 + n)%nat /\
      firstn (length w0) w = w0 /\
      forall j, lo <= j < lo + Z.of_nat n -> at_ w j = g j w.
Proof.
  intros Hbody Hreads.
  induction n as [| n IH]; intros w0 lo Hbase Hlo.
  - exists w0. cbn [for_loop]. repeat split.
    + lia.
    + apply firstn_all.
    + intros j Hj. lia.
  - cbn [for_loop]. rewrite Hbody. cbn [bind].
    destruct (IH (w0 ++ [g lo w0]) (lo + 1)) as [w [Hrun [Hlen [Hfront Hrec]]]].
    + lia.
    + rewrite length_app. cbn [length]. lia.
    + rewrite length_app in Hlen, Hfront. cbn [length] in Hlen, Hfront.
      assert (Hlow : forall k, 0 <= k <= lo ->
                               at_ w k = at_ (w0 ++ [g lo w0]) k).
      { intros k Hk. unfold at_. rewrite <- Hfront.
        rewrite nth_firstn.
        destruct (Nat.ltb_spec (Z.to_nat k) (length w0 + 1)); [reflexivity | lia]. }
      exists w. split; [exact Hrun |]. split; [lia |]. split.
      * rewrite <- (firstn_length_app w0 [g lo w0]) at 2.
        rewrite <- Hfront, firstn_firstn. f_equal. lia.
      * intros j Hj. destruct (Z.eq_dec j lo) as [-> | Hne].
        -- rewrite Hlow by lia. unfold at_ at 1.
           rewrite app_nth2 by lia.
           replace (Z.to_nat lo - length w0)%nat with 0%nat by lia.
           cbn [nth]. apply Hreads; [exact Hbase |].
           intros k Hk. rewrite Hlow by lia. unfold at_.
           rewrite app_nth1 by lia. reflexivity.
        -- apply Hrec. lia.
Qed.

Lemma sha1_extend_appends j w : Sha1.extend j w = Ok (w ++ [sha1_word j w]).
Proof.
  unfold Sha1.extend, sha1_word.
  rewrite sha1_leftRotate_eq, leftRotate_defined by lia. reflexivity.
Qed.

Lemma sha256_extend_appends i w : Sha256.extend i w = Ok (w ++ [sha256_word i w]).
Proof.
  unfold Sha256.extend, sha256_word, rotr.
  rewrite !rotateRightByN_defined by lia. reflexivity.
Qed.

Lemma sha384_extend_appends i w : Sha384.extend i w = Ok (w ++ [sha384_word i w]).
Proof.
  unfold Sha384.extend, sha384_word, rotr.
  rewrite !rotateRightByN_defined by lia. reflexivity.
Qed.

Lemma sha1_word_reads j w w' :
  16 <= j -> (forall k, 0 <= k < j -> at_ w k = at_ w' k) ->
  sha1_word j w = sha1_word j w'.
Proof.
  intros Hj Hsame. unfold sha1_word. now rewrite !Hsame by lia.
Qed.

Lemma sha256_word_reads i w w' :
  16 <= i -> (forall k, 0 <= k < i -> at_ w k = at_ w' k) ->
  sha256_word i w = sha256_word i w'.
Proof.
  intros Hi Hsame. unfold sha256_word. now rewrite !Hsame by lia.
Qed.

Lemma sha384_word_reads i w w' :
  16 <= i -> (forall k, 0 <= k < i -> at_ w k = at_ w' k) ->
  sha384_word i w = sha384_word i w'.
Proof.
  intros Hi Hsame. unfold sha384_word. now rewrite !Hsame by lia.
Qed.

(** X18.  The loops that extend the message schedule fill their arrays
    exactly: from sixteen loaded words, SHA-1 leaves 80 words, SHA-256
    64 and SHA-384 80; the first sixteen are untouched, and every later
    word [w[j]] is the value of its assignment on the final array, which
    reads only entries below [j], written before. *)
Theorem message_schedules_fill_their_arrays (w16 : list Z) :
  length w16 = 16%nat ->
  (exists w,
      Sha1.schedule w16 = Ok w /\ length w = 80%nat /\ firstn 16 w = w16 /\
      forall j, 16 <= j < 80 -> at_ w j = sha1_word j w) /\
  (exists w,
      for_loop Sha256.extend 16 48 w16 = Ok w /\ length w = 64%nat /\
      firstn 16 w = w16 /\
      forall i, 16 <= i < 64 -> at_ w i = sha256_word i w) /\
  (exists w,
      for_loop Sha384.extend 16 64 w16 = Ok w /\ length w = 80%nat /\
      firstn 16 w = w16 /\
      forall i, 16 <= i < 80 -> at_ w i = sha384_word i w).
Proof.
  intros Hlen. repeat apply conj.
  - destruct (append_loop_in_place Sha1.extend sha1_word 16
                sha1_extend_appends sha1_word_reads 64 w16 16)
      as [w [Hrun [Hw [Hfront Hrec]]]]; [lia | lia |].
    exists w. rewrite Hlen in Hw, Hfront. repeat split; try assumption.
  - destruct (append_loop_in_place Sha256.extend sha256_word 16
                sha256_extend_appends sha256_word_reads 48 w16 16)
      as [w [Hrun [Hw [Hfront Hrec]]]]; [lia | lia |].
    exists w. rewrite Hlen in Hw, Hfront. repeat split; try assumption.
  - destruct (append_loop_in_place Sha384.extend sha384_word 16
                sha384_extend_appends sha384_word_reads 64 w16 16)
      as [w [Hrun [Hw [Hfront Hrec]]]]; [lia | lia |].
    exists w. rewrite Hlen in Hw, Hfront. repeat split; try assumption.
Qed.

Lemma message_schedules_fill_their_arrays_witness :
  (exists w,
      Sha1.schedule (Sha1.decode sample_buf1 0) = Ok w /\ length w = 80%nat /\
      firstn 16 w = Sha1.decode sample_buf1 0 /\
      forall j, 16 <= j < 80 -> at_ w j = sha1_word j w) /\
  (exists w,
      for_loop Sha256.extend 16 48 (Sha1.decode sample_buf1 0) = Ok w /\
      length w = 64%nat /\ firstn 16 w = Sha1.decode sample_buf1 0 /\
      forall i, 16 <= i < 64 -> at_ w i = sha256_word i w) /\
  (exists w,
      for_loop Sha384.extend 16 64 (Sha1.decode sample_buf1 0) = Ok w /\
      length w = 80%nat /\ firstn 16 w = Sha1.decode sample_buf1 0 /\
      forall i, 16 <= i < 80 -> at_ w i = sha384_word i w).
Proof.
  apply (message_schedules_fill_their_arrays (Sha1.decode sample_buf1 0)).
  reflexivity.
Defined.

(** * [processing] on an arbitrary bit vector *)

Lemma window_of_prefix {A : Type} (l : list A) (n s len : nat) :
  (s + len <= n)%nat -> window (firstn n l) s len = window l s len.
Proof.
  intros Hin. unfold window.
  rewrite skipn_firstn_comm, firstn_firstn. f_equal. lia.
Qed.

Lemma whole_blocks (n b : nat) :
  (0 < b)%nat -> Z.of_nat n < 2 ^ 64 ->
  Z.to_nat (u64 (Z.of_nat n) / Z.of_nat b) = (n / b)%nat /\
  (b * (n / b) <= n)%nat /\
  Z.of_nat (b * (n / b)) < 2 ^ 64 /\
  (b * (n / b) / b = n / b)%nat.
Proof.
  intros Hb Hn. unfold u64. rewrite Z.mod_small by lia.
  rewrite <- Nat2Z.inj_div, Nat2Z.id.
  assert (Hle : (b * (n / b) <= n)%nat) by (apply Nat.Div0.mul_div_le).
  repeat split; [exact Hle | lia |].
  rewrite Nat.mul_comm. apply Nat.div_mul. lia.
Qed.

Lemma sha256_chunks_whole_blocks bits K st :
  Z.of_nat (length bits) < 2 ^ 64 ->
  Sha256.chunks (firstn (512 * (length bits / 512)) bits) K st
  = Sha256.chunks bits K st.
Proof.
  intros Hsize. unfold Sha256.chunks.
  destruct (whole_blocks (length bits) 512 ltac:(lia) Hsize) as [Hq [Hle [Hsmall Hdiv]]].
  change (Z.of_nat 512) with 512 in Hq.
  assert (Hfront : length (firstn (512 * (length bits / 512)) bits)
                   = (512 * (length bits / 512))%nat)
    by (rewrite length_firstn; lia).
  rewrite Hfront.
  destruct (whole_blocks (512 * (length bits / 512)) 512 ltac:(lia) Hsmall)
    as [Hq' _].
  change (Z.of_nat 512) with 512 in Hq'. rewrite Hq', Hq, Hdiv.
  apply for_loop_ext. intros j s Hj. unfold Sha256.chunk. cbv zeta.
  rewrite <- (Z2Nat.id j) by lia.
  rewrite !sha256_load_window, window_of_prefix; [reflexivity |].
  assert (Z.to_nat j < length bits / 512)%nat by lia. lia.
Qed.

Lemma sha384_chunks_whole_blocks bits K st :
  Z.of_nat (length bits) < 2 ^ 64 ->
  Sha384.chunks (firstn (1024 * (length bits / 1024)) bits) K st
  = Sha384.chunks bits K st.
Proof.
  intros Hsize. unfold Sha384.chunks.
  destruct (whole_blocks (length bits) 1024 ltac:(lia) Hsize) as [Hq [Hle [Hsmall Hdiv]]].
  change (Z.of_nat 1024) with 1024 in Hq.
  assert (Hfront : length (firstn (1024 * (length bits / 1024)) bits)
                   = (1024 * (length bits / 1024))%nat)
    by (rewrite length_firstn; lia).
  rewrite Hfront.
  destruct (whole_blocks (1024 * (length bits / 1024)) 1024 ltac:(lia) Hsmall)
    as [Hq' _].
  change (Z.of_nat 1024) with 1024 in Hq'. rewrite Hq', Hq, Hdiv.
  apply for_loop_ext. intros j s Hj. unfold Sha384.chunk. cbv zeta.
  rewrite <- (Z2Nat.id j) by lia.
  rewrite !sha384_load_window, window_of_prefix; [reflexivity |].
  assert (Z.to_nat j < length bits / 1024)%nat by lia. lia.
Qed.

Lemma length_check_512 bits :
  Z.of_nat (length bits) < 2 ^ 64 ->
  (Sha256.length_check bits = [] <-> (length bits mod 512 = 0)%nat).
Proof.
  intros Hsize. unfold Sha256.length_check, u64.
  rewrite (Z.mod_small (Z.of_nat (length bits)) (2 ^ 64)) by lia.
  change 512 with (Z.of_nat 512).
  rewrite <- Nat2Z.inj_mod.
  destruct (Z.eqb_spec (Z.of_nat (length bits mod 512)) 0) as [E | E].
  - split; [lia | reflexivity].
  - split; [discriminate | lia].
Qed.

Lemma length_check_1024 bits :
  Z.of_nat (length bits) < 2 ^ 64 ->
  (Sha384.length_check bits = [] <-> (length bits mod 1024 = 0)%nat).
Proof.
  intros Hsize. unfold Sha384.length_check, u64.
  rewrite (Z.mod_small (Z.of_nat (length bits)) (2 ^ 64)) by lia.
  change 1024 with (Z.of_nat 1024).
  rewrite <- Nat2Z.inj_mod.
  destruct (Z.eqb_spec (Z.of_nat (length bits mod 1024)) 0) as [E | E].
  - split; [lia | reflexivity].
  - split; [discriminate | lia].
Qed.

Lemma sha256_digest_bits_length st : length (Sha256.digest_bits st) = 256%nat.
Proof.
  destruct st as [[[[[[[t0 t1] t2] t3] t4] t5] t6] t7].
  unfold Sha256.digest_bits. cbn [flat_map].
  rewrite !length_app, !sha256_word_bits_length. reflexivity.
Qed.

Lemma sha384_digest_bits_length st : length (Sha384.digest_bits st) = 384%nat.
Proof.
  destruct st as [[[[[[[t0 t1] t2] t3] t4] t5] t6] t7].
  unfold Sha384.digest_bits. cbn [flat_map].
  rewrite !length_app, !sha384_word_bits_length. reflexivity.
Qed.

(** X19.  [processing] returns a digest for a bit vector of any size:
    256 bits in [Sha256.cpp], 384 in [src/Sha384.cpp].  It writes its
    error message exactly when the size is not a multiple of the block
    size, and then goes on: the digest is the one of the whole blocks,
    the bits after the last whole block are never read. *)
Theorem processing_digests_the_whole_blocks
        (binMessage : list bool) (H256 K256 H384 K384 : list Z) :
  Z.of_nat (length binMessage) < 2 ^ 64 ->
  (exists digest,
      Sha256.processing binMessage H256 K256
      = Ok (Sha256.length_check binMessage, digest) /\
      length digest = 256%nat /\
      (Sha256.length_check binMessage = [] <-> (length binMessage mod 512 = 0)%nat) /\
      Sha256.processing (firstn (512 * (length binMessage / 512)) binMessage) H256 K256
      = Ok ([], digest)) /\
  (exists digest,
      Sha384.processing binMessage H384 K384
      = Ok (Sha384.length_check binMessage, digest) /\
      length digest = 384%nat /\
      (Sha384.length_check binMessage = [] <-> (length binMessage mod 1024 = 0)%nat) /\
      Sha384.processing (firstn (1024 * (length binMessage / 1024)) binMessage) H384 K384
      = Ok ([], digest)).
Proof.
  intros Hsize. split.
  - destruct (sha256_chunks_total binMessage K256 (Sha256.initial H256)) as [st Hst].
    exists (Sha256.digest_bits st). unfold Sha256.processing.
    rewrite sha256_chunks_whole_blocks, Hst by assumption. cbn [bind].
    repeat split.
    + apply sha256_digest_bits_length.
    + apply length_check_512; assumption.
    + apply length_check_512; assumption.
    + do 2 f_equal.
      destruct (whole_blocks (length binMessage) 512 ltac:(lia) Hsize)
        as [_ [Hle [Hsmall _]]].
      apply length_check_512; rewrite length_firstn;
        replace (Nat.min (512 * (length binMessage / 512)) (length binMessage))
          with (512 * (length binMessage / 512))%nat by lia;
        [exact Hsmall |].
      rewrite Nat.mul_comm. apply Nat.Div0.mod_mul.
  - destruct (sha384_chunks_total binMessage K384 (Sha384.initial H384)) as [st Hst].
    exists (Sha384.digest_bits st). unfold Sha384.processing.
    rewrite sha384_chunks_whole_blocks, Hst by assumption. cbn [bind].
    repeat split.
    + apply sha384_digest_bits_length.
    + apply length_check_1024; assumption.
    + apply length_check_1024; assumption.
    + do 2 f_equal.
      destruct (whole_blocks (length binMessage) 1024 ltac:(lia) Hsize)
        as [_ [Hle [Hsmall _]]].
      apply length_check_1024; rewrite length_firstn;
        replace (Nat.min (1024 * (length binMessage / 1024)) (length binMessage))
          with (1024 * (length binMessage / 1024))%nat by lia;
        [exact Hsmall |].
      rewrite Nat.mul_comm. apply Nat.Div0.mod_mul.
Qed.

Lemma processing_digests_the_whole_blocks_witness :
  (exists digest,
      Sha256.processing sample_bits2 Sha256.H0 Sha256.K0
      = Ok (Sha256.length_check sample_bits2, digest) /\
      length digest = 256%nat /\
      (Sha256.length_check sample_bits2 = [] <-> (length sample_bits2 mod 512 = 0)%nat) /\
      Sha256.processing (firstn (512 * (length sample_bits2 / 512)) sample_bits2)
                        Sha256.H0 Sha256.K0
      = Ok ([], digest)) /\
  (exists digest,
      Sha384.processing sample_bits2 Sha384.H0 Sha384.K0
      = Ok (Sha384.length_check sample_bits2, digest) /\
      length digest = 384%nat /\
      (Sha384.length_check sample_bits2 = [] <-> (length sample_bits2 mod 1024 = 0)%nat) /\
      Sha384.processing (firstn (1024 * (length sample_bits2 / 1024)) sample_bits2)
                        Sha384.H0 Sha384.K0
      = Ok ([], digest)).
Proof.
  apply (processing_digests_the_whole_blocks
           sample_bits2 Sha256.H0 Sha256.K0 Sha384.H0 Sha384.K0).
  vm_compute. reflexivity.
Defined.

(** * The message words of SHA-256 *)

Lemma firstn_plus {A : Type} (a b : nat) :
  forall l : list A, firstn (a + b) l = firstn a l ++ firstn b (skipn a l).
Proof.
  induction a as [| a IH]; intros l; [reflexivity |].
  destruct l as [| x l]; cbn [Nat.add firstn skipn app].
  - now rewrite firstn_nil.
  - now rewrite IH.
Qed.

Lemma window_split {A : Type} (l : list A) (s a b : nat) :
  window l s (a + b) = window l s a ++ window l (s + a) b.
Proof.
  unfold window. rewrite firstn_plus, skipn_skipn.
  now rewrite (Nat.add_comm a s).
Qed.

Lemma text_byte (words : list byte) (k : nat) :
  (k < length words)%nat ->
  bits_value (window (fst (ShaH.TextToBinaryString words)) (8 * k) 8)
  = nth k (map byte_val words) 0 /\
  length (window (fst (ShaH.TextToBinaryString words)) (8 * k) 8) = 8%nat.
Proof.
  intros Hk. destruct (nth_error words k) as [c |] eqn:Hc;
    [| apply nth_error_None in Hc; lia].
  rewrite (TextToBinaryString_window words k c Hc). split.
  - rewrite char_bits_value. symmetry. apply nth_error_nth.
    now rewrite nth_error_map, Hc.
  - reflexivity.
Qed.

(** The 32 bits from bit [8k] on denote the four bytes from byte [k] on,
    most significant first. *)
Lemma text_word (words : list byte) (k : nat) :
  (k + 4 <= length words)%nat ->
  bits_value (window (fst (ShaH.TextToBinaryString words)) (8 * k) 32)
  = be_value (window (map byte_val words) k 4).
Proof.
  intros Hk. rewrite window_four by (rewrite length_map; lia).
  change 32%nat with (8 + (8 + (8 + 8)))%nat.
  rewrite !window_split, !bits_value_app, !length_app.
  replace (8 * k + 8)%nat with (8 * (k + 1))%nat by lia.
  replace (8 * (k + 1) + 8)%nat with (8 * (k + 2))%nat by lia.
  replace (8 * (k + 2) + 8)%nat with (8 * (k + 3))%nat by lia.
  destruct (text_byte words k) as [V0 L0]; [lia |].
  destruct (text_byte words (k + 1)) as [V1 L1]; [lia |].
  destruct (text_byte words (k + 2)) as [V2 L2]; [lia |].
  destruct (text_byte words (k + 3)) as [V3 L3]; [lia |].
  rewrite V0, V1, V2, V3, L1, L2, L3.
  unfold be_value. cbn [fold_left]. cbn [Nat.add Z.of_nat Pos.of_succ_nat Pos.succ].
  change (2 ^ 24) with 16777216. change (2 ^ 16) with 65536. change (2 ^ 8) with 256.
  lia.
Qed.

Lemma text_bytes_range (words : list byte) :
  Forall (fun b => 0 <= b < 256) (map byte_val words).
Proof.
  apply Forall_forall. intros b Hb. apply in_map_iff in Hb.
  destruct Hb as [c [<- _]]. apply byte_val_range.
Qed.

(** X20.  [Sha256.cpp] takes its message words through a bit vector
    ([TextToBinaryString], then [bitsToUsignedInt] on 32 bits); from a
    64-byte block of text this gives the sixteen words that [Sha1.cpp]
    assembles from the bytes with shifts: four bytes each, most
    significant first. *)
Theorem sha256_loads_the_words_sha1_decodes (words : list byte) (c : nat) :
  (64 * (c + 1) <= length words)%nat ->
  Sha256.load (fst (ShaH.TextToBinaryString words)) (Z.of_nat c * 512)
  = Sha1.decode (map byte_val words) (Z.of_nat (64 * c)).
Proof.
  intros Hin.
  destruct (decode_words (map byte_val words) (64 * c)) as [_ Hdecode];
    [apply text_bytes_range | rewrite length_map; lia |].
  rewrite Hdecode. unfold Sha256.load. rewrite map_map. apply map_ext_in.
  intros i Hi. apply in_seq in Hi.
  replace (Z.of_nat c * 512 + Z.of_nat i * 32)
    with (Z.of_nat (8 * (64 * c + 4 * i))) by lia.
  rewrite bitsToUsignedInt_value
    by (try lia; rewrite TextToBinaryString_length; lia).
  apply text_word. lia.
Qed.

Lemma sha256_loads_the_words_sha1_decodes_witness :
  Sha256.load (fst (ShaH.TextToBinaryString (letters_a 70))) (Z.of_nat 0 * 512)
  = Sha1.decode (map byte_val (letters_a 70)) (Z.of_nat (64 * 0)).
Proof.
  apply (sha256_loads_the_words_sha1_decodes (letters_a 70) 0).
  apply Nat.leb_le. vm_compute. reflexivity.
Defined.

(** * A checksum checks itself *)

Lemma byte_val_byte_of z : 0 <= z < 256 -> byte_val (byte_of z) = z.
Proof.
  intros Hz. unfold byte_of, byte_val.
  destruct (Byte.of_N (Z.to_N z)) as [b |] eqn:E.
  - apply Byte.to_of_N in E. rewrite E. lia.
  - apply Byte.of_N_None_iff in E. lia.
Qed.

Lemma shift8_lxor_byte x y :
  Z.lxor (crc_shift8 x) y = crc_shift8 (Z.lxor x (Z.shiftl y 8)).
Proof. now rewrite crc_shift8_lxor, crc_shift8_high. Qed.

(** A 32-bit word is the exclusive or of its four bytes, each at its
    place. *)
Lemma word_of_le_bytes crc :
  in32 crc ->
  Z.lxor (Z.lxor (Z.lxor ((crc / 256 ^ 0) mod 256)
                         (Z.shiftl ((crc / 256 ^ 1) mod 256) 8))
                 (Z.shiftl (Z.shiftl ((crc / 256 ^ 2) mod 256) 8) 8))
         (Z.shiftl (Z.shiftl (Z.shiftl ((crc / 256 ^ 3) mod 256) 8) 8) 8)
  = crc.
Proof.
  intros Hcrc.
  change (256 ^ 0) with (2 ^ (0 * 8)). change (256 ^ 1) with (2 ^ (1 * 8)).
  change (256 ^ 2) with (2 ^ (2 * 8)). change (256 ^ 3) with (2 ^ (3 * 8)).
  rewrite <- !byte_of_word by lia. change 0xFF with (Z.ones 8).
  apply Z.bits_inj'. intros k Hk.
  rewrite !Z.lxor_spec.
  assert (Hpiece : forall i n, 0 <= i -> 0 <= n ->
             Z.testbit (Z.land (Z.shiftr crc i) (Z.ones 8)) n
             = Z.testbit crc (n + i) && (n <? 8)).
  { intros i n Hi Hn. rewrite Z.land_spec, Z.shiftr_spec by lia.
    destruct (Z.ltb_spec n 8).
    - now rewrite Z.ones_spec_low by lia.
    - now rewrite Z.ones_spec_high by lia. }
  destruct (Z.lt_ge_cases k 8) as [H8 | H8].
  { rewrite !(Z.shiftl_spec_low _ 8 k) by lia.
    rewrite Hpiece by lia. rewrite Z.add_0_r.
    destruct (Z.ltb_spec k 8); [| lia]. now rewrite andb_true_r, !xorb_false_r. }
  rewrite !(Z.shiftl_spec _ 8 k) by lia.
  destruct (Z.lt_ge_cases k 16) as [H16 | H16].
  { rewrite !(Z.shiftl_spec_low _ 8 (k - 8)) by lia.
    rewrite !Hpiece by lia.
    destruct (Z.ltb_spec k 8); [lia |]. destruct (Z.ltb_spec (k - 8) 8); [| lia].
    replace (k - 8 + 1 * 8) with k by lia.
    now rewrite andb_false_r, andb_true_r, !xorb_false_r. }
  rewrite !(Z.shiftl_spec _ 8 (k - 8)) by lia.
  destruct (Z.lt_ge_cases k 24) as [H24 | H24].
  { rewrite !(Z.shiftl_spec_low _ 8 (k - 8 - 8)) by lia.
    rewrite !Hpiece by lia.
    destruct (Z.ltb_spec k 8); [lia |]. destruct (Z.ltb_spec (k - 8) 8); [lia |].
    destruct (Z.ltb_spec (k - 8 - 8) 8); [| lia].
    replace (k - 8 - 8 + 2 * 8) with k by lia.
    now rewrite !andb_false_r, andb_true_r, !xorb_false_r. }
  rewrite !(Z.shiftl_spec _ 8 (k - 8 - 8)) by lia.
  rewrite !Hpiece by lia.
  destruct (Z.ltb_spec k 8); [lia |]. destruct (Z.ltb_spec (k - 8) 8); [lia |].
  destruct (Z.ltb_spec (k - 8 - 8) 8); [lia |].
  replace (k - 8 - 8 - 8 + 3 * 8) with k by lia.
  rewrite !andb_false_r. cbn [xorb].
  destruct (Z.ltb_spec (k - 8 - 8 - 8) 8).
  - now rewrite andb_true_r.
  - rewrite andb_false_r. symmetry. apply (high_bits_clear 32); [exact Hcrc | lia].
Qed.

Lemma crc_register_in32 (data : list byte) :
  forall crc,
    in32 crc ->
    in32 (fold_left (fun crc c => crc_shift8 (Z.lxor crc (byte_val c))) data crc).
Proof.
  induction data as [| c data IH]; intros crc Hcrc; [exact Hcrc |].
  cbn [fold_left]. apply IH.
  rewrite <- (update_is_shift8 (repeat 0 256)) by apply repeat_length.
  apply crc_update_in32; [apply repeat_length | exact Hcrc].
Qed.

(** X21.  A checksum checks itself: when the four bytes of the checksum
    of some data are put after the data, least significant byte first,
    [calculateCRC32] of the whole is the same constant for every data. *)
Theorem crc32_of_data_with_its_checksum (data : list byte) :
  let table := Crc.generateCRC32Table (repeat 0 256) in
  Crc.calculateCRC32 (data ++ crc_bytes (Crc.calculateCRC32 data table)) table
  = 0x2144DF1C.
Proof.
  intros table. subst table.
  rewrite !calculateCRC32_bitwise by apply repeat_length.
  unfold crc_bitwise at 1. rewrite fold_left_app.
  unfold crc_bitwise.
  set (r := fold_left _ data 0xFFFFFFFF).
  assert (Hr : in32 r).
  { apply crc_register_in32. split; [lia | reflexivity]. }
  assert (Hcrc : in32 (Z.lxor r 0xFFFFFFFF)).
  { apply lxor_in32; [exact Hr | split; [lia | reflexivity]]. }
  set (crc := Z.lxor r 0xFFFFFFFF) in *.
  unfold crc_bytes, le_bytes. cbn [seq map fold_left].
  rewrite !byte_val_byte_of by (apply Z.mod_pos_bound; reflexivity).
  rewrite !shift8_lxor_byte.
  cbn [Z.of_nat Pos.of_succ_nat Pos.succ].
  pose proof (word_of_le_bytes crc Hcrc) as Hword.
  replace (Z.lxor (Z.lxor (Z.lxor (Z.lxor r ((crc / 256 ^ 0) mod 256))
                                  (Z.shiftl ((crc / 256 ^ 1) mod 256) 8))
                          (Z.shiftl (Z.shiftl ((crc / 256 ^ 2) mod 256) 8) 8))
                  (Z.shiftl (Z.shiftl (Z.shiftl ((crc / 256 ^ 3) mod 256) 8) 8) 8))
    with (Z.lxor r crc)
    by (rewrite <- Hword at 1; now rewrite !Z.lxor_assoc).
  subst crc. rewrite <- Z.lxor_assoc, Z.lxor_nilpotent, Z.lxor_0_l.
  vm_compute. reflexivity.
Qed.

(** * [bitsetToHex] *)

Lemma nib_value (b3 b2 b1 b0 : bool) : nib b3 b2 b1 b0 = bits_value [b3; b2; b1; b0].
Proof. unfold nib, bits_value. cbn [fold_left]. lia. Qed.

(** X22.  [bitsetToHex] reads the bits as a binary numeral, most
    significant first: it returns one lowercase hexadecimal digit for
    every four bits, in the order of the bits, the first bit of a group
    being worth eight.  The descending loop and the final [reverse]
    cancel. *)
Theorem bitsetToHex_prints_four_bits_per_digit (bits : list bool) (n : nat) :
  (4 * n <= length bits)%nat ->
  ShaH.bitsetToHex bits (4 * Z.of_nat n)
  = map (fun q => hex_digit (bits_value (window bits (4 * q) 4))) (seq 0 n) /\
  length (ShaH.bitsetToHex bits (4 * Z.of_nat n)) = n /\
  forallb is_lower_hex (ShaH.bitsetToHex bits (4 * Z.of_nat n)) = true.
Proof.
  intros Hin.
  assert (Hdigits : ShaH.bitsetToHex bits (4 * Z.of_nat n)
                    = map (fun q => hex_digit (bits_value (window bits (4 * q) 4)))
                          (seq 0 n)).
  { rewrite bitsetToHex_digits. unfold hex_of_bits. apply map_ext_in.
    intros q Hq. apply in_seq in Hq. f_equal.
    rewrite nibble_eq, nib_value. f_equal.
    rewrite <- (window_nths bits false 4 (4 * q)) by lia.
    cbn [seq map]. unfold ShaH.bit_at.
    rewrite Nat.add_0_r.
    repeat (apply (f_equal2 cons); [f_equal; lia |]). reflexivity. }
  rewrite Hdigits. split; [reflexivity |]. split.
  - now rewrite length_map, length_seq.
  - apply forallb_forall. intros c Hc. apply in_map_iff in Hc.
    destruct Hc as [q [<- Hq]]. apply in_seq in Hq. apply hex_digit_lower.
    pose proof (bits_value_bound (window bits (4 * q) 4)) as Hb.
    unfold window in Hb at 3. rewrite length_firstn, length_skipn in Hb.
    replace (Nat.min 4 (length bits - 4 * q)) with 4%nat in Hb by lia.
    exact Hb.
Qed.

Lemma bitsetToHex_prints_four_bits_per_digit_witness :
  ShaH.bitsetToHex sample_bits2 (4 * Z.of_nat 128)
  = map (fun q => hex_digit (bits_value (window sample_bits2 (4 * q) 4))) (seq 0 128) /\
  length (ShaH.bitsetToHex sample_bits2 (4 * Z.of_nat 128)) = 128%nat /\
  forallb is_lower_hex (ShaH.bitsetToHex sample_bits2 (4 * Z.of_nat 128)) = true.
Proof.
  apply (bitsetToHex_prints_four_bits_per_digit sample_bits2 128).
  apply Nat.leb_le. vm_compute. reflexivity.
Defined.

(** * The round functions of MD5 *)

Lemma not32_testbit x k :
  0 <= k < 32 -> Z.testbit (not32 x) k = negb (Z.testbit x k).
Proof.
  intros Hk. unfold not32. rewrite Z.lxor_spec, Z.ones_spec_low by lia.
  apply xorb_true_r.
Qed.

Lemma bits_in32 x :
  0 <= x -> (forall k, 32 <= k -> Z.testbit x k = false) -> in32 x.
Proof.
  intros Hx Hhigh. unfold in32.
  assert (Hmod : x = x mod 2 ^ 32).
  { apply Z.bits_inj'. intros k Hk. destruct (Z.lt_ge_cases k 32).
    - now rewrite Z.mod_pow2_bits_low by lia.
    - rewrite Z.mod_pow2_bits_high by lia. now apply Hhigh. }
  rewrite Hmod. apply Z.mod_pos_bound. reflexivity.
Qed.

Lemma not32_nonneg x : 0 <= x -> 0 <= not32 x.
Proof. intros Hx. unfold not32. apply Z.lxor_nonneg. cbn. lia. Qed.

Lemma not32_high x k : in32 x -> 32 <= k -> Z.testbit (not32 x) k = false.
Proof.
  intros Hx Hk. unfold not32.
  rewrite Z.lxor_spec, Z.ones_spec_high, (high_bits_clear 32 x k) by (assumption || lia).
  reflexivity.
Qed.

(** X23.  On 32-bit words the round functions of MD5 act bit by bit:
    [F] chooses between [y] and [z] by the bits of [x], [G] is [F] with
    [z] choosing between [x] and [y], [H] is the parity of the three bits
    and [I] is [y] exclusive-or ([x] or not [z]); the results fit 32 bits
    again, so the complement [~x] never leaks bits above the word. *)
Theorem md5_round_functions_act_bitwise (x y z k : Z) :
  in32 x -> in32 y -> in32 z -> 0 <= k < 32 ->
  Z.testbit (Md5.F x y z) k
  = (if Z.testbit x k then Z.testbit y k else Z.testbit z k) /\
  Md5.G x y z = Md5.F z x y /\
  Z.testbit (Md5.H x y z) k = xorb (xorb (Z.testbit x k) (Z.testbit y k)) (Z.testbit z k) /\
  Z.testbit (Md5.I x y z) k
  = xorb (Z.testbit y k) (Z.testbit x k || negb (Z.testbit z k)) /\
  in32 (Md5.F x y z) /\ in32 (Md5.G x y z) /\ in32 (Md5.H x y z) /\ in32 (Md5.I x y z).
Proof.
  intros Hx Hy Hz Hk.
  assert (HG : Md5.G x y z = Md5.F z x y).
  { unfold Md5.G, Md5.F. now rewrite (Z.land_comm x z), (Z.land_comm y). }
  assert (HF : forall a b c, in32 a -> in32 b -> in32 c -> in32 (Md5.F a b c)).
  { intros a b c Ha Hb Hc. unfold Md5.F. apply bits_in32.
    - apply Z.lor_nonneg. split; apply Z.land_nonneg; left;
        [apply Ha | apply not32_nonneg, Ha].
    - intros j Hj. rewrite Z.lor_spec, !Z.land_spec.
      rewrite (high_bits_clear 32 a j), (not32_high a j) by (assumption || lia).
      reflexivity. }
  repeat split.
  - unfold Md5.F. rewrite Z.lor_spec, !Z.land_spec, not32_testbit by assumption.
    destruct (Z.testbit x k), (Z.testbit y k), (Z.testbit z k); reflexivity.
  - exact HG.
  - unfold Md5.H. now rewrite !Z.lxor_spec.
  - unfold Md5.I. rewrite Z.lxor_spec, Z.lor_spec, not32_testbit by assumption.
    reflexivity.
  - apply HF; assumption.
  - apply HF; assumption.
  - rewrite HG. apply HF; assumption.
  - rewrite HG. apply HF; assumption.
  - unfold Md5.H. apply lxor_in32; [apply lxor_in32 |]; assumption.
  - unfold Md5.H. apply lxor_in32; [apply lxor_in32 |]; assumption.
  - unfold Md5.I. apply bits_in32.
    + apply Z.lxor_nonneg. split; intros _.
      * apply Z.lor_nonneg. split; [apply Hx | apply not32_nonneg, Hz].
      * apply Hy.
    + intros j Hj. rewrite Z.lxor_spec, Z.lor_spec.
      rewrite (high_bits_clear 32 y j), (high_bits_clear 32 x j), (not32_high z j)
        by (assumption || lia).
      reflexivity.
  - unfold Md5.I. apply bits_in32.
    + apply Z.lxor_nonneg. split; intros _.
      * apply Z.lor_nonneg. split; [apply Hx | apply not32_nonneg, Hz].
      * apply Hy.
    + intros j Hj. rewrite Z.lxor_spec, Z.lor_spec.
      rewrite (high_bits_clear 32 y j), (high_bits_clear 32 x j), (not32_high z j)
        by (assumption || lia).
      reflexivity.
Qed.

Lemma md5_round_functions_act_bitwise_witness :
  Z.testbit (Md5.F 0xF0F0F0F0 0x12345678 0x9abcdef0) 5
  = (if Z.testbit 0xF0F0F0F0 5 then Z.testbit 0x12345678 5 else Z.testbit 0x9abcdef0 5) /\
  Md5.G 0xF0F0F0F0 0x12345678 0x9abcdef0 = Md5.F 0x9abcdef0 0xF0F0F0F0 0x12345678 /\
  Z.testbit (Md5.H 0xF0F0F0F0 0x12345678 0x9abcdef0) 5
  = xorb (xorb (Z.testbit 0xF0F0F0F0 5) (Z.testbit 0x12345678 5))
         (Z.testbit 0x9abcdef0 5) /\
  Z.testbit (Md5.I 0xF0F0F0F0 0x12345678 0x9abcdef0) 5
  = xorb (Z.testbit 0x12345678 5)
         (Z.testbit 0xF0F0F0F0 5 || negb (Z.testbit 0x9abcdef0 5)) /\
  in32 (Md5.F 0xF0F0F0F0 0x12345678 0x9abcdef0) /\
  in32 (Md5.G 0xF0F0F0F0 0x12345678 0x9abcdef0) /\
  in32 (Md5.H 0xF0F0F0F0 0x12345678 0x9abcdef0) /\
  in32 (Md5.I 0xF0F0F0F0 0x12345678 0x9abcdef0).
Proof.
  apply (md5_round_functions_act_bitwise 0xF0F0F0F0 0x12345678 0x9abcdef0 5);
    unfold in32; split; (lia || reflexivity).
Defined.
